(** * SJCVector: a growable array used to study the special member functions

    The repository holds three variants of one class:
    - [Managed]: the class template over [std::unique_ptr<T[]>]
      (SJCVector.h, and its earlier non-template [int] version, whose member
      functions have the same bodies);
    - [Raw]: the class template over an owning raw pointer [T*].

    Objects are records passed and returned by the member functions; the
    buffers they own live in a heap of arrays, so that ownership, aliasing and
    release are explicit.  Console output is not modelled. *)

From stdpp Require Import gmap strings list fin_maps.
From Stdlib Require Import ZArith Lia.

Open Scope Z_scope.

(** ** Machine integers *)

Definition SIZE_MOD : Z := 2 ^ 64.
Definition LLONG_MAX : Z := 2 ^ 63 - 1.
Definition INT_MAX : Z := 2 ^ 31 - 1.

(** Conversion to [size_t]: reduction modulo 2^64. *)
Definition to_size_t (z : Z) : Z := z mod SIZE_MOD.

(** Conversion to [long long] (and to [ptrdiff_t]): the value congruent
    modulo 2^64 in the signed range. *)
Definition to_ll (z : Z) : Z :=
  let u := z mod SIZE_MOD in
  if u <=? LLONG_MAX then u else u - SIZE_MOD.

(** ** Outcomes of a computation

    [Throw] is an exception leaving the function ([std::bad_alloc]), [UB] is
    undefined behaviour (out-of-bounds access, double release, signed
    overflow). *)

Inductive outcome (A : Type) : Type :=
| Ok (a : A)
| Throw
| UB.
Arguments Ok {A} a.
Arguments Throw {A}.
Arguments UB {A}.

(** Addresses of heap arrays; [None] is the null pointer. *)
Abbreviation loc := positive.
Abbreviation ptr := (option positive).

(** The data members, the same in the three variants.  [first_] is [None]
    while it has never been written (the move constructor leaves it so). *)
Record SJCVector : Type := mkSJCVector {
  ptr_ : ptr;
  size_ : Z;          (* size_t *)
  first_ : option Z;  (* size_t *)
  last_ : Z;          (* long long *)
  name_ : string
}.

(** [const long long emptyVec = -1] *)
Definition emptyVec : Z := -1.

Definition set_ptr_ (p : ptr) (v : SJCVector) : SJCVector :=
  mkSJCVector p (size_ v) (first_ v) (last_ v) (name_ v).
Definition set_size_ (n : Z) (v : SJCVector) : SJCVector :=
  mkSJCVector (ptr_ v) n (first_ v) (last_ v) (name_ v).
Definition set_last_ (n : Z) (v : SJCVector) : SJCVector :=
  mkSJCVector (ptr_ v) (size_ v) (first_ v) n (name_ v).

(** [rename]: only the label changes. *)
Definition rename (newName : string) (v : SJCVector) : SJCVector :=
  mkSJCVector (ptr_ v) (size_ v) (first_ v) (last_ v) newName.

(** [swap]: exchanges buffer, capacity, first and last; the labels stay. *)
Definition swap (this rhs : SJCVector) : SJCVector * SJCVector :=
  (mkSJCVector (ptr_ rhs) (size_ rhs) (first_ rhs) (last_ rhs) (name_ this),
   mkSJCVector (ptr_ this) (size_ this) (first_ this) (last_ this) (name_ rhs)).

(** Occupied count and capacity as the spec names them. *)
Definition count (v : SJCVector) : Z := last_ v + 1.
Definition capacity (v : SJCVector) : Z := size_ v.

(** ** The heap and the library operations on it *)

Section Heap.
Context {T : Type}.
(** The value of [T()]. *)
Variable dflt : T.
(** The largest array length an allocation can deliver; a request beyond it
    throws [std::bad_alloc]. *)
Variable max_alloc : Z.

(** A cell is [None] while it holds an indeterminate value. *)
Abbreviation heap := (gmap positive (list (option T))).

Definition M (A : Type) : Type := heap → outcome (A * heap).

Definition ret {A} (a : A) : M A := λ h, Ok (a, h).
Definition bind {A B} (m : M A) (f : A → M B) : M B :=
  λ h, match m h with
       | Ok (a, h') => f a h'
       | Throw => Throw
       | UB => UB
       end.
Definition ub {A} : M A := λ _, UB.
Definition throw {A} : M A := λ _, Throw.

(** Allocation of [n] cells, each holding [init]. *)
Definition alloc_array (n : Z) (init : option T) : M ptr :=
  λ h, if (n <? 0) || (max_alloc <? n) then Throw
       else let l := fresh (dom h) in
            Ok (Some l, <[l := replicate (Z.to_nat n) init]> h).

(** [std::make_unique<T[]>(n)] and [new T[n]()]: value-initialised cells. *)
Definition make_unique (n : Z) : M ptr := alloc_array n (Some dflt).
(** [new T[n]]: default-initialised cells. *)
Definition new_array (n : Z) : M ptr := alloc_array n None.

(** [delete[] p], also what a [unique_ptr] does with the array it gives up:
    nothing for the null pointer, undefined for an array not allocated. *)
Definition delete_array (p : ptr) : M unit :=
  λ h, match p with
       | None => Ok (tt, h)
       | Some l => match h !! l with
                   | Some _ => Ok (tt, delete l h)
                   | None => UB
                   end
       end.

Definition load_cell (blk : list (option T)) (i : Z) : option T :=
  if i <? 0 then None else mjoin (blk !! Z.to_nat i).

(** [p[i]] read. *)
Definition load (p : ptr) (i : Z) : M T :=
  λ h, match p with
       | None => UB
       | Some l => match h !! l with
                   | None => UB
                   | Some blk => match load_cell blk i with
                                 | Some v => Ok (v, h)
                                 | None => UB
                                 end
                   end
       end.

(** [p[i] = v]. *)
Definition store (p : ptr) (i : Z) (v : T) : M unit :=
  λ h, match p with
       | None => UB
       | Some l => match h !! l with
                   | None => UB
                   | Some blk =>
                       if (0 <=? i) && (i <? Z.of_nat (length blk))
                       then Ok (tt, <[l := <[Z.to_nat i := Some v]> blk]> h)
                       else UB
                   end
       end.

Definition is_init (c : option T) : bool :=
  match c with Some _ => true | None => false end.

(** [std::copy(src, src + n, dst)] on two different arrays: the first [n]
    cells of the source replace the first [n] cells of the destination.
    Nothing happens for an empty range; reading or writing past the end of
    an array, or reading an indeterminate value, is undefined. *)
Definition std_copy (src : ptr) (n : Z) (dst : ptr) : M unit :=
  λ h, if n =? 0 then Ok (tt, h)
       else if n <? 0 then UB
       else match src, dst with
            | Some ls, Some ld =>
                match h !! ls, h !! ld with
                | Some bs, Some bd =>
                    if (n <=? Z.of_nat (length bs)) && (n <=? Z.of_nat (length bd))
                       && forallb is_init (take (Z.to_nat n) bs)
                       && negb (bool_decide (ls = ld))
                    then Ok (tt, <[ld := take (Z.to_nat n) bs ++ drop (Z.to_nat n) bd]> h)
                    else UB
                | _, _ => UB
                end
            | _, _ => UB
            end.

(** [x + 1] on a [long long]: overflow is undefined. *)
Definition ll_succ (x : Z) : M Z :=
  if x =? LLONG_MAX then ub else ret (x + 1).

(** [i++] on an [int]. *)
Definition int_succ (i : Z) : M Z :=
  if i =? INT_MAX then ub else ret (i + 1).

(** The array a pointer designates (empty for the null pointer). *)
Definition cells (h : heap) (p : ptr) : list (option T) :=
  match p with
  | None => []
  | Some l => default [] (h !! l)
  end.

Fixpoint read_cells (cs : list (option T)) : option (list T) :=
  match cs with
  | [] => Some []
  | Some v :: cs' => match read_cells cs' with
                      | Some vs => Some (v :: vs)
                      | None => None
                      end
  | None :: _ => None
  end.

(** The occupied elements, slots [0 .. last_], in order; [None] when a slot
    in that range does not exist or is indeterminate. *)
Definition contents (h : heap) (v : SJCVector) : option (list T) :=
  let cs := cells h (ptr_ v) in
  if (0 <=? count v) && (count v <=? Z.of_nat (length cs))
  then read_cells (take (Z.to_nat (count v)) cs)
  else None.
(** The value in slot [i] of the buffer, if the slot exists and holds
    one. *)
Definition slot (h : heap) (v : SJCVector) (i : Z) : option T :=
  load_cell (cells h (ptr_ v)) i.

(** Release of the array behind a pointer, as a map operation. *)
Definition release (p : ptr) (h : heap) : heap :=
  match p with
  | None => h
  | Some l => delete l h
  end.

(** The state a container is meant to be in: the cursor within the
    capacity, the capacity within what can be allocated, and the buffer an
    allocated array of [size_] cells (the null pointer only with capacity
    0).  With [all_init] every cell holds a value, without it the occupied
    cells do. *)
Definition wfb (all_init : bool) (h : heap) (v : SJCVector) : bool :=
  (-1 <=? last_ v) && (last_ v + 1 <=? size_ v) && (size_ v <=? max_alloc)
  && match ptr_ v with
     | None => size_ v =? 0
     | Some l =>
         match h !! l with
         | None => false
         | Some blk =>
             (Z.of_nat (length blk) =? size_ v)
             && forallb is_init
                  (if all_init then blk else take (Z.to_nat (count v)) blk)
         end
     end.

(** Two objects that do not share a buffer. *)
Definition separate (a b : SJCVector) : Prop :=
  ∀ l, ptr_ a = Some l → ptr_ b ≠ Some l.

(** What an operation on one container may do to the heap: the arrays of
    others stay as they are, and the buffer it ends with is the one it had
    or one that was not allocated before. *)
Definition frame (h : heap) (this : SJCVector) (h' : heap)
    (this' : SJCVector) : Prop :=
  (∀ l, ptr_ this ≠ Some l → is_Some (h !! l) → h' !! l = h !! l)
  ∧ (∀ l, ptr_ this' = Some l → ptr_ this = Some l ∨ h !! l = None).
End Heap.

Abbreviation heap T := (gmap positive (list (option T))).

Notation "'let!' x ':=' m 'in' k" := (bind m (λ x, k))
  (at level 10, x name, m at level 100, k at level 200,
   format "'[v' 'let!'  x  ':='  m  'in' '/' k ']'").
Notation "'do!' m 'in' k" := (bind m (λ _, k))
  (at level 10, m at level 100, k at level 200,
   format "'[v' 'do!'  m  'in' '/' k ']'").

(** ** The class over [std::unique_ptr<T[]>] *)

Module Managed.
Section Class.
Context {T : Type}.
Variable dflt : T.
(** [operator+] of [T], used through [+=]. *)
Variable add : T → T → T.
Variable max_alloc : Z.

Local Abbreviation M := (@M T).

(** An object whose constructor body has not run yet: the [unique_ptr] is
    null and the label is the one of the member initialiser; the integer
    members hold nothing that is read before it is written. *)
Definition blank (name : string) : SJCVector :=
  mkSJCVector None 0 None 0 name.

(** [initSJCVector(initialSize)] *)
Definition initSJCVector (initialSize : Z) (this : SJCVector) : M SJCVector :=
  let this := set_size_ initialSize this in
  let! p := make_unique dflt max_alloc (size_ this) in
  do! delete_array (ptr_ this) in
  ret (mkSJCVector p (size_ this) (Some 0) emptyVec (name_ this)).

(** [SJCVector()] *)
Definition SJCVector_default : M SJCVector :=
  initSJCVector 1 (blank EmptyString).

(** [SJCVector(std::size_t size)] *)
Definition SJCVector_sized (size : Z) : M SJCVector :=
  initSJCVector size (blank EmptyString).

(** [SJCVector(std::string name, size_t size = 1)] *)
Definition SJCVector_named (name : string) (size : Z) : M SJCVector :=
  initSJCVector size (blank name).

(** [~SJCVector()]: the [unique_ptr] member releases its array. *)
Definition SJCVector_dtor (this : SJCVector) : M unit :=
  delete_array (ptr_ this).

(** [SJCVector(const SJCVector& rhs)] *)
Definition SJCVector_copy (rhs : SJCVector) : M SJCVector :=
  let! this := initSJCVector (size_ rhs) (blank EmptyString) in
  do! std_copy (ptr_ rhs) (to_ll (size_ this)) (ptr_ this) in
  let this := set_last_ (last_ rhs) this in
  ret (rename "copy" this).

(** [SJCVector(SJCVector&& rhs)]: the new object and what is left of
    [rhs]. *)
Definition SJCVector_move (rhs : SJCVector) : SJCVector * SJCVector :=
  (mkSJCVector (ptr_ rhs) (size_ rhs) None (last_ rhs) EmptyString,
   mkSJCVector None 0 (first_ rhs) emptyVec (name_ rhs)).

(** [operator=(SJCVector copy)]: the parameter is swapped with [*this] and
    destroyed when the function returns. *)
Definition operator_assign (copy this : SJCVector) : M SJCVector :=
  let '(copy, this) := swap copy this in
  do! SJCVector_dtor copy in
  ret this.

(** [a = b]: the parameter is copy-constructed from [b]. *)
Definition copy_assign (this rhs : SJCVector) : M SJCVector :=
  let! copy := SJCVector_copy rhs in
  operator_assign copy this.

(** [a = std::move(b)]: the parameter is move-constructed from [b]; the
    result is the new [a] and what is left of [b]. *)
Definition move_assign (this rhs : SJCVector) : M (SJCVector * SJCVector) :=
  let '(copy, rhs) := SJCVector_move rhs in
  let! this := operator_assign copy this in
  ret (this, rhs).

(** [resize(size_t newSize)] *)
Definition resize (newSize : Z) (this : SJCVector) : M SJCVector :=
  let newSize := if newSize =? 0 then 1 else newSize in
  let! newptr := make_unique dflt max_alloc newSize in
  if bool_decide (is_Some newptr) then
    let! this :=
      (if 0 <=? last_ this then
         let this :=
           if newSize <=? to_size_t (last_ this)
           then set_last_ (to_ll (to_size_t (newSize - 1))) this
           else this in
         do! (if 0 <? newSize
              then std_copy (ptr_ this) (to_ll (size_ this)) newptr
              else ret tt) in
         ret this
       else ret this) in
    do! delete_array (ptr_ this) in
    ret (set_size_ newSize (set_ptr_ newptr this))
  else ret this.

(** [resize()]: the geometric growth. *)
Definition resize_geometric (this : SJCVector) : M SJCVector :=
  resize (to_size_t (size_ this * 2 + 1)) this.

(** The test [size_ > last_ + 1] that guards the insertion. *)
Definition has_room (this : SJCVector) : M bool :=
  let! n := ll_succ (last_ this) in
  ret (to_size_t n <? size_ this).

(** The test [(size_ == last_ + 1) || size_ == 0] that triggers growth. *)
Definition must_grow (this : SJCVector) : M bool :=
  let! n := ll_succ (last_ this) in
  ret ((size_ this =? to_size_t n) || (size_ this =? 0)).

(** [push_back(T newValue)] *)
Definition push_back (newValue : T) (this : SJCVector) : M SJCVector :=
  let! g := must_grow this in
  let! this := (if g then resize_geometric this else ret this) in
  let! r := has_room this in
  if r then
    let! n := ll_succ (last_ this) in
    let this := set_last_ n this in
    do! store (ptr_ this) (last_ this) newValue in
    ret this
  else ret this.

(** The body of [for (int i = 0; i <= last_; i++) dst[i] += src[i];], run
    for the [n] indices from [i] on; the increment follows every round. *)
Fixpoint add_loop (n : nat) (i : Z) (dst src : ptr) : M unit :=
  match n with
  | O => ret tt
  | S n' =>
      let! a := load dst i in
      let! b := load src i in
      do! store dst i (add a b) in
      let! i' := int_succ i in
      add_loop n' i' dst src
  end.

(** [operator+(const SJCVector& rhs)]; the local [retVec] is the object
    returned. *)
Definition operator_plus (this rhs : SJCVector) : M SJCVector :=
  if (size_ rhs =? 0) || (size_ this =? 0) || negb (last_ rhs =? last_ this)
  then SJCVector_default
  else
    let! retVec := SJCVector_copy this in
    let retVec := rename "retVec" retVec in
    do! add_loop (Z.to_nat (last_ this + 1)) 0 (ptr_ retVec) (ptr_ rhs) in
    ret retVec.

(** Every cell of a managed buffer holds a value: [make_unique]
    value-initialises. *)
Definition wf (h : heap T) (v : SJCVector) : Prop :=
  wfb max_alloc true h v = true.

(** The operations that change one container in place; the argument of
    [resize] is converted to [size_t] at the call. *)
Inductive mutation : Type :=
| MPush (newValue : T)
| MResize (newSize : Z).

Definition mutate (m : mutation) (this : SJCVector) : M SJCVector :=
  match m with
  | MPush newValue => push_back newValue this
  | MResize newSize => resize (to_size_t newSize) this
  end.

Fixpoint mutate_all (ms : list mutation) (this : SJCVector) : M SJCVector :=
  match ms with
  | [] => ret this
  | m :: ms' => let! this := mutate m this in mutate_all ms' this
  end.

(** [push_back] of each value of a list, in order. *)
Definition push_all (vs : list T) (this : SJCVector) : M SJCVector :=
  mutate_all (MPush <$> vs) this.

(** *** Programs over named containers

    The public operations, applied to the variables of a scope.  A
    statement that names a variable not in scope, or declares one that is,
    is not a program step and leaves the state as it is. *)
Inductive op : Type :=
| Construct (x : string) (size : Z)      (* SJCVector x(name, size); *)
| CopyConstruct (x y : string)           (* SJCVector x(y); *)
| MoveConstruct (x y : string)           (* SJCVector x(std::move(y)); *)
| Assign (x y : string)                  (* x = y; *)
| MoveAssign (x y : string)              (* x = std::move(y); *)
| PushBack (x : string) (newValue : T)   (* x.push_back(newValue); *)
| Resize (x : string) (newSize : Z)      (* x.resize(newSize); *)
| Swap (x y : string)                    (* x.swap(y); *)
| Plus (x y z : string).                 (* SJCVector x(y + z); *)

Definition declare (x : string) (objs : gmap string SJCVector)
    (k : M (gmap string SJCVector)) : M (gmap string SJCVector) :=
  match objs !! x with
  | Some _ => ret objs
  | None => k
  end.

Definition step (o : op) (objs : gmap string SJCVector)
    : M (gmap string SJCVector) :=
  match o with
  | Construct x size =>
      declare x objs
        (let! v := SJCVector_named x (to_size_t size) in
         ret (<[x := v]> objs))
  | CopyConstruct x y =>
      declare x objs
        match objs !! y with
        | Some vy =>
            let! v := SJCVector_copy vy in
            ret (<[x := v]> objs)
        | None => ret objs
        end
  | MoveConstruct x y =>
      declare x objs
        match objs !! y with
        | Some vy =>
            let '(v, vy) := SJCVector_move vy in
            ret (<[x := v]> (<[y := vy]> objs))
        | None => ret objs
        end
  | Assign x y =>
      match objs !! x, objs !! y with
      | Some vx, Some vy =>
          let! vx := copy_assign vx vy in
          ret (<[x := vx]> objs)
      | _, _ => ret objs
      end
  | MoveAssign x y =>
      match objs !! y with
      | Some vy =>
          let '(copy, vy) := SJCVector_move vy in
          let objs := <[y := vy]> objs in
          match objs !! x with
          | Some vx =>
              let! vx := operator_assign copy vx in
              ret (<[x := vx]> objs)
          | None => ret objs
          end
      | None => ret objs
      end
  | PushBack x newValue =>
      match objs !! x with
      | Some vx =>
          let! vx := push_back newValue vx in
          ret (<[x := vx]> objs)
      | None => ret objs
      end
  | Resize x newSize =>
      match objs !! x with
      | Some vx =>
          let! vx := resize (to_size_t newSize) vx in
          ret (<[x := vx]> objs)
      | None => ret objs
      end
  | Swap x y =>
      match objs !! x, objs !! y with
      | Some vx, Some vy =>
          let '(vx, vy) := swap vx vy in
          ret (<[y := vy]> (<[x := vx]> objs))
      | _, _ => ret objs
      end
  | Plus x y z =>
      declare x objs
        match objs !! y, objs !! z with
        | Some vy, Some vz =>
            let! v := operator_plus vy vz in
            ret (<[x := v]> objs)
        | _, _ => ret objs
        end
  end.

Fixpoint run (os : list op) (objs : gmap string SJCVector)
    : M (gmap string SJCVector) :=
  match os with
  | [] => ret objs
  | o :: os' => let! objs := step o objs in run os' objs
  end.

(** The variables a statement may change: those it declares, assigns,
    moves from, swaps or calls a non-const member function on. *)
Definition writes (o : op) : list string :=
  match o with
  | Construct x _ => [x]
  | CopyConstruct x _ => [x]
  | MoveConstruct x y => [x; y]
  | Assign x _ => [x]
  | MoveAssign x y => [x; y]
  | PushBack x _ => [x]
  | Resize x _ => [x]
  | Swap x y => [x; y]
  | Plus x _ _ => [x]
  end.

(** The containers of a scope are well formed and no two share a
    buffer. *)
Definition wf_world (objs : gmap string SJCVector) (h : heap T) : Prop :=
  (∀ x v, objs !! x = Some v → wf h v)
  ∧ (∀ x y vx vy, x ≠ y → objs !! x = Some vx → objs !! y = Some vy →
                  separate vx vy).
End Class.
End Managed.

(** ** The class over an owning raw pointer [T*] *)

Module Raw.
Section Class.
Context {T : Type}.
Variable dflt : T.
Variable add : T → T → T.
(** The conversion from [int] that the assignment in [push_back] applies. *)
Variable of_int : Z → T.
Variable max_alloc : Z.

Local Abbreviation M := (@M T).

(** [initSJCVector()] *)
Definition initSJCVector (this : SJCVector) : SJCVector :=
  mkSJCVector (ptr_ this) (size_ this) (Some 0) (-1) (name_ this).

(** [SJCVector()] *)
Definition SJCVector_default : SJCVector :=
  initSJCVector (mkSJCVector None 0 None 0 EmptyString).

(** [SJCVector(std::size_t size)] *)
Definition SJCVector_sized (size : Z) : M SJCVector :=
  let! p := (if size =? 0 then ret None else make_unique dflt max_alloc size) in
  ret (initSJCVector (mkSJCVector p size None 0 EmptyString)).

(** [resize(size_t newSize)] *)
Definition resize (newSize : Z) (this : SJCVector) : M SJCVector :=
  let newSize := if newSize =? 0 then 1 else newSize in
  let! newptr := new_array max_alloc newSize in
  if bool_decide (newptr = None) then ret this
  else
    let! this :=
      (if 0 <=? last_ this then
         let this :=
           if newSize <=? to_size_t (last_ this)
           then set_last_ (to_ll (to_size_t (newSize - 1))) this
           else this in
         do! (if 0 <? newSize
              then let! n := ll_succ (last_ this) in
                   std_copy (ptr_ this) n newptr
              else ret tt) in
         ret this
       else ret this) in
    do! delete_array (ptr_ this) in
    ret (set_size_ newSize (set_ptr_ newptr this)).

(** [SJCVector(std::string name, size_t newSize = 0)] *)
Definition SJCVector_named (name : string) (newSize : Z) : M SJCVector :=
  resize newSize (initSJCVector (mkSJCVector None 0 None 0 name)).

(** [~SJCVector()] *)
Definition SJCVector_dtor (this : SJCVector) : M unit :=
  delete_array (ptr_ this).

(** [SJCVector(const SJCVector& rhs)]; [first_] is not written.  A negative
    array length makes [new] throw. *)
Definition SJCVector_copy (rhs : SJCVector) : M SJCVector :=
  let! n := ll_succ (last_ rhs) in
  let! p := (if n <? 0 then throw else new_array max_alloc (to_size_t n)) in
  let this := mkSJCVector p (to_size_t n) None (last_ rhs) EmptyString in
  do! std_copy (ptr_ rhs) n (ptr_ this) in
  ret (rename "copy" this).

(** [SJCVector(SJCVector&& rhs)], after the delegation to [SJCVector()]. *)
Definition SJCVector_move (rhs : SJCVector) : SJCVector * SJCVector :=
  let this := SJCVector_default in
  (mkSJCVector (ptr_ rhs) (size_ rhs) (first_ this) (last_ rhs) (name_ this),
   mkSJCVector None 0 (first_ rhs) (-1) (name_ rhs)).

(** [operator=(SJCVector copy)] *)
Definition operator_assign (copy this : SJCVector) : M SJCVector :=
  let '(copy, this) := swap copy this in
  do! SJCVector_dtor copy in
  ret this.

(** [resize()] *)
Definition resize_geometric (this : SJCVector) : M SJCVector :=
  resize (to_size_t (size_ this * 2 + 1)) this.

Definition has_room (this : SJCVector) : M bool :=
  let! n := ll_succ (last_ this) in
  ret (to_size_t n <? size_ this).

Definition must_grow (this : SJCVector) : M bool :=
  let! n := ll_succ (last_ this) in
  ret ((size_ this =? to_size_t n) || (size_ this =? 0)).

(** [push_back(int newValue)] *)
Definition push_back (newValue : Z) (this : SJCVector) : M SJCVector :=
  let! g := must_grow this in
  let! this := (if g then resize_geometric this else ret this) in
  let! r := has_room this in
  if r then
    let! n := ll_succ (last_ this) in
    let this := set_last_ n this in
    do! store (ptr_ this) (last_ this) (of_int newValue) in
    ret this
  else ret this.

Fixpoint add_loop (n : nat) (i : Z) (dst src : ptr) : M unit :=
  match n with
  | O => ret tt
  | S n' =>
      let! a := load dst i in
      let! b := load src i in
      do! store dst i (add a b) in
      let! i' := int_succ i in
      add_loop n' i' dst src
  end.

(** [operator+(const SJCVector& rhs)]: here the copy is taken of [rhs] and
    the elements of [*this] are added to it. *)
Definition operator_plus (this rhs : SJCVector) : M SJCVector :=
  if (size_ rhs =? 0) || (size_ this =? 0) || negb (last_ rhs =? last_ this)
  then ret SJCVector_default
  else
    let! retVec := SJCVector_copy rhs in
    let retVec := rename "retVec" retVec in
    do! add_loop (Z.to_nat (last_ this + 1)) 0 (ptr_ retVec) (ptr_ this) in
    ret retVec.

(** Only the occupied cells of a raw buffer need hold a value: [new T[n]]
    default-initialises. *)
Definition wf (h : heap T) (v : SJCVector) : Prop :=
  wfb max_alloc false h v = true.
End Class.
End Raw.

(** ** The demonstration program *)

Module Demo.
Import Managed.

(** The statements of [main], on [int] elements; a variable goes by the
    label its constructor is given.  The temporary of [p = n + o] is the
    variable ["sum"]. *)
Definition main_ops : list (op (T:=Z)) :=
  [ Construct "nigel" 1; PushBack "nigel" 3; PushBack "nigel" 56;
    Construct "kelly" 1; Resize "kelly" 5;
    PushBack "kelly" 1; PushBack "kelly" 2; PushBack "kelly" 3;
    PushBack "kelly" 4; PushBack "kelly" 5; PushBack "kelly" 6;
    CopyConstruct "mary" "nigel"; PushBack "mary" 9; PushBack "mary" 7;
    PushBack "nigel" 1; PushBack "nigel" 2;
    Plus "oscar" "nigel" "mary";
    Assign "mary" "oscar";
    Construct "pelle" 1; Plus "sum" "nigel" "oscar";
    MoveAssign "pelle" "sum" ].

(** Whether a computation returned. *)
Definition returned {A} (r : outcome A) : bool :=
  match r with
  | Ok _ => true
  | _ => false
  end.

(** The first three statements, on a variable [n], and the scope they end
    in. *)
Definition n_ops : list (op (T:=Z)) :=
  [ Construct "n" 1; PushBack "n" 3; PushBack "n" 56 ].
Definition n_v : SJCVector :=
  mkSJCVector (Some 2%positive) 3 (Some 0) 1 "n".
Definition n_objs : gmap string SJCVector := {[ "n" := n_v ]}.
Definition n_h : heap Z := {[ 2%positive := [Some 3; Some 56; Some 0] ]}.

(** [SJCVector n("nigel"); n.push_back(3); n.push_back(56);] with the
    state after each statement. *)
Definition nigel0 : outcome (SJCVector * heap Z) :=
  SJCVector_named 0 LLONG_MAX "nigel" 1 ∅.
Definition nigel1 : outcome (SJCVector * heap Z) :=
  match nigel0 with
  | Ok (n, h) => push_back 0 LLONG_MAX 3 n h
  | Throw => Throw
  | UB => UB
  end.
Definition nigel2 : outcome (SJCVector * heap Z) :=
  match nigel1 with
  | Ok (n, h) => push_back 0 LLONG_MAX 56 n h
  | Throw => Throw
  | UB => UB
  end.

(** A full container of three elements, and the same shrunk to two. *)
Definition three : outcome (SJCVector * heap Z) :=
  (let! v := SJCVector_sized 0 LLONG_MAX 1 in
   push_all 0 LLONG_MAX [1; 2; 3] v) ∅.
Definition three_resized : outcome (SJCVector * heap Z) :=
  match three with
  | Ok (v, h) => resize 0 LLONG_MAX 2 v h
  | Throw => Throw
  | UB => UB
  end.

(** The state [three] ends in, and an empty container of capacity 2 next
    to it. *)
Definition three_v : SJCVector := mkSJCVector (Some 2%positive) 3 (Some 0) 2 EmptyString.
Definition three_h : heap Z := {[ 2%positive := [Some 1; Some 2; Some 3] ]}.
Definition two_v : SJCVector := mkSJCVector (Some 5%positive) 2 (Some 0) (-1) EmptyString.
Definition two_h : heap Z :=
  <[ 5%positive := [Some 0; Some 0] ]> three_h.

(** The raw class: an empty container made by the named constructor, and
    its copy. *)
Definition raw_empty : outcome (SJCVector * heap Z) :=
  Raw.SJCVector_named LLONG_MAX "e" 0 ∅.
Definition raw_empty_copy : outcome (SJCVector * heap Z) :=
  match raw_empty with
  | Ok (v, h) => Raw.SJCVector_copy LLONG_MAX v h
  | Throw => Throw
  | UB => UB
  end.

(** The raw class: the container of three elements, in the same state. *)
Definition raw_three : outcome (SJCVector * heap Z) :=
  (let! v := Raw.SJCVector_sized 0 LLONG_MAX 1 in
   let! v := Raw.push_back id LLONG_MAX 1 v in
   let! v := Raw.push_back id LLONG_MAX 2 v in
   Raw.push_back id LLONG_MAX 3 v) ∅.

(** Two containers of one string each, ["ab"] and ["cd"]. *)
Definition ab_v : SJCVector := mkSJCVector (Some 1%positive) 1 (Some 0) 0 EmptyString.
Definition cd_v : SJCVector := mkSJCVector (Some 2%positive) 1 (Some 0) 0 EmptyString.
Definition strings_h : heap string :=
  <[ 2%positive := [Some "cd"] ]> {[ 1%positive := [Some "ab"] ]}.
End Demo.

(** ** Ownership of the arrays of a scope *)

(** The allocated arrays are exactly the buffers of the containers in scope:
    nothing is leaked and nothing is held after its release. *)
Definition owned_exactly {T} (objs : gmap string SJCVector) (h : heap T) : Prop :=
  ∀ l, is_Some (h !! l) ↔ ∃ x v, objs !! x = Some v ∧ ptr_ v = Some l.

(** What an operation on one container does to the set of allocated arrays:
    it gives up the buffer it had, unless it keeps it, and holds the one it
    ends with. *)
Definition reown {T} (h : heap T) (this : SJCVector) (h' : heap T)
    (this' : SJCVector) : Prop :=
  ∀ l, is_Some (h' !! l)
       ↔ (is_Some (h !! l) ∧ ptr_ this ≠ Some l) ∨ ptr_ this' = Some l.

(** The variables a statement refers to without declaring them, and the
    one it declares. *)
Definition uses {T} (o : Managed.op (T:=T)) : list string :=
  match o with
  | Managed.Construct _ _ => []
  | Managed.CopyConstruct _ y => [y]
  | Managed.MoveConstruct _ y => [y]
  | Managed.Assign x y => [x; y]
  | Managed.MoveAssign x y => [x; y]
  | Managed.PushBack x _ => [x]
  | Managed.Resize x _ => [x]
  | Managed.Swap x y => [x; y]
  | Managed.Plus _ y z => [y; z]
  end.

Definition declares {T} (o : Managed.op (T:=T)) : option string :=
  match o with
  | Managed.Construct x _ | Managed.CopyConstruct x _
  | Managed.MoveConstruct x _ | Managed.Plus x _ _ => Some x
  | _ => None
  end.

(** A program in which every statement refers to variables declared by the
    statements before it only, as a compiler checks. *)
Fixpoint scoped {T} (names : list string) (os : list (Managed.op (T:=T)))
    : bool :=
  match os with
  | [] => true
  | o :: os' =>
      forallb (λ x, bool_decide (x ∈ names)) (uses o)
      && scoped (match declares o with
                 | Some x => x :: names
                 | None => names
                 end) os'
  end.

(** ** Assignment on the raw class *)

Module RawAssign.
Section Class.
Context {T : Type}.
Variable max_alloc : Z.

(** [a = b] on the raw class: the parameter of [operator=(SJCVector copy)]
    is copy-constructed from [b]. *)
Definition copy_assign (this rhs : SJCVector) : M (T:=T) SJCVector :=
  let! copy := Raw.SJCVector_copy max_alloc rhs in
  Raw.operator_assign copy this.

(** The conversion from [int] of [push_back(int)]. *)
Variable of_int : Z → T.

(** The operations that change one container of the raw class in place; the
    argument of [resize] is converted to [size_t] at the call. *)
Inductive mutation : Type :=
| MPush (newValue : Z)
| MResize (newSize : Z).

Definition mutate (m : mutation) (this : SJCVector) : M (T:=T) SJCVector :=
  match m with
  | MPush newValue => Raw.push_back of_int max_alloc newValue this
  | MResize newSize => Raw.resize max_alloc (to_size_t newSize) this
  end.

Fixpoint mutate_all (ms : list mutation) (this : SJCVector)
    : M (T:=T) SJCVector :=
  match ms with
  | [] => ret this
  | m :: ms' => let! this := mutate m this in mutate_all ms' this
  end.
End Class.
End RawAssign.

(** ** Further sample states *)

Module Samples.
Import Managed.

(** A container filled to its capacity of 3 and then asked to shrink. *)
Definition shrink_ops : list (op (T:=Z)) :=
  [ Construct "v" 1; PushBack "v" 1; PushBack "v" 2; PushBack "v" 3;
    Resize "v" 2 ].


End Samples.

(** ** The display functions *)

Module Display.
Section Class.
Context {T : Type}.

(** What is written to [std::cout]: text, a number, an element, or
    [std::endl]. *)
Inductive token : Type :=
| Str (s : string)
| Num (z : Z)
| Item (x : T)
| Endl.

Local Abbreviation M := (@M T).

(** [printName()] *)
Definition printName (this : SJCVector) : list token :=
  if 0 <? Z.of_nat (String.length (name_ this))
  then [Str (name_ this); Str " "]
  else [Str "Unnamed SJCVector "].

(** [printNameLn()] *)
Definition printNameLn (this : SJCVector) : list token :=
  printName this ++ [Endl].

(** [printSize()] *)
Definition printSize (this : SJCVector) : M (list token) :=
  if size_ this =? 0 then ret [Str "Size:"; Num (size_ this); Str " empty "]
  else
    let! n := ll_succ (last_ this) in
    ret [Str "Size:"; Num (size_ this); Str " has "; Num n; Str " items: "].

(** The one-character string of a line feed. *)
Definition newline : string := String (Ascii.ascii_of_nat 10) EmptyString.

(** [printSizeLn()] *)
Definition printSizeLn (this : SJCVector) : M (list token) :=
  let! out := printSize this in
  ret (out ++ [Str newline]).

(** The loop [for (int i = 0; i <= last_; i++)] of [printItems], run for the
    [n] indices from [i] on. *)
Fixpoint print_loop (n : nat) (i : Z) (this : SJCVector) : M (list token) :=
  match n with
  | O => ret []
  | S n' =>
      let! x := load (ptr_ this) i in
      let sep := if negb (i =? last_ this) then [Str ", "] else [] in
      let! i' := int_succ i in
      let! rest := print_loop n' i' this in
      ret (Item x :: sep ++ rest)
  end.

(** [printItems()] *)
Definition printItems (this : SJCVector) : M (list token) :=
  if (last_ this <? 0) || (size_ this =? 0) then ret []
  else
    let! items := print_loop (Z.to_nat (last_ this + 1)) 0 this in
    let! n := ll_succ (last_ this) in
    let status :=
      if size_ this =? to_size_t n then [Str "(full) "]
      else [Str "("; Num (to_size_t (size_ this - to_size_t n));
            Str " slots left) "] in
    ret (items ++ [Str " "] ++ status).

(** [printItemsLn()] *)
Definition printItemsLn (this : SJCVector) : M (list token) :=
  let! out := printItems this in
  ret (out ++ [Endl]).

(** [print()] *)
Definition print (this : SJCVector) : M (list token) :=
  let! size := printSize this in
  let! items := printItemsLn this in
  ret (printName this ++ size ++ items).

(** The elements among the tokens written. *)
Definition items_of (out : list token) : list T :=
  omap (λ t, match t with Item x => Some x | _ => None end) out.

(** Elements written one after the other with [", "] between them. *)
Fixpoint separated (vs : list T) : list token :=
  match vs with
  | [] => []
  | [x] => [Item x]
  | x :: vs' => Item x :: Str ", " :: separated vs'
  end.
End Class.
Arguments token : clear implicits.
End Display.

(** * Properties *)

(** ** Integers, cells and the library operations *)

Section HeapFacts.
Context {T : Type}.
Variable dflt : T.
Variable max_alloc : Z.

Implicit Types (h : heap T) (v this rhs : SJCVector) (cs blk : list (option T)).

Lemma to_size_t_small z : 0 ≤ z < SIZE_MOD → to_size_t z = z.
Proof. intros. unfold to_size_t. by apply Z.mod_small. Qed.

Lemma to_ll_small z : 0 ≤ z ≤ LLONG_MAX → to_ll z = z.
Proof.
  intros Hz. unfold to_ll. rewrite Z.mod_small.
  - destruct (Z.leb_spec z LLONG_MAX); lia.
  - unfold LLONG_MAX, SIZE_MOD in *. lia.
Qed.

Lemma read_cells_fmap (vs : list T) : read_cells (Some <$> vs) = Some vs.
Proof. induction vs as [|x vs IH]; csimpl; [done | by rewrite IH]. Qed.

Lemma read_cells_inv cs (vs : list T) :
  read_cells cs = Some vs → cs = Some <$> vs.
Proof.
  revert vs. induction cs as [|[x|] cs IH]; intros vs; simpl.
  - by intros [= <-].
  - destruct (read_cells cs) as [ws|]; [|done].
    intros [= <-]. csimpl. by rewrite (IH ws).
  - done.
Qed.

Lemma all_init_values cs :
  forallb is_init cs = true ↔ ∃ vs : list T, cs = Some <$> vs.
Proof.
  split.
  - induction cs as [|[x|] cs IH]; simpl; intros Hc.
    + by exists [].
    + destruct (IH Hc) as [vs ->]. by exists (x :: vs).
    + done.
  - intros [vs ->]. induction vs; simpl; auto.
Qed.

Lemma all_init_app cs1 cs2 :
  forallb is_init (cs1 ++ cs2) = forallb is_init cs1 && forallb is_init cs2.
Proof. apply forallb_app. Qed.

Lemma all_init_replicate n (x : T) :
  forallb is_init (replicate n (Some x)) = true.
Proof. induction n; simpl; auto. Qed.

Lemma all_init_take n cs :
  forallb is_init cs = true → forallb is_init (take n cs) = true.
Proof.
  revert n. induction cs as [|c cs IH]; intros [|n]; simpl; auto.
  intros [-> Hc]%andb_true_iff. simpl. auto.
Qed.

Lemma all_init_drop n cs :
  forallb is_init cs = true → forallb is_init (drop n cs) = true.
Proof.
  revert n. induction cs as [|c cs IH]; intros [|n]; simpl; auto.
  intros [_ Hc]%andb_true_iff. auto.
Qed.

Lemma all_init_insert cs i (x : T) :
  forallb is_init cs = true → forallb is_init (<[i := Some x]> cs) = true.
Proof.
  revert i. induction cs as [|c cs IH]; intros [|i]; simpl; auto.
  - intros [_ Hc]%andb_true_iff. done.
  - intros [-> Hc]%andb_true_iff. simpl. auto.
Qed.

(** Running the library operations. *)

Lemma alloc_array_ok h n init :
  0 ≤ n ≤ max_alloc →
  alloc_array max_alloc n init h
  = Ok (Some (fresh (dom h)), <[fresh (dom h) := replicate (Z.to_nat n) init]> h).
Proof.
  intros Hn. unfold alloc_array.
  destruct (Z.ltb_spec n 0); [lia|].
  destruct (Z.ltb_spec max_alloc n); [lia|]. done.
Qed.

Lemma alloc_array_throw h n init :
  max_alloc < n → alloc_array max_alloc n init h = Throw.
Proof.
  intros Hn. unfold alloc_array.
  destruct (Z.ltb_spec max_alloc n); [|lia]. by rewrite orb_true_r.
Qed.

Lemma fresh_unallocated h : h !! fresh (dom h) = None.
Proof. apply not_elem_of_dom, is_fresh. Qed.

Lemma std_copy_ok h ls ld bs bd n :
  h !! ls = Some bs → h !! ld = Some bd → ls ≠ ld →
  0 < n → n ≤ Z.of_nat (length bs) → n ≤ Z.of_nat (length bd) →
  forallb is_init (take (Z.to_nat n) bs) = true →
  std_copy (Some ls) n (Some ld) h
  = Ok (tt, <[ld := take (Z.to_nat n) bs ++ drop (Z.to_nat n) bd]> h).
Proof.
  intros Hs Hd Hne Hn Hbs Hbd Hinit. unfold std_copy.
  destruct (Z.eqb_spec n 0); [lia|].
  destruct (Z.ltb_spec n 0); [lia|].
  rewrite Hs, Hd, Hinit.
  destruct (Z.leb_spec n (Z.of_nat (length bs))); [|lia].
  destruct (Z.leb_spec n (Z.of_nat (length bd))); [|lia].
  by rewrite bool_decide_eq_false_2.
Qed.

Lemma std_copy_overflow h ls ld bs bd n :
  h !! ls = Some bs → h !! ld = Some bd →
  0 < n → Z.of_nat (length bd) < n →
  std_copy (Some ls) n (Some ld) h = UB.
Proof.
  intros Hs Hd Hn Hbd. unfold std_copy.
  destruct (Z.eqb_spec n 0); [lia|].
  destruct (Z.ltb_spec n 0); [lia|].
  rewrite Hs, Hd.
  destruct (Z.leb_spec n (Z.of_nat (length bd))); [lia|].
  by rewrite andb_false_r.
Qed.

Lemma ll_succ_ok h x : x < LLONG_MAX → ll_succ x h = Ok (x + 1, h).
Proof.
  intros Hx. unfold ll_succ. destruct (Z.eqb_spec x LLONG_MAX); [lia|done].
Qed.

Lemma store_ok h l blk i (x : T) :
  h !! l = Some blk → 0 ≤ i < Z.of_nat (length blk) →
  store (Some l) i x h = Ok (tt, <[l := <[Z.to_nat i := Some x]> blk]> h).
Proof.
  intros Hl Hi. unfold store. rewrite Hl.
  destruct (Z.leb_spec 0 i); [|lia].
  destruct (Z.ltb_spec i (Z.of_nat (length blk))); [|lia]. done.
Qed.

Lemma load_ok h l blk i (x : T) :
  h !! l = Some blk → 0 ≤ i → blk !! Z.to_nat i = Some (Some x) →
  load (Some l) i h = Ok (x, h).
Proof.
  intros Hl Hi Hx. unfold load, load_cell. rewrite Hl.
  destruct (Z.ltb_spec i 0); [lia|]. by rewrite Hx.
Qed.
Lemma contents_heap_irrel h h' v :
  (∀ l, ptr_ v = Some l → h' !! l = h !! l) → contents h' v = contents h v.
Proof.
  intros Hh. unfold contents, cells.
  destruct (ptr_ v) as [l|]; [|done]. by rewrite (Hh l).
Qed.

Lemma contents_intro h v l blk (vs : list T) :
  ptr_ v = Some l → h !! l = Some blk →
  Z.of_nat (length vs) = count v →
  take (length vs) blk = Some <$> vs →
  contents h v = Some vs.
Proof.
  intros Hp Hl Hc Ht. unfold contents, cells. rewrite Hp, Hl. simpl.
  assert (length vs ≤ length blk)%nat.
  { rewrite <- (length_fmap Some vs), <- Ht, length_take. lia. }
  destruct (Z.leb_spec 0 (count v)); [|lia].
  destruct (Z.leb_spec (count v) (Z.of_nat (length blk))); [|lia]. simpl.
  rewrite <- Hc, Nat2Z.id, Ht. apply read_cells_fmap.
Qed.

Lemma contents_inv h v (vs : list T) :
  contents h v = Some vs →
  Z.of_nat (length vs) = count v
  ∧ take (length vs) (cells h (ptr_ v)) = Some <$> vs.
Proof.
  unfold contents.
  destruct (Z.leb_spec 0 (count v)); [|done].
  destruct (Z.leb_spec (count v) (Z.of_nat (length (cells h (ptr_ v)))));
    [|done]. simpl.
  intros Hr%read_cells_inv.
  assert (Z.of_nat (length vs) = count v) as Hlen.
  { rewrite <- (length_fmap Some vs), <- Hr, length_take. lia. }
  split; [done|]. by rewrite <- Hr, <- Hlen, Nat2Z.id.
Qed.

Lemma contents_cells h v (vs : list T) :
  contents h v = Some vs →
  Z.of_nat (length vs) = count v
  ∧ take (Z.to_nat (count v)) (cells h (ptr_ v)) = Some <$> vs.
Proof.
  intros Hc. destruct (contents_inv _ _ _ Hc) as [Hlen Ht].
  split; [done|]. by rewrite <- Hlen, Nat2Z.id.
Qed.

Lemma take_push blk n (vs : list T) x :
  take n blk = Some <$> vs → (n < length blk)%nat →
  take (S n) (<[n := Some x]> blk) = Some <$> (vs ++ [x]).
Proof.
  intros Ht Hn.
  rewrite (take_S_r _ _ (Some x)) by (by apply list_lookup_insert_eq).
  rewrite take_insert_ge by lia. by rewrite Ht, fmap_app.
Qed.

Lemma int_succ_ok h i : i < INT_MAX → int_succ i h = Ok (i + 1, h).
Proof.
  intros Hi. unfold int_succ. destruct (Z.eqb_spec i INT_MAX); [lia|done].
Qed.

Lemma all_init_lookup cs (k : nat) :
  forallb is_init cs = true → (k < length cs)%nat →
  ∃ x : T, cs !! k = Some (Some x).
Proof.
  intros [vs ->]%all_init_values Hk. rewrite length_fmap in Hk.
  destruct (lookup_lt_is_Some_2 vs k Hk) as [x Hx].
  exists x. by rewrite list_lookup_fmap, Hx.
Qed.

Lemma load_Ok p i h (x : T) h' : load p i h = Ok (x, h') → h' = h.
Proof.
  unfold load. destruct p as [l|]; [|done].
  destruct (h !! l) as [blk|]; [|done].
  destruct (load_cell blk i); [|done]. by intros [= _ <-].
Qed.

Lemma store_Ok l i (x : T) h h' blk :
  h !! l = Some blk → store (Some l) i x h = Ok (tt, h') →
  h' = <[l := <[Z.to_nat i := Some x]> blk]> h.
Proof.
  unfold store. intros ->. destruct (_ && _); [|done]. by intros [= <-].
Qed.

Lemma separate_sym (a b : SJCVector) : separate a b → separate b a.
Proof. intros Hab l Hb Ha. by apply (Hab l). Qed.

Lemma separate_fields (a a' b : SJCVector) :
  ptr_ a' = ptr_ a → separate b a → separate b a'.
Proof. intros Hp Hs l Hl. rewrite Hp. by apply Hs. Qed.

Lemma separate_null (a b : SJCVector) : ptr_ b = None → separate a b.
Proof. intros Hb l _. by rewrite Hb. Qed.

Lemma to_size_t_nonneg z : 0 ≤ to_size_t z.
Proof. unfold to_size_t, SIZE_MOD. apply Z.mod_pos_bound. lia. Qed.
End HeapFacts.

(** ** The class over [std::unique_ptr<T[]>] *)

#[global] Arguments store : simpl never.
#[global] Arguments load : simpl never.
#[global] Arguments std_copy : simpl never.

Module ManagedFacts.
Import Managed.
Section Facts.
Context {T : Type}.
Variable dflt : T.
Variable add : T → T → T.
Variable max_alloc : Z.
(** No array is longer than [PTRDIFF_MAX] allows. *)
Hypothesis max_alloc_range : 0 ≤ max_alloc ≤ LLONG_MAX.

Implicit Types (h : heap T) (v this rhs : SJCVector) (cs blk : list (option T)).

Local Abbreviation wf := (Managed.wf (T:=T) max_alloc).
Local Abbreviation resize := (Managed.resize dflt max_alloc).
Local Abbreviation push_back := (Managed.push_back dflt max_alloc).
Local Abbreviation SJCVector_copy := (Managed.SJCVector_copy dflt max_alloc).

Lemma wf_inv h v :
  wf h v →
  -1 ≤ last_ v ∧ last_ v + 1 ≤ size_ v ∧ size_ v ≤ max_alloc
  ∧ ((ptr_ v = None ∧ size_ v = 0)
     ∨ ∃ l blk, ptr_ v = Some l ∧ h !! l = Some blk
                ∧ Z.of_nat (length blk) = size_ v
                ∧ forallb is_init blk = true).
Proof.
  unfold Managed.wf, wfb. rewrite !andb_true_iff.
  intros [[[H1 H2] H3] H4].
  apply Z.leb_le in H1, H2, H3. repeat split; try done.
  destruct (ptr_ v) as [l|].
  - right. destruct (h !! l) as [blk|] eqn:Hl; [|done].
    apply andb_true_iff in H4 as [H4 H5]. apply Z.eqb_eq in H4.
    exists l, blk. auto.
  - left. apply Z.eqb_eq in H4. auto.
Qed.

Lemma wf_intro h v l blk :
  -1 ≤ last_ v → last_ v + 1 ≤ size_ v → size_ v ≤ max_alloc →
  ptr_ v = Some l → h !! l = Some blk →
  Z.of_nat (length blk) = size_ v → forallb is_init blk = true →
  wf h v.
Proof.
  intros H1 H2 H3 Hp Hl Hlen Hinit. unfold Managed.wf, wfb.
  rewrite Hp, Hl, Hinit.
  rewrite !andb_true_iff, !Z.leb_le, Z.eqb_eq. done.
Qed.

Lemma wf_intro_null h v :
  last_ v = -1 → size_ v = 0 → ptr_ v = None → wf h v.
Proof.
  intros H1 H2 Hp. unfold Managed.wf, wfb. rewrite Hp, H1, H2.
  rewrite !andb_true_iff, !Z.leb_le, Z.eqb_eq. lia.
Qed.

(** The invariant of the spec follows from [wf]. *)
Lemma wf_cursor h v : wf h v → 0 ≤ last_ v + 1 ≤ size_ v.
Proof. intros (? & ? & ? & _)%wf_inv. lia. Qed.

Lemma wf_nonempty h v :
  wf h v → 0 < size_ v →
  ∃ l blk, ptr_ v = Some l ∧ h !! l = Some blk
           ∧ Z.of_nat (length blk) = size_ v ∧ forallb is_init blk = true.
Proof. intros (_ & _ & _ & [[_ ?]|?])%wf_inv ?; [lia | done]. Qed.

(** [wf] and [contents] look at the heap through the buffer only. *)
Lemma wf_heap_irrel h h' v :
  (∀ l, ptr_ v = Some l → h' !! l = h !! l) → wf h v → wf h' v.
Proof.
  intros Hh. unfold Managed.wf, wfb.
  destruct (ptr_ v) as [l|]; [|done]. by rewrite (Hh l).
Qed.

(** A well-formed container has its occupied elements. *)
Lemma wf_contents h v : wf h v → ∃ vs : list T, contents h v = Some vs.
Proof.
  intros Hwf. destruct (wf_inv _ _ Hwf) as (H1 & H2 & H3 & [[Hp Hs]|Hb]).
  - exists []. unfold contents, cells. rewrite Hp. simpl.
    assert (count v = 0) as -> by (unfold count; lia). done.
  - destruct Hb as (l & blk & Hp & Hl & Hlen & Hinit).
    pose proof (all_init_take (Z.to_nat (count v)) _ Hinit) as Ht.
    apply all_init_values in Ht as [vs Hvs]. exists vs.
    assert (length vs = Z.to_nat (count v)) as Hn.
    { rewrite <- (length_fmap Some vs), <- Hvs, length_take.
      unfold count. lia. }
    eapply contents_intro; eauto.
    + unfold count in *. lia.
    + by rewrite Hn.
Qed.

(** *** [resize] *)

(** A request that cannot be served throws before anything changes. *)
Lemma resize_throw h this n :
  max_alloc < (if n =? 0 then 1 else n) → resize n this h = Throw.
Proof.
  intros Hn. unfold Managed.resize, bind, make_unique.
  by rewrite alloc_array_throw.
Qed.

(** Growing, or resizing an empty container: a new array of the requested
    length that starts with the old cells. *)
Lemma resize_grow h this n :
  wf h this → 0 ≤ n →
  (if n =? 0 then 1 else n) ≤ max_alloc →
  last_ this = -1 ∨ size_ this ≤ (if n =? 0 then 1 else n) →
  ∃ l' blk',
    h !! l' = None
    ∧ resize n this h
      = Ok (mkSJCVector (Some l') (if n =? 0 then 1 else n) (first_ this)
              (last_ this) (name_ this),
            release (ptr_ this) (<[l' := blk']> h))
    ∧ Z.of_nat (length blk') = (if n =? 0 then 1 else n)
    ∧ forallb is_init blk' = true
    ∧ take (Z.to_nat (count this)) blk'
      = take (Z.to_nat (count this)) (cells h (ptr_ this)).
Proof.
  intros Hwf Hn0 Hmax Hcase.
  destruct (wf_inv _ _ Hwf) as (H1 & H2 & H3 & Hbuf).
  set (n' := if n =? 0 then 1 else n) in *.
  assert (0 < n') as Hn' by (subst n'; destruct (Z.eqb_spec n 0); lia).
  set (l' := fresh (dom h)).
  assert (h !! l' = None) as Hfresh by apply fresh_unallocated.
  exists l'. unfold Managed.resize, bind, make_unique. fold n'.
  rewrite alloc_array_ok by lia. fold l'. simpl.
  destruct (Z.leb_spec 0 (last_ this)) as [Hl|Hl].
  - (* there is data to copy *)
    destruct Hbuf as [[_ ?]|(l & blk & Hp & Hb & Hlen & Hinit)]; [lia|].
    assert (size_ this ≤ n') as Hle by lia.
    rewrite to_size_t_small by (unfold SIZE_MOD, LLONG_MAX in *; lia).
    destruct (Z.leb_spec n' (last_ this)); [lia|].
    destruct (Z.ltb_spec 0 n'); [|lia]. simpl.
    rewrite to_ll_small by lia. rewrite Hp.
    assert (l ≠ l') as Hne by (intros ->; congruence).
    rewrite (std_copy_ok _ l l' blk (replicate (Z.to_nat n') (Some dflt))).
    + simpl. unfold delete_array. rewrite Hp.
      rewrite insert_insert_eq, lookup_insert_ne, Hb by done. simpl.
      eexists. split; [done|]. split; [done|].
      rewrite <- Hlen, Nat2Z.id, firstn_all.
      rewrite length_app, length_drop, length_replicate.
      split; [lia|]. split.
      * rewrite all_init_app, Hinit. simpl.
        apply all_init_drop, all_init_replicate.
      * rewrite take_app_le; [done|]. unfold count. lia.
    + by rewrite lookup_insert_ne.
    + by rewrite lookup_insert_eq.
    + done.
    + lia.
    + lia.
    + rewrite length_replicate. lia.
    + rewrite <- Hlen, Nat2Z.id, firstn_all. done.
  - (* nothing to copy *)
    simpl. exists (replicate (Z.to_nat n') (Some dflt)).
    split; [done|]. split.
    + unfold delete_array, release.
      destruct Hbuf as [[-> _]|(l & blk & -> & Hb & _)]; [done|].
      assert (l ≠ l') as Hne by (intros ->; congruence).
      by rewrite lookup_insert_ne, Hb.
    + rewrite length_replicate. split; [lia|].
      split; [apply all_init_replicate|].
      assert (count this = 0) as -> by (unfold count; lia). done.
Qed.

(** Shrinking a container that holds data: the copy of [size_] elements
    runs past the end of the new, shorter array. *)
Lemma resize_shrink_undefined h this n :
  wf h this → 0 ≤ last_ this →
  0 ≤ n → (if n =? 0 then 1 else n) < size_ this →
  resize n this h = UB.
Proof.
  intros Hwf Hl Hn0 Hlt.
  destruct (wf_inv _ _ Hwf) as (H1 & H2 & H3 & Hbuf).
  set (n' := if n =? 0 then 1 else n) in *.
  assert (0 < n') as Hn' by (subst n'; destruct (Z.eqb_spec n 0); lia).
  destruct Hbuf as [[_ ?]|(l & blk & Hp & Hb & Hlen & Hinit)]; [lia|].
  set (l' := fresh (dom h)).
  assert (h !! l' = None) as Hfresh by apply fresh_unallocated.
  assert (l ≠ l') as Hne by (intros ->; congruence).
  unfold Managed.resize, bind, make_unique. fold n'.
  rewrite alloc_array_ok by lia. fold l'. simpl.
  destruct (Z.leb_spec 0 (last_ this)); [|lia].
  destruct (Z.ltb_spec 0 n'); [|lia].
  assert (ptr_ (if n' <=? to_size_t (last_ this)
                then set_last_ (to_ll (to_size_t (n' - 1))) this else this)
          = Some l) as -> by (by destruct (_ <=? _)).
  assert (size_ (if n' <=? to_size_t (last_ this)
                 then set_last_ (to_ll (to_size_t (n' - 1))) this else this)
          = size_ this) as -> by (by destruct (_ <=? _)).
  rewrite to_ll_small by lia.
  erewrite std_copy_overflow; [done| | | |].
  - by rewrite lookup_insert_ne.
  - by rewrite lookup_insert_eq.
  - lia.
  - rewrite length_replicate. lia.
Qed.

(** *** Two shapes of a state after an operation *)

(** The container has given up its array for one not allocated before. *)
Lemma wf_moved h this l' blk' n' last' fst' nm' :
  wf h this → h !! l' = None →
  Z.of_nat (length blk') = n' → forallb is_init blk' = true →
  n' ≤ max_alloc → -1 ≤ last' → last' + 1 ≤ n' →
  let this' := mkSJCVector (Some l') n' fst' last' nm' in
  let h' := release (ptr_ this) (<[l' := blk']> h) in
  h' !! l' = Some blk' ∧ wf h' this' ∧ frame h this h' this'.
Proof.
  intros Hwf Hfresh Hlen Hinit Hmax Hl1 Hl2 this' h'.
  assert (h' !! l' = Some blk') as Hl'.
  { subst h'. unfold release.
    destruct (wf_inv _ _ Hwf) as (_ & _ & _ & [[-> _]|(l & blk & -> & Hb & _)]).
    - by rewrite lookup_insert_eq.
    - assert (l ≠ l') by (intros ->; congruence).
      by rewrite lookup_delete_ne, lookup_insert_eq. }
  split; [done|]. split.
  - eapply wf_intro; eauto.
  - split.
    + intros l Hne [blk Hb]. subst h'. unfold release.
      assert (l ≠ l') by (intros ->; congruence).
      destruct (ptr_ this) as [l0|].
      * assert (l0 ≠ l) by congruence.
        by rewrite lookup_delete_ne, lookup_insert_ne.
      * by rewrite lookup_insert_ne.
    + intros l [= <-]. by right.
Qed.

(** The container has written into its own array. *)
Lemma wf_updated h this l blk blk' last' :
  wf h this → ptr_ this = Some l → h !! l = Some blk →
  length blk' = length blk → forallb is_init blk' = true →
  -1 ≤ last' → last' + 1 ≤ size_ this →
  let this' := set_last_ last' this in
  let h' := <[l := blk']> h in
  wf h' this' ∧ frame h this h' this'.
Proof.
  intros Hwf Hp Hb Hlen Hinit Hl1 Hl2 this' h'.
  destruct (wf_inv _ _ Hwf) as (_ & _ & ? & [[? _]|(l0 & blk0 & ? & ? & ? & _)]);
    [congruence|]. simplify_eq.
  split.
  - eapply (wf_intro _ _ l blk'); eauto.
    + subst h'. by rewrite lookup_insert_eq.
    + simpl. lia.
  - split.
    + intros l1 Hne _. subst h'. rewrite lookup_insert_ne; [done|]. congruence.
    + intros l1 Hl1'. left. simpl in Hl1'. congruence.
Qed.

(** A frame keeps the other, separate containers as they are. *)
Lemma frame_other h this h' this' v :
  frame h this h' this' → wf h v → separate v this →
  wf h' v ∧ contents h' v = contents h v ∧ separate v this'.
Proof.
  intros [Hkeep Hnew] Hwf Hsep.
  assert (∀ l, ptr_ v = Some l → h' !! l = h !! l) as Hsame.
  { intros l Hp. apply Hkeep; [by apply Hsep|].
    destruct (wf_inv _ _ Hwf) as (_ & _ & _ & [[? _]|(l0 & blk & ? & ? & _)]);
      [congruence|]. simplify_eq. eauto. }
  split; [by eapply wf_heap_irrel|].
  split; [by apply contents_heap_irrel|].
  intros l Hp Hp'. destruct (Hnew l Hp') as [?|Hnone].
  - by apply (Hsep l).
  - destruct (wf_inv _ _ Hwf) as (_ & _ & _ & [[? _]|(l0 & blk & ? & ? & _)]);
      congruence.
Qed.

(** *** [push_back] *)

Lemma must_grow_full h this :
  wf h this →
  must_grow this h = Ok (bool_decide (size_ this = count this), h).
Proof.
  intros (H1 & H2 & H3 & _)%wf_inv. unfold must_grow, bind.
  rewrite ll_succ_ok by lia. unfold ret. do 2 f_equal.
  rewrite to_size_t_small by (unfold SIZE_MOD, LLONG_MAX in *; lia).
  unfold count. case_bool_decide as Hd.
  - rewrite Hd, Z.eqb_refl. done.
  - destruct (Z.eqb_spec (size_ this) (last_ this + 1)); [done|].
    destruct (Z.eqb_spec (size_ this) 0); [lia|done].
Qed.

Lemma has_room_free h this :
  wf h this →
  has_room this h = Ok (bool_decide (count this < size_ this), h).
Proof.
  intros (H1 & H2 & H3 & _)%wf_inv. unfold has_room, bind.
  rewrite ll_succ_ok by lia. unfold ret. do 2 f_equal.
  rewrite to_size_t_small by (unfold SIZE_MOD, LLONG_MAX in *; lia).
  unfold count. case_bool_decide; destruct (Z.ltb_spec (last_ this + 1) (size_ this)); lia || done.
Qed.

(** A full container that cannot get its larger array: the exception
    leaves before anything is stored. *)
Lemma push_back_throw h this x :
  wf h this → size_ this = count this → max_alloc < 2 * size_ this + 1 →
  push_back x this h = Throw.
Proof.
  intros Hwf Hfull Hmax. destruct (wf_inv _ _ Hwf) as (H1 & H2 & H3 & _).
  unfold Managed.push_back, bind. rewrite must_grow_full by done.
  rewrite bool_decide_eq_true_2 by done. unfold resize_geometric.
  rewrite to_size_t_small by (unfold SIZE_MOD, LLONG_MAX in *; lia).
  rewrite resize_throw; [done|].
  destruct (Z.eqb_spec (size_ this * 2 + 1) 0); lia.
Qed.

(** Every other [push_back] stores the value behind the occupied elements,
    after growing to [2 * size_ + 1] when the container was full. *)
Lemma push_back_spec h this x (vs : list T) :
  wf h this → contents h this = Some vs →
  count this < size_ this ∨ 2 * size_ this + 1 ≤ max_alloc →
  ∃ this' h',
    push_back x this h = Ok (this', h')
    ∧ wf h' this' ∧ frame h this h' this'
    ∧ contents h' this' = Some (vs ++ [x])
    ∧ last_ this' = last_ this + 1
    ∧ size_ this' = (if bool_decide (size_ this = count this)
                     then 2 * size_ this + 1 else size_ this).
Proof.
  intros Hwf Hvs Hcase. destruct (wf_inv _ _ Hwf) as (H1 & H2 & H3 & Hbuf).
  destruct (contents_inv _ _ _ Hvs) as [Hlen Htake].
  unfold Managed.push_back, bind. rewrite must_grow_full by done.
  case_bool_decide as Hfull.
  - (* full: grow, then store *)
    destruct Hcase as [?|Hmax]; [lia|].
    unfold resize_geometric.
    rewrite to_size_t_small by (unfold SIZE_MOD, LLONG_MAX in *; lia).
    destruct (resize_grow h this (size_ this * 2 + 1))
      as (l' & blk' & Hfresh & -> & Hlen' & Hinit' & Htake');
      [done|lia| | |].
    { destruct (Z.eqb_spec (size_ this * 2 + 1) 0); lia. }
    { destruct (Z.eqb_spec (size_ this * 2 + 1) 0); lia. }
    destruct (Z.eqb_spec (size_ this * 2 + 1) 0) as [?|_]; [lia|].
    set (this1 := mkSJCVector (Some l') (size_ this * 2 + 1) (first_ this)
                    (last_ this) (name_ this)).
    destruct (wf_moved h this l' blk' (size_ this * 2 + 1) (last_ this)
                (first_ this) (name_ this)) as (Hl' & Hwf1 & _);
      [done|done|done|done|lia|lia|lia|]. fold this1 in Hwf1.
    rewrite has_room_free by done.
    rewrite bool_decide_eq_true_2 by (unfold count; simpl; lia).
    rewrite ll_succ_ok by (simpl; lia). simpl.
    rewrite (store_ok _ l' blk') by (done || lia). simpl.
    eexists _, _. split; [done|].
    assert (<[l':=<[Z.to_nat (last_ this + 1):=Some x]> blk']>
              (release (ptr_ this) (<[l':=blk']> h))
            = release (ptr_ this)
                (<[l':=<[Z.to_nat (last_ this + 1):=Some x]> blk']> h)) as ->.
    { unfold release. destruct (ptr_ this) as [l|] eqn:Hp.
      - destruct Hbuf as [[? _]|(l0 & blk & ? & Hb & _)]; [congruence|].
        simplify_eq. assert (l0 ≠ l') by (intros ->; congruence).
        rewrite <- delete_insert_ne by done. by rewrite insert_insert_eq.
      - by rewrite insert_insert_eq. }
    destruct (wf_moved h this l'
                (<[Z.to_nat (last_ this + 1):=Some x]> blk')
                (size_ this * 2 + 1) (last_ this + 1)
                (first_ this) (name_ this)) as (Hl2 & Hwf2 & Hfr2);
      [done|done| | |lia|lia|lia|].
    { by rewrite length_insert. }
    { by apply all_init_insert. }
    split; [done|]. split; [done|]. split; [|simpl; lia].
    eapply contents_intro; [done|exact Hl2| |].
    + rewrite length_app. simpl. unfold count in *. simpl. lia.
    + rewrite length_app. simpl.
      assert (Z.to_nat (last_ this + 1) = length vs) as Hn
        by (unfold count in *; lia).
      rewrite Hn, Nat.add_1_r. apply take_push; [|lia].
      rewrite <- Hn. fold (count this).
      rewrite Htake', <- Hlen, Nat2Z.id. exact Htake.
  - (* room left: store in place *)
    assert (count this < size_ this) as Hroom by (unfold count in *; lia).
    change (ret this h) with (Ok (this, h)). cbv beta iota.
    rewrite has_room_free by done.
    rewrite bool_decide_eq_true_2 by done.
    rewrite ll_succ_ok by lia. simpl.
    destruct Hbuf as [[_ ?]|(l & blk & Hp & Hb & Hlenb & Hinit)];
      [unfold count in *; lia|].
    rewrite Hp. rewrite (store_ok _ l blk) by (done || unfold count in *; lia).
    simpl. eexists _, _. split; [done|].
    destruct (wf_updated h this l blk
                (<[Z.to_nat (last_ this + 1):=Some x]> blk) (last_ this + 1))
      as [Hwf' Hfr']; [done|done|done| | |lia|unfold count in *; lia|].
    { by rewrite length_insert. }
    { by apply all_init_insert. }
    split; [done|]. split; [done|]. split; [|done].
    eapply contents_intro; [by simpl|by rewrite lookup_insert_eq| |].
    + rewrite length_app. simpl. unfold count in *. simpl. lia.
    + rewrite length_app. simpl.
      assert (Z.to_nat (last_ this + 1) = length vs) as Hn
        by (unfold count in *; lia).
      rewrite Hn, Nat.add_1_r. apply take_push; [|lia].
      unfold cells in Htake. by rewrite Hp, Hb in Htake.
Qed.

(** *** Construction, copy, move, assignment *)

Lemma separate_blank v nm : separate v (blank nm).
Proof. intros l _. done. Qed.

Lemma initSJCVector_throw h c nm :
  max_alloc < c → initSJCVector dflt max_alloc c (blank nm) h = Throw.
Proof.
  intros Hc. unfold initSJCVector, bind, make_unique. simpl.
  by rewrite alloc_array_throw.
Qed.

Lemma initSJCVector_spec h c nm :
  0 ≤ c ≤ max_alloc →
  let l' := fresh (dom h) in
  let this' := mkSJCVector (Some l') c (Some 0) emptyVec nm in
  let h' := <[l' := replicate (Z.to_nat c) (Some dflt)]> h in
  initSJCVector dflt max_alloc c (blank nm) h = Ok (this', h')
  ∧ wf h' this' ∧ frame h (blank nm) h' this' ∧ contents h' this' = Some [].
Proof.
  intros Hc l' this' h'.
  assert (h !! l' = None) as Hfresh by apply fresh_unallocated.
  split.
  { unfold initSJCVector, bind, make_unique. simpl.
    by rewrite alloc_array_ok. }
  split.
  { eapply wf_intro; try done.
    - simpl. unfold emptyVec. lia.
    - simpl. lia.
    - subst h'. by rewrite lookup_insert_eq.
    - rewrite length_replicate. simpl. lia.
    - apply all_init_replicate. }
  split.
  { split.
    - intros l _ [blk Hb]. subst h'.
      assert (l' ≠ l) by (intros ->; congruence).
      by rewrite lookup_insert_ne.
    - intros l [= <-]. by right. }
  eapply (contents_intro _ _ l' _ []); [done| |done|done].
  subst h'. by rewrite lookup_insert_eq.
Qed.

(** The copy constructor: an array of the source's capacity, not allocated
    before, holding the cells of the source. *)
Lemma SJCVector_copy_spec h rhs :
  wf h rhs →
  let l' := fresh (dom h) in
  let this' := mkSJCVector (Some l') (size_ rhs) (Some 0) (last_ rhs) "copy" in
  let h' := <[l' := cells h (ptr_ rhs)]> h in
  SJCVector_copy rhs h = Ok (this', h')
  ∧ wf h' this' ∧ frame h (blank EmptyString) h' this'
  ∧ contents h' this' = contents h rhs.
Proof.
  intros Hwf l' this' h'.
  destruct (wf_inv _ _ Hwf) as (H1 & H2 & H3 & Hbuf).
  assert (h !! l' = None) as Hfresh by apply fresh_unallocated.
  assert (Z.of_nat (length (cells h (ptr_ rhs))) = size_ rhs
          ∧ forallb is_init (cells h (ptr_ rhs)) = true) as [Hlen Hinit].
  { unfold cells.
    destruct Hbuf as [[-> ->]|(l & blk & -> & -> & ? & ?)]; by simpl. }
  assert (h' !! l' = Some (cells h (ptr_ rhs))) as Hl'
    by (subst h'; by rewrite lookup_insert_eq).
  split.
  { unfold Managed.SJCVector_copy, bind.
    destruct (initSJCVector_spec h (size_ rhs) EmptyString) as (-> & _); [lia|].
    simpl. rewrite to_ll_small by lia.
    destruct (Z.eq_dec (size_ rhs) 0) as [Hz|Hnz].
    - unfold std_copy. destruct (Z.eqb_spec (size_ rhs) 0); [|lia].
      assert (replicate (Z.to_nat (size_ rhs)) (Some dflt)
              = cells h (ptr_ rhs)) as ->; [|done].
      rewrite Hz in *. by destruct (cells h (ptr_ rhs)).
    - destruct Hbuf as [[_ ?]|(l & blk & Hp & Hb & Hlenb & Hinitb)]; [lia|].
      rewrite Hp.
      assert (l ≠ fresh (dom h)) by (intros ->; unfold l' in *; congruence).
      rewrite (std_copy_ok _ l (fresh (dom h)) blk
                 (replicate (Z.to_nat (size_ rhs)) (Some dflt))).
      + simpl. unfold ret. do 2 f_equal. subst h' l'.
        rewrite insert_insert_eq. f_equal.
        unfold cells. rewrite Hp, Hb. simpl.
        rewrite <- Hlenb, Nat2Z.id, firstn_all.
        rewrite drop_ge by (rewrite length_replicate; lia).
        by rewrite app_nil_r.
      + by rewrite lookup_insert_ne.
      + by rewrite lookup_insert_eq.
      + done.
      + lia.
      + lia.
      + rewrite length_replicate. lia.
      + rewrite <- Hlenb, Nat2Z.id, firstn_all. done. }
  split.
  { eapply wf_intro; eauto. }
  split.
  { split.
    - intros l _ [blk Hb]. subst h'.
      assert (l' ≠ l) by (intros ->; congruence).
      by rewrite lookup_insert_ne.
    - intros l [= <-]. by right. }
  assert (cells h' (ptr_ this') = cells h (ptr_ rhs)) as Hc.
  { unfold cells at 1. simpl. by rewrite Hl'. }
  unfold contents. by rewrite Hc.
Qed.

(** A moved container keeps the buffer and the cursor; the source is left
    with no buffer, capacity 0 and nothing occupied. *)
Lemma SJCVector_move_spec h rhs :
  wf h rhs →
  let '(this', rhs') := SJCVector_move rhs in
  wf h this' ∧ wf h rhs' ∧ contents h this' = contents h rhs
  ∧ ptr_ this' = ptr_ rhs ∧ ptr_ rhs' = None ∧ separate this' rhs'.
Proof.
  intros Hwf. simpl. split; [|split; [|split; [|split; [|split]]]];
    try done.
  - apply wf_intro_null; done || lia.
Qed.

(** [operator=]: the container takes what the parameter holds and the array
    it had is released, once. *)
Lemma operator_assign_spec h copy this :
  wf h this →
  operator_assign copy this h
  = Ok (mkSJCVector (ptr_ copy) (size_ copy) (first_ copy) (last_ copy)
          (name_ this),
        release (ptr_ this) h).
Proof.
  intros Hwf. unfold operator_assign, swap, bind, SJCVector_dtor. simpl.
  unfold delete_array, release.
  destruct (wf_inv _ _ Hwf) as (_ & _ & _ & [[-> _]|(l & blk & -> & -> & _)]);
    done.
Qed.

(** *** [operator+] *)

(** The loop adds the source to the destination slot by slot and leaves the
    other slots of the destination alone. *)
Lemma add_loop_spec ld ls bs (n : nat) :
  ls ≠ ld → forallb is_init bs = true →
  ∀ (i : nat) h bd,
    h !! ld = Some bd → h !! ls = Some bs → forallb is_init bd = true →
    (i + n ≤ length bd)%nat → (i + n ≤ length bs)%nat →
    Z.of_nat (i + n) ≤ INT_MAX →
    ∃ bd',
      add_loop add n (Z.of_nat i) (Some ld) (Some ls) h
      = Ok (tt, <[ld := bd']> h)
      ∧ length bd' = length bd ∧ forallb is_init bd' = true
      ∧ (∀ k, (i ≤ k < i + n)%nat →
              ∃ a b, bd !! k = Some (Some a) ∧ bs !! k = Some (Some b)
                     ∧ bd' !! k = Some (Some (add a b)))
      ∧ (∀ k, (k < i ∨ i + n ≤ k)%nat → bd' !! k = bd !! k).
Proof.
  intros Hne Hinits. induction n as [|n IH]; intros i h bd Hd Hs Hinitd Hnd Hns Hmax.
  - exists bd. simpl. unfold ret. rewrite insert_id by done.
    repeat split; try done. intros k ?. lia.
  - simpl. unfold bind.
    destruct (all_init_lookup bd i Hinitd) as [a Ha]; [lia|].
    destruct (all_init_lookup bs i Hinits) as [b Hb]; [lia|].
    rewrite (load_ok h ld bd _ a) by (done || lia || by rewrite Nat2Z.id).
    rewrite (load_ok h ls bs _ b) by (done || lia || by rewrite Nat2Z.id).
    rewrite (store_ok h ld bd) by (done || lia).
    rewrite int_succ_ok by lia. rewrite Nat2Z.id.
    replace (Z.of_nat i + 1) with (Z.of_nat (S i)) by lia.
    destruct (IH (S i) (<[ld := <[i := Some (add a b)]> bd]> h)
                (<[i := Some (add a b)]> bd)) as (bd' & -> & Hlen & Hinit & Hin & Hout).
    + by rewrite lookup_insert_eq.
    + by rewrite lookup_insert_ne.
    + by apply all_init_insert.
    + rewrite length_insert. lia.
    + lia.
    + lia.
    + exists bd'. rewrite insert_insert_eq. split; [done|].
      rewrite length_insert in Hlen. split; [done|]. split; [done|]. split.
      * intros k Hk. destruct (decide (k = i)) as [->|Hki].
        -- exists a, b. split; [done|]. split; [done|].
           rewrite Hout by lia. apply list_lookup_insert_eq. lia.
        -- destruct (Hin k) as (a' & b' & Ha' & Hb' & Hr); [lia|].
           exists a', b'. rewrite list_lookup_insert_ne in Ha' by done. done.
      * intros k Hk. rewrite Hout by lia.
        apply list_lookup_insert_ne. lia.
Qed.

Lemma SJCVector_default_spec h :
  1 ≤ max_alloc →
  ∃ R h', SJCVector_default dflt max_alloc h = Ok (R, h')
          ∧ wf h' R ∧ frame h (blank EmptyString) h' R
          ∧ contents h' R = Some [] ∧ last_ R = -1 ∧ size_ R = 1.
Proof.
  intros Hmax. unfold SJCVector_default.
  destruct (initSJCVector_spec h 1 EmptyString) as (Hrun & Hwf & Hfr & Hc); [lia|].
  eexists _, _. split; [exact Hrun|]. done.
Qed.

(** Past its guard, [operator+] returns a copy of the left operand in an
    array of its own, with the right operand added to the occupied
    slots. *)
Lemma operator_plus_sum h this rhs :
  wf h this → wf h rhs →
  size_ rhs ≠ 0 → size_ this ≠ 0 → last_ rhs = last_ this →
  last_ this < INT_MAX →
  ∃ R h',
    operator_plus dflt add max_alloc this rhs h = Ok (R, h')
    ∧ wf h' R ∧ frame h (blank EmptyString) h' R
    ∧ last_ R = last_ this ∧ size_ R = size_ this
    ∧ ∀ i, 0 ≤ i ≤ last_ this →
           ∃ a b, slot h this i = Some a ∧ slot h rhs i = Some b
                  ∧ slot h' R i = Some (add a b).
Proof.
  intros Hwf Hwfr Hsr Hst Hlast Hint.
  destruct (wf_inv _ _ Hwf) as (H1 & H2 & H3 & _).
  destruct (wf_inv _ _ Hwfr) as (H1r & H2r & H3r & _).
  destruct (wf_nonempty _ _ Hwf) as (la & ba & Hpa & Hba & Hlena & Hinita);
    [lia|].
  destruct (wf_nonempty _ _ Hwfr) as (lb & bb & Hpb & Hbb & Hlenb & Hinitb);
    [lia|].
  unfold operator_plus.
  destruct (Z.eqb_spec (size_ rhs) 0); [done|].
  destruct (Z.eqb_spec (size_ this) 0); [done|].
  destruct (Z.eqb_spec (last_ rhs) (last_ this)); [|done]. simpl.
  unfold bind.
  destruct (SJCVector_copy_spec h this Hwf) as (-> & _ & Hfr & _).
  set (l' := fresh (dom h)) in *.
  assert (h !! l' = None) as Hfresh by apply fresh_unallocated.
  assert (lb ≠ l') as Hne by (intros ->; congruence).
  assert (cells h (ptr_ this) = ba) as Hca by (unfold cells; by rewrite Hpa, Hba).
  rewrite Hca in *. simpl. rewrite Hpb.
  destruct (add_loop_spec l' lb bb (Z.to_nat (last_ this + 1)) Hne Hinitb
              0%nat (<[l':=ba]> h) ba)
    as (bd' & Hrun & Hlen' & Hinit' & Hin & Hout).
  { by rewrite lookup_insert_eq. }
  { by rewrite lookup_insert_ne. }
  { done. }
  { lia. }
  { lia. }
  { lia. }
  change (Z.of_nat 0) with 0 in Hrun. rewrite Hrun. simpl.
  rewrite insert_insert_eq.
  eexists _, _. split; [done|]. split.
  { eapply (wf_intro _ _ l' bd'); simpl; try done; try lia.
    by rewrite lookup_insert_eq. }
  split.
  { split.
    - intros l _ [blk Hb].
      assert (l' ≠ l) by (intros ->; congruence).
      by rewrite lookup_insert_ne.
    - intros l [= <-]. by right. }
  split; [done|]. split; [done|].
  intros i Hi. destruct (Hin (Z.to_nat i)) as (a & b & Ha & Hb & Hr); [lia|].
  exists a, b. unfold slot, load_cell, cells. simpl.
  rewrite Hpa, Hba, Hpb, Hbb, lookup_insert_eq. simpl.
  destruct (Z.ltb_spec i 0); [lia|]. by rewrite Ha, Hb, Hr.
Qed.

(** *** What a returning operation leaves behind *)

Lemma contents_wf h v :
  wf h v →
  contents h v = read_cells (take (Z.to_nat (count v)) (cells h (ptr_ v))).
Proof.
  intros Hwf. destruct (wf_inv _ _ Hwf) as (H1 & H2 & H3 & Hbuf).
  unfold contents, count in *.
  destruct (Z.leb_spec 0 (last_ v + 1)); [|lia].
  destruct (Z.leb_spec (last_ v + 1) (Z.of_nat (length (cells h (ptr_ v)))))
    as [|Hlt]; [done|].
  unfold cells in Hlt.
  destruct Hbuf as [[Hp ?]|(l & blk & Hp & Hb & ? & _)]; rewrite Hp in Hlt.
  - simpl in Hlt. lia.
  - rewrite Hb in Hlt. simpl in Hlt. lia.
Qed.

Lemma resize_Ok h this n this' h' :
  wf h this → 0 ≤ n → resize n this h = Ok (this', h') →
  wf h' this' ∧ frame h this h' this'
  ∧ contents h' this' = contents h this
  ∧ last_ this' = last_ this
  ∧ size_ this' = (if n =? 0 then 1 else n).
Proof.
  intros Hwf Hn Hrun. destruct (wf_inv _ _ Hwf) as (H1 & H2 & H3 & _).
  destruct (Z.le_gt_cases (if n =? 0 then 1 else n) max_alloc) as [Hmax|Hmax];
    [|by rewrite resize_throw in Hrun by lia].
  destruct (decide (last_ this = -1 ∨ size_ this ≤ (if n =? 0 then 1 else n)))
    as [Hcase|Hcase];
    [|by rewrite resize_shrink_undefined in Hrun by (done || lia)].
  destruct (resize_grow h this n Hwf Hn Hmax Hcase)
    as (l' & blk' & Hfresh & Hrun' & Hlen' & Hinit' & Htake').
  rewrite Hrun' in Hrun. injection Hrun as <- <-.
  destruct (wf_moved h this l' blk' (if n =? 0 then 1 else n) (last_ this)
              (first_ this) (name_ this)) as (Hl' & Hwf' & Hfr');
    [done|done|done|done|lia|lia| |].
  { destruct Hcase; [|lia]. destruct (n =? 0); lia. }
  split; [done|]. split; [done|]. split; [|done].
  rewrite !contents_wf by done. unfold count at 1. simpl.
  fold (count this). unfold cells at 1. rewrite Hl'. simpl.
  by rewrite Htake'.
Qed.

Lemma push_back_Ok h this x this' h' (vs : list T) :
  wf h this → contents h this = Some vs →
  push_back x this h = Ok (this', h') →
  wf h' this' ∧ frame h this h' this'
  ∧ contents h' this' = Some (vs ++ [x])
  ∧ last_ this' = last_ this + 1
  ∧ size_ this' = (if bool_decide (size_ this = count this)
                   then 2 * size_ this + 1 else size_ this).
Proof.
  intros Hwf Hvs Hrun. destruct (wf_inv _ _ Hwf) as (H1 & H2 & H3 & _).
  destruct (decide (count this < size_ this ∨ 2 * size_ this + 1 ≤ max_alloc))
    as [Hcase|Hcase].
  - destruct (push_back_spec h this x vs Hwf Hvs Hcase)
      as (this1 & h1 & Hrun1 & Hspec).
    rewrite Hrun1 in Hrun. by injection Hrun as <- <-.
  - rewrite push_back_throw in Hrun; [done|done| |]; unfold count in *; lia.
Qed.

Lemma mutate_Ok h this m this' h' :
  wf h this →
  mutate dflt max_alloc m this h = Ok (this', h') →
  wf h' this' ∧ frame h this h' this'.
Proof.
  intros Hwf Hrun. destruct m as [x|n]; simpl in Hrun.
  - destruct (wf_contents _ _ Hwf) as [vs Hvs].
    by destruct (push_back_Ok _ _ _ _ _ _ Hwf Hvs Hrun) as (? & ? & _).
  - by destruct (resize_Ok _ _ _ _ _ Hwf (to_size_t_nonneg n) Hrun)
      as (? & ? & _).
Qed.

Lemma initSJCVector_Ok h c nm this' h' :
  0 ≤ c → initSJCVector dflt max_alloc c (blank nm) h = Ok (this', h') →
  wf h' this' ∧ frame h (blank nm) h' this'
  ∧ contents h' this' = Some [] ∧ last_ this' = -1 ∧ size_ this' = c.
Proof.
  intros Hc Hrun.
  destruct (Z.le_gt_cases c max_alloc) as [Hmax|Hmax];
    [|by rewrite initSJCVector_throw in Hrun].
  destruct (initSJCVector_spec h c nm) as (Hrun' & ? & ? & ?); [lia|].
  rewrite Hrun' in Hrun. by injection Hrun as <- <-.
Qed.

(** Copy assignment: the target ends with a fresh array holding what the
    source holds, also when the source is the target itself. *)
Lemma copy_assign_spec h this rhs :
  wf h this → wf h rhs →
  ∃ this' h',
    copy_assign dflt max_alloc this rhs h = Ok (this', h')
    ∧ wf h' this' ∧ frame h this h' this'
    ∧ contents h' this' = contents h rhs
    ∧ last_ this' = last_ rhs ∧ size_ this' = size_ rhs
    ∧ h' = release (ptr_ this) (<[fresh (dom h) := cells h (ptr_ rhs)]> h)
    ∧ ptr_ this' = Some (fresh (dom h)).
Proof.
  intros Hwf Hwfr. unfold copy_assign, bind.
  destruct (SJCVector_copy_spec h rhs Hwfr) as (-> & Hwfc & Hfrc & Hcc).
  set (l' := fresh (dom h)) in *.
  assert (h !! l' = None) as Hfresh by apply fresh_unallocated.
  destruct (frame_other _ _ _ _ this Hfrc Hwf (separate_blank _ _))
    as (Hwf1 & _ & _).
  rewrite operator_assign_spec by done. simpl.
  eexists _, _. split; [done|].
  destruct (wf_inv _ _ Hwfr) as (H1 & H2 & H3 & Hbuf).
  assert (Z.of_nat (length (cells h (ptr_ rhs))) = size_ rhs
          ∧ forallb is_init (cells h (ptr_ rhs)) = true) as [Hlen Hinit].
  { unfold cells.
    destruct Hbuf as [[-> ->]|(l & blk & -> & -> & ? & ?)]; by simpl. }
  destruct (wf_moved h this l' (cells h (ptr_ rhs)) (size_ rhs) (last_ rhs)
              (Some 0) (name_ this)) as (Hl' & Hwf' & Hfr');
    [done|done|done|done|lia|lia|lia|].
  split; [done|]. split; [done|]. split; [|done].
  rewrite !contents_wf by done. unfold count at 1. simpl.
  fold (count rhs). by rewrite Hl'.
Qed.

(** Whatever the loop does before it returns, it does to the destination
    array, and leaves every cell with a value. *)
Lemma add_loop_Ok ld src (n : nat) :
  ∀ i h bd h',
    h !! ld = Some bd → forallb is_init bd = true →
    add_loop add n i (Some ld) src h = Ok (tt, h') →
    ∃ bd', h' = <[ld := bd']> h ∧ length bd' = length bd
           ∧ forallb is_init bd' = true.
Proof.
  induction n as [|n IH]; intros i h bd h' Hd Hinit Hrun; simpl in Hrun.
  - injection Hrun as <-. exists bd. by rewrite insert_id.
  - unfold bind in Hrun.
    destruct (load (Some ld) i h) as [[a h1]| |] eqn:Ha; [|done|done].
    apply load_Ok in Ha as ->.
    destruct (load src i h) as [[b h1]| |] eqn:Hb; [|done|done].
    apply load_Ok in Hb as ->.
    destruct (store (Some ld) i (add a b) h) as [[[] h1]| |] eqn:Hs;
      [|done|done].
    apply (store_Ok _ _ _ _ _ bd Hd) in Hs as ->.
    destruct (int_succ i _) as [[i' h1]| |] eqn:Hi; [|done|done].
    unfold int_succ in Hi. destruct (i =? INT_MAX); [done|].
    injection Hi as <- <-.
    apply (IH _ _ (<[Z.to_nat i:=Some (add a b)]> bd)) in Hrun
      as (bd' & -> & Hlen & Hinit').
    + exists bd'. rewrite insert_insert_eq.
      rewrite length_insert in Hlen. done.
    + by rewrite lookup_insert_eq.
    + by apply all_init_insert.
Qed.

Lemma operator_plus_Ok h this rhs R h' :
  wf h this → wf h rhs →
  operator_plus dflt add max_alloc this rhs h = Ok (R, h') →
  wf h' R ∧ frame h (blank EmptyString) h' R.
Proof.
  intros Hwf Hwfr. unfold operator_plus.
  destruct (_ || _ || _).
  - intros Hrun. unfold SJCVector_default in Hrun.
    by destruct (initSJCVector_Ok h 1 EmptyString R h' ltac:(lia) Hrun) as (? & ? & _).
  - unfold bind.
    destruct (SJCVector_copy_spec h this Hwf) as (-> & Hwfc & Hfrc & _).
    set (l' := fresh (dom h)) in *.
    assert (h !! l' = None) as Hfresh by apply fresh_unallocated.
    destruct (wf_inv _ _ Hwfc) as (H1 & H2 & H3 & [[? _]|Hbuf]); [done|].
    destruct Hbuf as (l0 & blk & [= <-] & Hb & Hlen & Hinit).
    simpl in *.
    destruct (add_loop _ _ _ _ _ _) as [[[] h1]| |] eqn:Hloop; [|done|done].
    intros [= <- <-].
    apply (add_loop_Ok _ _ _ _ _ blk _ Hb Hinit) in Hloop
      as (bd' & -> & Hlen' & Hinit').
    rewrite insert_insert_eq. split.
    + eapply (wf_intro _ _ l' bd'); simpl; try done; try lia.
      by rewrite lookup_insert_eq.
    + split.
      * intros l _ [blk0 Hb0].
        assert (l' ≠ l) by (intros ->; congruence).
        by rewrite lookup_insert_ne.
      * intros l [= <-]. by right.
Qed.

(** *** The invariant of a scope *)

Lemma wf_fields h v v' :
  ptr_ v' = ptr_ v → size_ v' = size_ v → last_ v' = last_ v →
  wf h v → wf h v'.
Proof.
  intros Hp Hs Hl. unfold Managed.wf, wfb. by rewrite Hp, Hs, Hl.
Qed.

Lemma wf_release_other h v w :
  wf h v → separate v w → wf (release (ptr_ w) h) v.
Proof.
  intros Hwf Hsep. eapply wf_heap_irrel; [|done].
  intros l Hl. unfold release. destruct (ptr_ w) as [lw|] eqn:Hw; [|done].
  apply lookup_delete_ne. intros ->. by apply (Hsep l).
Qed.

Lemma world_insert objs h x v' h' :
  wf_world max_alloc objs h → wf h' v' →
  (∀ z vz, z ≠ x → objs !! z = Some vz → wf h' vz ∧ separate vz v') →
  wf_world max_alloc (<[x := v']> objs) h'.
Proof.
  intros [Hwf Hsep] Hwf' Hothers. split.
  - intros z v [[<- <-]|[Hne Hz]]%lookup_insert_Some; [done|].
    by apply (Hothers z).
  - intros z1 z2 v1 v2 Hne
      [[<- <-]|[Hne1 Hz1]]%lookup_insert_Some
      [[<- <-]|[Hne2 Hz2]]%lookup_insert_Some.
    + done.
    + apply separate_sym. by apply (Hothers z2).
    + by apply (Hothers z1).
    + by apply (Hsep z1 z2).
Qed.

Lemma world_update objs h x this v' h' :
  wf_world max_alloc objs h →
  (∀ z vz, z ≠ x → objs !! z = Some vz → separate vz this) →
  wf h' v' → frame h this h' v' →
  wf_world max_alloc (<[x := v']> objs) h'.
Proof.
  intros Hw Hsep Hwf' Hfr. eapply world_insert; [done|done|].
  intros z vz Hne Hz.
  destruct (frame_other _ _ _ _ vz Hfr) as (? & _ & ?); [|by eapply Hsep|done].
  by apply (proj1 Hw z).
Qed.

Lemma world_mutate objs h x vx v' h' :
  wf_world max_alloc objs h → objs !! x = Some vx →
  wf h' v' → frame h vx h' v' →
  wf_world max_alloc (<[x := v']> objs) h'.
Proof.
  intros Hw Hx. eapply world_update; [done|].
  intros z vz Hne Hz. by apply (proj2 Hw z x).
Qed.

Lemma world_declare objs h nm x v' h' :
  wf_world max_alloc objs h →
  wf h' v' → frame h (blank nm) h' v' →
  wf_world max_alloc (<[x := v']> objs) h'.
Proof.
  intros Hw. eapply world_update; [done|].
  intros z vz _ _. apply separate_blank.
Qed.

Lemma step_preserves o objs h objs' h' :
  wf_world max_alloc objs h →
  step dflt add max_alloc o objs h = Ok (objs', h') →
  wf_world max_alloc objs' h'.
Proof.
  intros Hw. pose proof Hw as [Hwf Hsep].
  destruct o as [x size|x y|x y|x y|x y|x newValue|x newSize|x y|x y z];
    simpl; unfold declare.
  - (* Construct *)
    destruct (objs !! x) as [vx|] eqn:Hx; [by intros [= <- <-]|].
    unfold bind, SJCVector_named.
    destruct (initSJCVector _ _ _ _ _) as [[v h1]| |] eqn:Hrun; [|done|done].
    intros [= <- <-].
    apply initSJCVector_Ok in Hrun as (? & ? & _).
    + by eapply world_declare.
    + unfold to_size_t, SIZE_MOD. apply Z.mod_pos_bound. lia.
  - (* CopyConstruct *)
    destruct (objs !! x) as [vx|] eqn:Hx; [by intros [= <- <-]|].
    destruct (objs !! y) as [vy|] eqn:Hy; [|by intros [= <- <-]].
    unfold bind.
    destruct (SJCVector_copy_spec h vy (Hwf _ _ Hy)) as (-> & ? & ? & _).
    intros [= <- <-]. by eapply world_declare.
  - (* MoveConstruct *)
    destruct (objs !! x) as [vx|] eqn:Hx; [by intros [= <- <-]|].
    destruct (objs !! y) as [vy|] eqn:Hy; [|by intros [= <- <-]].
    simpl. intros [= <- <-].
    assert (x ≠ y) as Hxy by (intros ->; congruence).
    eapply world_insert.
    + eapply world_insert; [done| |].
      * apply wf_intro_null; done.
      * intros z vz _ Hz. split; [by eapply Hwf|]. by apply separate_null.
    + eapply wf_fields; [| | |by eapply Hwf]; done.
    + intros z vz Hzx [[<- <-]|[Hzy Hz]]%lookup_insert_Some.
      * split; [by apply wf_intro_null|]. intros l [=].
      * split; [by eapply Hwf|].
        eapply (separate_fields vy); [done|]. by apply (Hsep z y).
  - (* Assign *)
    destruct (objs !! x) as [vx|] eqn:Hx; [|by intros [= <- <-]].
    destruct (objs !! y) as [vy|] eqn:Hy; [|by intros [= <- <-]].
    unfold bind.
    destruct (copy_assign_spec h vx vy (Hwf _ _ Hx) (Hwf _ _ Hy))
      as (v & h1 & -> & ? & ? & _).
    intros [= <- <-]. by eapply world_mutate.
  - (* MoveAssign *)
    destruct (objs !! y) as [vy|] eqn:Hy; [|by intros [= <- <-]].
    simpl. destruct (decide (x = y)) as [->|Hxy].
    + rewrite lookup_insert_eq. unfold bind.
      rewrite operator_assign_spec by (by apply wf_intro_null). simpl.
      intros [= <- <-]. rewrite insert_insert_eq.
      eapply world_insert; [done| |].
      * eapply wf_fields; [| | |by eapply Hwf]; done.
      * intros z vz Hz Hvz. split; [by eapply Hwf|].
        eapply (separate_fields vy); [done|]. by apply (Hsep z y).
    + rewrite lookup_insert_ne by done.
      destruct (objs !! x) as [vx|] eqn:Hx.
      * unfold bind. rewrite operator_assign_spec by (by eapply Hwf). simpl.
        intros [= <- <-].
        assert (separate vx vy) as Hsxy by (by apply (Hsep x y)).
        eapply world_insert.
        -- eapply world_insert; [done|by apply wf_intro_null|].
           intros z vz _ Hz. split; [by eapply Hwf|]. by apply separate_null.
        -- eapply (wf_fields _ vy); [done|done|done|].
           apply wf_release_other; [by eapply Hwf|by apply separate_sym].
        -- intros z vz Hzx [[<- <-]|[Hzy Hz]]%lookup_insert_Some.
           ++ split; [by apply wf_intro_null|]. intros l [=].
           ++ split.
              ** apply wf_release_other; [by eapply Hwf|]. by apply (Hsep z x).
              ** eapply (separate_fields vy); [done|]. by apply (Hsep z y).
      * intros [= <- <-].
        eapply world_insert; [done|by apply wf_intro_null|].
        intros z vz _ Hz. split; [by eapply Hwf|]. by apply separate_null.
  - (* PushBack *)
    destruct (objs !! x) as [vx|] eqn:Hx; [|by intros [= <- <-]].
    unfold bind.
    destruct (Managed.push_back _ _ _ _ _) as [[v h1]| |] eqn:Hrun;
      [|done|done].
    intros [= <- <-].
    destruct (wf_contents _ _ (Hwf _ _ Hx)) as [vs Hvs].
    destruct (push_back_Ok _ _ _ _ _ _ (Hwf _ _ Hx) Hvs Hrun) as (? & ? & _).
    by eapply world_mutate.
  - (* Resize *)
    destruct (objs !! x) as [vx|] eqn:Hx; [|by intros [= <- <-]].
    unfold bind.
    destruct (Managed.resize _ _ _ _ _) as [[v h1]| |] eqn:Hrun;
      [|done|done].
    intros [= <- <-].
    apply resize_Ok in Hrun as (? & ? & _); [|by eapply Hwf|].
    + by eapply world_mutate.
    + unfold to_size_t, SIZE_MOD. apply Z.mod_pos_bound. lia.
  - (* Swap *)
    destruct (objs !! x) as [vx|] eqn:Hx; [|by intros [= <- <-]].
    destruct (objs !! y) as [vy|] eqn:Hy; [|by intros [= <- <-]].
    simpl. intros [= <- <-].
    destruct (decide (x = y)) as [->|Hxy].
    + rewrite insert_insert_eq. simplify_eq.
      eapply world_insert; [done| |].
      * eapply wf_fields; [| | |by eapply Hwf]; done.
      * intros z vz Hz Hvz. split; [by eapply Hwf|].
        eapply (separate_fields vx); [done|]. by apply (Hsep z y).
    + assert (separate vx vy) as Hsxy by (by apply (Hsep x y)).
      split.
      * intros z v [[<- <-]|[Hzy [[<- <-]|[Hzx Hz]]%lookup_insert_Some]]%lookup_insert_Some.
        -- eapply wf_fields; [| | |by eapply (Hwf x)]; done.
        -- eapply wf_fields; [| | |by eapply (Hwf y)]; done.
        -- by eapply Hwf.
      * intros z1 z2 v1 v2 Hne
          [[<- <-]|[Hz1y [[<- <-]|[Hz1x Hz1]]%lookup_insert_Some]]%lookup_insert_Some
          [[<- <-]|[Hz2y [[<- <-]|[Hz2x Hz2]]%lookup_insert_Some]]%lookup_insert_Some;
          try done.
        all: intros l Hl1 Hl2; simpl in *;
          refine (Hsep _ _ _ _ _ _ _ l Hl1 Hl2);
          [ | eassumption | eassumption]; done.
  - (* Plus *)
    destruct (objs !! x) as [vx|] eqn:Hx; [by intros [= <- <-]|].
    destruct (objs !! y) as [vy|] eqn:Hy; [|by intros [= <- <-]].
    destruct (objs !! z) as [vz|] eqn:Hz; [|by intros [= <- <-]].
    unfold bind.
    destruct (operator_plus _ _ _ _ _ _) as [[v h1]| |] eqn:Hrun;
      [|done|done].
    intros [= <- <-].
    apply operator_plus_Ok in Hrun as [? ?]; [|by eapply Hwf..].
    by eapply world_declare.
Qed.

(** *** Sequences of operations *)

Lemma push_all_Ok (vs : list T) :
  ∀ h this (ws : list T) this' h',
    wf h this → contents h this = Some ws →
    push_all dflt max_alloc vs this h = Ok (this', h') →
    wf h' this' ∧ contents h' this' = Some (ws ++ vs)
    ∧ count this' = count this + Z.of_nat (length vs).
Proof.
  unfold push_all. induction vs as [|x vs IH]; intros h this ws this' h' Hwf Hws.
  - intros [= <- <-]. rewrite app_nil_r. simpl. unfold count. split; [done|].
    split; [done|lia].
  - csimpl. unfold bind.
    destruct (Managed.push_back _ _ _ _ _) as [[this1 h1]| |] eqn:Hrun;
      [|done|done].
    destruct (push_back_Ok _ _ _ _ _ _ Hwf Hws Hrun) as (Hwf1 & _ & Hws1 & Hl1 & _).
    intros Hrest. destruct (IH _ _ _ _ _ Hwf1 Hws1 Hrest) as (? & ? & Hc).
    split; [done|]. split; [by rewrite <- app_assoc in *|].
    unfold count in *. rewrite Hc, Hl1. simpl length. lia.
Qed.

Lemma push_all_total (vs : list T) :
  ∀ h this,
    wf h this →
    2 * (count this + Z.of_nat (length vs)) ≤ max_alloc + 1 →
    ∃ this' h', push_all dflt max_alloc vs this h = Ok (this', h').
Proof.
  unfold push_all. induction vs as [|x vs IH]; intros h this Hwf Hmax.
  - by eexists _, _.
  - csimpl. unfold bind.
    destruct (wf_contents _ _ Hwf) as [ws Hws].
    destruct (wf_inv _ _ Hwf) as (H1 & H2 & H3 & _).
    destruct (push_back_spec h this x ws Hwf Hws)
      as (this1 & h1 & -> & Hwf1 & _ & _ & Hl1 & _).
    { simpl length in Hmax. unfold count in *. lia. }
    apply IH; [done|]. simpl length in Hmax. unfold count in *. lia.
Qed.

Lemma run_preserves os :
  ∀ objs h objs' h',
    wf_world max_alloc objs h →
    run dflt add max_alloc os objs h = Ok (objs', h') →
    wf_world max_alloc objs' h'.
Proof.
  induction os as [|o os IH]; intros objs h objs' h' Hw; simpl.
  - by intros [= <- <-].
  - unfold bind.
    destruct (step _ _ _ _ _ _) as [[objs1 h1]| |] eqn:Hstep; [|done|done].
    apply IH. by eapply step_preserves.
Qed.

Lemma wf_world_empty : wf_world (T:=T) max_alloc ∅ ∅.
Proof. split; intros *; by rewrite ?lookup_empty. Qed.

(** *** Statements leave the variables they do not write as they are *)

Lemma contents_release_other h v w :
  separate v w → contents (release (ptr_ w) h) v = contents h v.
Proof.
  intros Hsep. apply contents_heap_irrel.
  intros l Hl. unfold release. destruct (ptr_ w) as [lw|] eqn:Hw; [|done].
  apply lookup_delete_ne. intros ->. by apply (Hsep l).
Qed.

Lemma step_frame o objs h objs' h' a A :
  wf_world max_alloc objs h →
  step dflt add max_alloc o objs h = Ok (objs', h') →
  objs !! a = Some A → a ∉ writes o →
  objs' !! a = Some A ∧ contents h' A = contents h A.
Proof.
  intros [Hwf Hsep] Hstep Ha Hnw.
  assert (∀ this v' x, frame h this h' v' →
            (∀ z vz, z ≠ x → objs !! z = Some vz → separate vz this) →
            a ≠ x → contents h' A = contents h A) as Hframe.
  { intros this v' x Hfr Hs Hax.
    destruct (frame_other _ _ _ _ A Hfr) as (_ & ? & _);
      [by eapply Hwf|by eapply Hs|done]. }
  assert (∀ nm z vz, z ≠ a → objs !! z = Some vz → separate vz (blank nm))
    as Hblank by (intros; apply separate_blank).
  revert Hstep.
  destruct o as [x size|x y|x y|x y|x y|x newValue|x newSize|x y|x y z];
    simpl in Hnw; simpl; unfold declare.
  - (* Construct *)
    apply not_elem_of_cons in Hnw as [Hax _].
    destruct (objs !! x) as [vx|] eqn:Hx; [by intros [= <- <-]|].
    unfold bind, SJCVector_named.
    destruct (initSJCVector _ _ _ _ _) as [[v h1]| |] eqn:Hrun; [|done|done].
    intros [= <- <-]. rewrite lookup_insert_ne by done. split; [done|].
    apply initSJCVector_Ok in Hrun as (_ & Hfr & _);
      [|apply to_size_t_nonneg].
    eapply (Hframe _ _ x Hfr); [|done]. intros; apply separate_blank.
  - (* CopyConstruct *)
    apply not_elem_of_cons in Hnw as [Hax _].
    destruct (objs !! x) as [vx|] eqn:Hx; [by intros [= <- <-]|].
    destruct (objs !! y) as [vy|] eqn:Hy; [|by intros [= <- <-]].
    unfold bind.
    destruct (SJCVector_copy_spec h vy (Hwf _ _ Hy)) as (-> & _ & Hfr & _).
    intros [= <- <-]. rewrite lookup_insert_ne by done. split; [done|].
    eapply (Hframe _ _ x Hfr); [|done]. intros; apply separate_blank.
  - (* MoveConstruct *)
    apply not_elem_of_cons in Hnw as [Hax [Hay _]%not_elem_of_cons].
    destruct (objs !! x) as [vx|] eqn:Hx; [by intros [= <- <-]|].
    destruct (objs !! y) as [vy|] eqn:Hy; [|by intros [= <- <-]].
    simpl. intros [= <- <-]. by rewrite !lookup_insert_ne by done.
  - (* Assign *)
    apply not_elem_of_cons in Hnw as [Hax _].
    destruct (objs !! x) as [vx|] eqn:Hx; [|by intros [= <- <-]].
    destruct (objs !! y) as [vy|] eqn:Hy; [|by intros [= <- <-]].
    unfold bind.
    destruct (copy_assign_spec h vx vy (Hwf _ _ Hx) (Hwf _ _ Hy))
      as (v & h1 & -> & _ & Hfr & _).
    intros [= <- <-]. rewrite lookup_insert_ne by done. split; [done|].
    eapply (Hframe _ _ x Hfr); [|done].
    intros z vz Hzx Hz. by apply (Hsep z x).
  - (* MoveAssign *)
    apply not_elem_of_cons in Hnw as [Hax [Hay _]%not_elem_of_cons].
    destruct (objs !! y) as [vy|] eqn:Hy; [|by intros [= <- <-]].
    simpl. destruct (decide (x = y)) as [->|Hxy].
    + rewrite lookup_insert_eq. unfold bind.
      rewrite operator_assign_spec by (by apply wf_intro_null). simpl.
      intros [= <- <-]. by rewrite !lookup_insert_ne by done.
    + rewrite lookup_insert_ne by done.
      destruct (objs !! x) as [vx|] eqn:Hx.
      * unfold bind. rewrite operator_assign_spec by (by eapply Hwf). simpl.
        intros [= <- <-]. rewrite !lookup_insert_ne by done. split; [done|].
        apply contents_release_other. by apply (Hsep a x).
      * intros [= <- <-]. by rewrite lookup_insert_ne by done.
  - (* PushBack *)
    apply not_elem_of_cons in Hnw as [Hax _].
    destruct (objs !! x) as [vx|] eqn:Hx; [|by intros [= <- <-]].
    unfold bind.
    destruct (Managed.push_back _ _ _ _ _) as [[v h1]| |] eqn:Hrun;
      [|done|done].
    intros [= <- <-]. rewrite lookup_insert_ne by done. split; [done|].
    destruct (wf_contents _ _ (Hwf _ _ Hx)) as [vs Hvs].
    destruct (push_back_Ok _ _ _ _ _ _ (Hwf _ _ Hx) Hvs Hrun) as (_ & Hfr & _).
    eapply (Hframe _ _ x Hfr); [|done].
    intros z vz Hzx Hz. by apply (Hsep z x).
  - (* Resize *)
    apply not_elem_of_cons in Hnw as [Hax _].
    destruct (objs !! x) as [vx|] eqn:Hx; [|by intros [= <- <-]].
    unfold bind.
    destruct (Managed.resize _ _ _ _ _) as [[v h1]| |] eqn:Hrun;
      [|done|done].
    intros [= <- <-]. rewrite lookup_insert_ne by done. split; [done|].
    apply resize_Ok in Hrun as (_ & Hfr & _);
      [|by eapply Hwf|apply to_size_t_nonneg].
    eapply (Hframe _ _ x Hfr); [|done].
    intros z vz Hzx Hz. by apply (Hsep z x).
  - (* Swap *)
    apply not_elem_of_cons in Hnw as [Hax [Hay _]%not_elem_of_cons].
    destruct (objs !! x) as [vx|] eqn:Hx; [|by intros [= <- <-]].
    destruct (objs !! y) as [vy|] eqn:Hy; [|by intros [= <- <-]].
    simpl. intros [= <- <-]. by rewrite !lookup_insert_ne by done.
  - (* Plus *)
    apply not_elem_of_cons in Hnw as [Hax _].
    destruct (objs !! x) as [vx|] eqn:Hx; [by intros [= <- <-]|].
    destruct (objs !! y) as [vy|] eqn:Hy; [|by intros [= <- <-]].
    destruct (objs !! z) as [vz|] eqn:Hz; [|by intros [= <- <-]].
    unfold bind.
    destruct (operator_plus _ _ _ _ _ _) as [[v h1]| |] eqn:Hrun;
      [|done|done].
    intros [= <- <-]. rewrite lookup_insert_ne by done. split; [done|].
    apply operator_plus_Ok in Hrun as [_ Hfr]; [|by eapply Hwf..].
    eapply (Hframe _ _ x Hfr); [|done]. intros; apply separate_blank.
Qed.

Lemma run_frame os :
  ∀ objs h objs' h' a A,
    wf_world max_alloc objs h →
    run dflt add max_alloc os objs h = Ok (objs', h') →
    objs !! a = Some A → Forall (λ o, a ∉ writes o) os →
    objs' !! a = Some A ∧ contents h' A = contents h A.
Proof.
  induction os as [|o os IH]; intros objs h objs' h' a A Hw; simpl.
  - by intros [= <- <-].
  - unfold bind.
    destruct (step _ _ _ _ _ _) as [[objs1 h1]| |] eqn:Hstep; [|done|done].
    intros Hrun Ha [Ho Hos]%Forall_cons.
    destruct (step_frame _ _ _ _ _ _ _ Hw Hstep Ha Ho) as [Ha1 Hc1].
    destruct (IH _ _ _ _ _ _ (step_preserves _ _ _ _ _ Hw Hstep) Hrun Ha1 Hos)
      as [? Hc].
    split; [done|]. by rewrite Hc, Hc1.
Qed.

(** Every container of a scope reached from the empty scope is well
    formed. *)
Lemma reachable_wf os objs h x v :
  run dflt add max_alloc os ∅ ∅ = Ok (objs, h) →
  objs !! x = Some v → wf h v.
Proof.
  intros Hrun Hx.
  apply run_preserves in Hrun as [Hwf _]; [|apply wf_world_empty].
  by apply (Hwf x).
Qed.

(** *** The claims *)

(** C1.  On a well-formed container, as every container of a scope is
    ([reachable_wf]), [push_back] grows the container exactly when it is
    full, which includes capacity 0, and then to [2 * capacity + 1]; one
    more element is occupied afterwards.  After [k] calls on a freshly constructed
    container the occupied count is [k], the capacity at least [k] and the
    elements are the values pushed, in order; the calls all return as long
    as the arrays asked for, of at most [2 * k - 1] cells, can be
    allocated. *)
Theorem push_back_growth :
  (∀ h this x this' h',
      wf h this → push_back x this h = Ok (this', h') →
      count this' = count this + 1
      ∧ (capacity this' ≠ capacity this
         ↔ count this = capacity this ∨ capacity this = 0)
      ∧ (capacity this' ≠ capacity this
         → capacity this' = 2 * capacity this + 1))
  ∧ (∀ h c (vs : list T) v0 h0 v h',
        0 ≤ c →
        SJCVector_sized dflt max_alloc c h = Ok (v0, h0) →
        push_all dflt max_alloc vs v0 h0 = Ok (v, h') →
        count v = Z.of_nat (length vs)
        ∧ Z.of_nat (length vs) ≤ capacity v
        ∧ contents h' v = Some vs)
  ∧ (∀ h c (vs : list T),
        0 ≤ c ≤ max_alloc → 2 * Z.of_nat (length vs) ≤ max_alloc + 1 →
        ∃ v0 h0 v h',
          SJCVector_sized dflt max_alloc c h = Ok (v0, h0)
          ∧ push_all dflt max_alloc vs v0 h0 = Ok (v, h')).
Proof.
  split; [|split].
  - intros h this x this' h' Hwf Hrun.
    destruct (wf_contents _ _ Hwf) as [ws Hws].
    destruct (wf_inv _ _ Hwf) as (H1 & H2 & H3 & _).
    destruct (push_back_Ok _ _ _ _ _ _ Hwf Hws Hrun) as (_ & _ & _ & Hl & Hs).
    unfold count, capacity in *. rewrite Hs.
    case_bool_decide; repeat split; intros; lia.
  - intros h c vs v0 h0 v h' Hc Hctor Hrun.
    unfold SJCVector_sized in Hctor.
    apply initSJCVector_Ok in Hctor as (Hwf0 & _ & Hc0 & Hl0 & _); [|done].
    destruct (push_all_Ok _ _ _ _ _ _ Hwf0 Hc0 Hrun) as (Hwf' & Hc' & Hn).
    destruct (wf_inv _ _ Hwf') as (H1 & H2 & H3 & _).
    unfold count, capacity in *. repeat split; [lia|lia|done].
  - intros h c vs Hc Hmax. unfold SJCVector_sized.
    destruct (initSJCVector_spec h c EmptyString) as (-> & Hwf0 & _ & _); [done|].
    destruct (push_all_total vs _ _ Hwf0) as (v & h' & Hrun).
    { unfold count. simpl. unfold emptyVec. lia. }
    by eexists _, _, _, _.
Qed.

(** Every container of a scope reached by a sequence of public operations
    that returns from the empty scope has its cursor within its capacity:
    [0 <= lastIndex + 1 <= capacity]. *)
Theorem state_invariant os objs h x v :
  run dflt add max_alloc os ∅ ∅ = Ok (objs, h) →
  objs !! x = Some v →
  0 ≤ last_ v + 1 ≤ size_ v.
Proof.
  intros Hrun Hx.
  apply run_preserves in Hrun as [Hwf _]; [|apply wf_world_empty].
  eapply wf_cursor. by apply (Hwf x).
Qed.

(** [push_back] of the class over [unique_ptr] always inserts.  On a
    well-formed container: whatever [push_back] does first, grow
    or not, the test [size_ > last_ + 1] that guards the insertion then
    holds, so the branch that reports a full container is never taken: a
    [push_back] that returns has stored the value in the slot after the last
    occupied one, and it returns whenever the larger array can be
    allocated. *)
Theorem push_back_inserts h this x :
  wf h this →
  (∀ g this1 h1 r h2,
      must_grow this h = Ok (g, h) →
      (if g then resize_geometric dflt max_alloc this else ret this) h
      = Ok (this1, h1) →
      has_room this1 h1 = Ok (r, h2) →
      r = true ∧ count this1 < capacity this1)
  ∧ (∀ this' h',
        push_back x this h = Ok (this', h') →
        last_ this' = last_ this + 1
        ∧ slot h' this' (last_ this') = Some x
        ∧ ∀ vs, contents h this = Some vs →
                contents h' this' = Some (vs ++ [x]))
  ∧ (count this < capacity this ∨ 2 * capacity this + 1 ≤ max_alloc →
     ∃ this' h', push_back x this h = Ok (this', h')).
Proof.
  intros Hwf. destruct (wf_inv _ _ Hwf) as (H1 & H2 & H3 & _).
  split; [|split].
  - intros g this1 h1 r h2 Hg Hgrow Hroom.
    rewrite must_grow_full in Hg by done. injection Hg as <-.
    assert (wf h1 this1 ∧ count this1 < capacity this1) as [Hwf1 Hlt].
    { case_bool_decide as Hfull.
      - unfold resize_geometric in Hgrow.
        apply resize_Ok in Hgrow as (? & _ & _ & Hl & Hs); [| done |].
        + split; [done|]. unfold count, capacity in *. rewrite Hs, Hl.
          rewrite to_size_t_small by (unfold SIZE_MOD, LLONG_MAX in *; lia).
          destruct (Z.eqb_spec (size_ this * 2 + 1) 0); lia.
        + unfold to_size_t, SIZE_MOD. apply Z.mod_pos_bound. lia.
      - injection Hgrow as <- <-. split; [done|].
        unfold count, capacity in *. lia. }
    rewrite has_room_free in Hroom by done.
    rewrite bool_decide_eq_true_2 in Hroom by done.
    by injection Hroom as <- <-.
  - intros this' h' Hrun.
    destruct (wf_contents _ _ Hwf) as [ws Hws].
    destruct (push_back_Ok _ _ _ _ _ _ Hwf Hws Hrun)
      as (Hwf' & _ & Hc' & Hl & _).
    split; [done|]. split.
    + destruct (contents_inv _ _ _ Hc') as [Hlen Htake].
      unfold slot, load_cell.
      destruct (Z.ltb_spec (last_ this') 0); [lia|].
      rewrite length_app in Hlen, Htake. simpl in Hlen, Htake.
      assert (Z.to_nat (last_ this') = length ws) as ->
        by (unfold count in *; lia).
      rewrite <- (lookup_take_lt _ (length ws + 1)) by lia.
      rewrite Htake, list_lookup_fmap, lookup_app_r by lia.
      by rewrite Nat.sub_diag.
    + intros vs Hvs. by simplify_eq.
  - intros Hcase. destruct (wf_contents _ _ Hwf) as [ws Hws].
    destruct (push_back_spec h this x ws Hwf Hws Hcase) as (? & ? & ? & _).
    by eexists _, _.
Qed.

(** Operations on one container leave a separate container as it is. *)
Lemma mutate_all_other ms :
  ∀ h this this' h' v,
    wf h this → wf h v → separate v this →
    mutate_all dflt max_alloc ms this h = Ok (this', h') →
    wf h' this' ∧ wf h' v ∧ separate v this'
    ∧ contents h' v = contents h v.
Proof.
  induction ms as [|m ms IH]; intros h this this' h' v Hwf Hwfv Hsep; simpl.
  - by intros [= <- <-].
  - unfold bind.
    destruct (mutate _ _ _ _ _) as [[this1 h1]| |] eqn:Hm; [|done|done].
    destruct (mutate_Ok _ _ _ _ _ Hwf Hm) as [Hwf1 Hfr1].
    destruct (frame_other _ _ _ _ v Hfr1 Hwfv Hsep) as (Hwfv1 & Hc1 & Hsep1).
    intros Hrest.
    destruct (IH _ _ _ _ v Hwf1 Hwfv1 Hsep1 Hrest) as (? & ? & ? & Hc).
    by rewrite Hc, Hc1.
Qed.

Lemma independent_pair h A B :
  wf h A → wf h B → separate A B →
  (∀ ms B' h', mutate_all dflt max_alloc ms B h = Ok (B', h') →
               contents h' A = contents h A)
  ∧ (∀ ms A' h', mutate_all dflt max_alloc ms A h = Ok (A', h') →
                 contents h' B = contents h B).
Proof.
  intros HA HB Hsep. split.
  - intros ms B' h' Hrun.
    by destruct (mutate_all_other _ _ _ _ _ A HB HA Hsep Hrun) as (_ & _ & _ & ?).
  - intros ms A' h' Hrun. apply separate_sym in Hsep.
    by destruct (mutate_all_other _ _ _ _ _ B HA HB Hsep Hrun) as (_ & _ & _ & ?).
Qed.

(** A copy next to its original, as two objects: whatever sequence of
    [push_back] and [resize] is applied to one leaves the elements of the
    other as they were. *)
Lemma copy_then_mutate h A :
  wf h A →
  (∃ B h1,
      SJCVector_copy A h = Ok (B, h1)
      ∧ count B = count A ∧ contents h1 B = contents h A
      ∧ contents h1 A = contents h A
      ∧ (∀ ms B' h2, mutate_all dflt max_alloc ms B h1 = Ok (B', h2) →
                     contents h2 A = contents h A)
      ∧ (∀ ms A' h2, mutate_all dflt max_alloc ms A h1 = Ok (A', h2) →
                     contents h2 B = contents h A))
  ∧ (∀ B0, wf h B0 → separate A B0 →
      ∃ B h1,
        copy_assign dflt max_alloc B0 A h = Ok (B, h1)
        ∧ count B = count A ∧ contents h1 B = contents h A
        ∧ contents h1 A = contents h A
        ∧ (∀ ms B' h2, mutate_all dflt max_alloc ms B h1 = Ok (B', h2) →
                       contents h2 A = contents h A)
        ∧ (∀ ms A' h2, mutate_all dflt max_alloc ms A h1 = Ok (A', h2) →
                       contents h2 B = contents h A)).
Proof.
  intros HA. split.
  - destruct (SJCVector_copy_spec h A HA) as (Hrun & HB & Hfr & Hc).
    eexists _, _. split; [exact Hrun|].
    destruct (frame_other _ _ _ _ A Hfr HA (separate_blank _ _))
      as (HA1 & HcA & Hsep).
    destruct (independent_pair _ _ _ HA1 HB Hsep) as [HindA HindB].
    split; [done|]. split; [done|]. split; [done|]. split.
    + intros ms B' h2 Hm. rewrite <- HcA. by eapply HindA.
    + intros ms A' h2 Hm. rewrite <- Hc. by eapply HindB.
  - intros B0 HB0 Hsep0.
    destruct (copy_assign_spec h B0 A HB0 HA)
      as (B & h1 & Hrun & HB & Hfr & Hc & Hl & _).
    exists B, h1. split; [done|].
    destruct (frame_other _ _ _ _ A Hfr HA Hsep0) as (HA1 & HcA & Hsep).
    destruct (independent_pair _ _ _ HA1 HB Hsep) as [HindA HindB].
    split; [unfold count; by rewrite Hl|]. split; [done|]. split; [done|].
    split.
    + intros ms B' h2 Hm. rewrite <- HcA. by eapply HindA.
    + intros ms A' h2 Hm. rewrite <- Hc. by eapply HindB.
Qed.

(** Copies in a scope of the class over [unique_ptr].  In a scope with a
    container [a], let [b] be made a copy of [a], by
    the copy constructor when [b] is new and by copy assignment when [b]
    exists.  Then [b] has the occupied count and the elements of [a], and
    [a] is as it was.  From there on, whatever statements run, as long as
    they do not write [a] (they may append to [b], resize it, assign to it,
    swap it, move from it), [a] keeps its members and its elements; and as
    long as they do not write [b], [b] keeps its own. *)
Theorem copy_independence objs h a b A o :
  wf_world max_alloc objs h → objs !! a = Some A → a ≠ b →
  (o = CopyConstruct b a ∧ objs !! b = None)
  ∨ (o = Assign b a ∧ is_Some (objs !! b)) →
  ∃ objs1 h1 B,
    step dflt add max_alloc o objs h = Ok (objs1, h1)
    ∧ objs1 !! b = Some B ∧ objs1 !! a = Some A
    ∧ count B = count A ∧ contents h1 B = contents h A
    ∧ contents h1 A = contents h A
    ∧ (∀ os objs2 h2,
         run dflt add max_alloc os objs1 h1 = Ok (objs2, h2) →
         (Forall (λ o, a ∉ writes o) os →
          objs2 !! a = Some A ∧ contents h2 A = contents h A)
         ∧ (Forall (λ o, b ∉ writes o) os →
            objs2 !! b = Some B ∧ contents h2 B = contents h A)).
Proof.
  intros Hw Ha Hab Ho. pose proof Hw as [Hwf Hsep].
  assert (∃ objs1 h1 B,
            step dflt add max_alloc o objs h = Ok (objs1, h1)
            ∧ objs1 !! b = Some B
            ∧ count B = count A ∧ contents h1 B = contents h A)
    as (objs1 & h1 & B & Hstep & Hb & Hn & Hc).
  { destruct Ho as [[-> Hb]|[-> [B0 Hb]]]; simpl; unfold declare, bind.
    - rewrite Hb, Ha.
      destruct (SJCVector_copy_spec h A (Hwf _ _ Ha)) as (-> & _ & _ & Hc).
      eexists _, _, _. split; [done|]. rewrite lookup_insert_eq.
      split; [done|]. done.
    - rewrite Hb, Ha.
      destruct (copy_assign_spec h B0 A (Hwf _ _ Hb) (Hwf _ _ Ha))
        as (B & h1 & -> & _ & _ & Hc & Hl & _).
      eexists _, _, _. split; [done|]. rewrite lookup_insert_eq.
      split; [done|]. split; [unfold count; by rewrite Hl|done]. }
  exists objs1, h1, B. split; [done|]. split; [done|].
  assert (a ∉ writes o) as Hnw.
  { destruct Ho as [[-> _]|[-> _]]; simpl;
      (apply not_elem_of_cons; split; [done|apply not_elem_of_nil]). }
  destruct (step_frame _ _ _ _ _ _ _ Hw Hstep Ha Hnw) as [Ha1 Hc1].
  pose proof (step_preserves _ _ _ _ _ Hw Hstep) as Hw1.
  split; [done|]. split; [done|]. split; [done|]. split; [done|].
  intros os objs2 h2 Hrun. split; intros Hos.
  - destruct (run_frame _ _ _ _ _ _ _ Hw1 Hrun Ha1 Hos) as [? Hc2].
    split; [done|]. by rewrite Hc2.
  - destruct (run_frame _ _ _ _ _ _ _ Hw1 Hrun Hb Hos) as [? Hc2].
    split; [done|]. by rewrite Hc2.
Qed.

(** C5.  For a well-formed source: the move constructor gives the new
    container the buffer, the capacity and the cursor of the source, so its
    elements and occupied count are those the source had; the source is
    left with no buffer, capacity 0 and nothing occupied, and its destructor
    releases nothing.  Move assignment to another container does the same
    and releases the array the target had. *)
Theorem move_correctness h A :
  wf h A →
  (∀ B A', SJCVector_move A = (B, A') →
      contents h B = contents h A ∧ count B = count A
      ∧ capacity B = capacity A ∧ wf h B
      ∧ count A' = 0 ∧ capacity A' = 0 ∧ ptr_ A' = None
      ∧ SJCVector_dtor A' h = Ok (tt, h))
  ∧ (∀ B0, wf h B0 → separate B0 A →
      ∃ B A' h',
        move_assign B0 A h = Ok ((B, A'), h')
        ∧ h' = release (ptr_ B0) h
        ∧ contents h' B = contents h A ∧ count B = count A
        ∧ capacity B = capacity A ∧ wf h' B
        ∧ count A' = 0 ∧ capacity A' = 0 ∧ ptr_ A' = None
        ∧ SJCVector_dtor A' h' = Ok (tt, h')).
Proof.
  intros HA. split.
  - intros B A' [= <- <-].
    pose proof (SJCVector_move_spec h A HA) as Hm. simpl in Hm.
    destruct Hm as (HB & _ & Hc & _). done.
  - intros B0 HB0 Hsep. unfold move_assign. simpl. unfold bind.
    rewrite operator_assign_spec by done. simpl.
    eexists _, _, _. split; [done|]. split; [done|].
    assert (wf (release (ptr_ B0) h) A) as HA'.
    { apply wf_release_other; [done|by apply separate_sym]. }
    split.
    { rewrite <- (contents_heap_irrel h (release (ptr_ B0) h) A).
      - done.
      - intros l Hl. unfold release.
        destruct (ptr_ B0) as [l0|] eqn:Hp0; [|done].
        apply lookup_delete_ne. intros ->. by apply (Hsep l). }
    split; [done|]. split; [done|]. split; [|done].
    eapply wf_fields; [| | |exact HA']; done.
Qed.

(** C6.  Self-assignment [A = A] of a well-formed container: the parameter
    is a copy of [A] in an array of its own, the swap hands that array to
    [A], and the array [A] had is released with the parameter, once.  [A]
    keeps its elements, its occupied count and its capacity, and can be
    destroyed afterwards. *)
Theorem self_assignment h A :
  wf h A →
  ∃ A' h',
    copy_assign dflt max_alloc A A h = Ok (A', h')
    ∧ contents h' A' = contents h A
    ∧ count A' = count A ∧ capacity A' = capacity A
    ∧ wf h' A'
    ∧ (∀ l, ptr_ A = Some l → h' !! l = None)
    ∧ ∃ h'', SJCVector_dtor A' h' = Ok (tt, h'').
Proof.
  intros HA.
  destruct (copy_assign_spec h A A HA HA)
    as (A' & h' & Hrun & HA' & Hfr & Hc & Hl & Hs & Hh' & Hp').
  exists A', h'. split; [done|]. split; [done|].
  split; [unfold count; by rewrite Hl|]. split; [done|]. split; [done|].
  split.
  - intros l Hp. rewrite Hh', Hp. simpl. apply lookup_delete_eq.
  - unfold SJCVector_dtor, delete_array. rewrite Hp'.
    destruct (wf_inv _ _ HA') as (_ & _ & _ & [[? _]|(l & blk & ? & Hb & _)]);
      [congruence|]. simplify_eq. rewrite Hb. by eexists.
Qed.

(** [operator+] of the class over [unique_ptr].  For well-formed operands:
    when both capacities are non-zero and the last indices are equal, [operator+]
    returns a container in an array of its own with the last index and the
    capacity of the left operand and, in every slot up to the last index,
    the sum of the operands' slots; two empty containers of non-zero
    capacity are such a pair, and their sum is an empty container of the
    left operand's capacity.  When a capacity is 0 or the last indices
    differ it returns a default-constructed container.  Either way the
    operands keep their elements, and the result is empty whenever an
    operand is empty or the last indices differ.  The loop index is an
    [int]: the sum is taken for last indices below [INT_MAX]. *)
Theorem operator_plus_spec h A B :
  wf h A → wf h B →
  (capacity A ≠ 0 → capacity B ≠ 0 → last_ B = last_ A →
   last_ A < INT_MAX →
   ∃ R h',
     operator_plus dflt add max_alloc A B h = Ok (R, h')
     ∧ last_ R = last_ A ∧ capacity R = capacity A
     ∧ (∀ i, 0 ≤ i ≤ last_ A →
             ∃ a b, slot h A i = Some a ∧ slot h B i = Some b
                    ∧ slot h' R i = Some (add a b))
     ∧ wf h' R ∧ separate A R ∧ separate B R
     ∧ contents h' A = contents h A ∧ contents h' B = contents h B)
  ∧ (capacity A = 0 ∨ capacity B = 0 ∨ last_ B ≠ last_ A →
     1 ≤ max_alloc →
     ∃ R h',
       operator_plus dflt add max_alloc A B h = Ok (R, h')
       ∧ SJCVector_default dflt max_alloc h = Ok (R, h')
       ∧ count R = 0 ∧ capacity R = 1
       ∧ wf h' R ∧ separate A R ∧ separate B R
       ∧ contents h' A = contents h A ∧ contents h' B = contents h B)
  ∧ (∀ R h',
       operator_plus dflt add max_alloc A B h = Ok (R, h') →
       count A = 0 ∨ count B = 0 ∨ last_ B ≠ last_ A → count R = 0).
Proof.
  intros HA HB. split; [|split].
  - intros Hca Hcb Hl Hint. unfold capacity in *.
    destruct (operator_plus_sum h A B HA HB Hcb Hca Hl Hint)
      as (R & h' & Hrun & HR & Hfr & HlR & HsR & Hslots).
    exists R, h'. split; [done|]. split; [done|]. split; [done|].
    split; [done|]. split; [done|].
    destruct (frame_other _ _ _ _ A Hfr HA (separate_blank _ _)) as (_ & ? & ?).
    destruct (frame_other _ _ _ _ B Hfr HB (separate_blank _ _)) as (_ & ? & ?).
    done.
  - intros Hguard Hmax. unfold capacity in *.
    destruct (SJCVector_default_spec h Hmax)
      as (R & h' & Hrun & HR & Hfr & _ & HlR & HsR).
    exists R, h'.
    assert (operator_plus dflt add max_alloc A B h = Ok (R, h')) as Hplus.
    { unfold operator_plus.
      destruct (Z.eqb_spec (size_ B) 0); [done|].
      destruct (Z.eqb_spec (size_ A) 0); [done|].
      destruct (Z.eqb_spec (last_ B) (last_ A)); [|done].
      exfalso. destruct Hguard as [?|[?|?]]; done. }
    split; [done|]. split; [done|].
    split; [unfold count; lia|]. split; [done|]. split; [done|].
    destruct (frame_other _ _ _ _ A Hfr HA (separate_blank _ _)) as (_ & ? & ?).
    destruct (frame_other _ _ _ _ B Hfr HB (separate_blank _ _)) as (_ & ? & ?).
    done.
  - intros R h' Hrun Hempty.
    destruct (wf_inv _ _ HA) as (? & ? & ? & _).
    destruct (wf_inv _ _ HB) as (? & ? & ? & _).
    unfold operator_plus in Hrun.
    destruct (Z.eqb_spec (size_ B) 0) as [Hb|Hb];
      [|destruct (Z.eqb_spec (size_ A) 0) as [Ha|Ha];
        [|destruct (Z.eqb_spec (last_ B) (last_ A)) as [Hl|Hl]]];
      simpl in Hrun.
    1,2,4: unfold SJCVector_default in Hrun;
      apply initSJCVector_Ok in Hrun as (_ & _ & _ & Hl' & _); [|lia];
      unfold count; lia.
    unfold bind in Hrun.
    destruct (SJCVector_copy_spec h A HA) as (Hcopy & _).
    rewrite Hcopy in Hrun. simpl in Hrun.
    destruct (add_loop _ _ _ _ _ _) as [[[] h1]| |]; [|done|done].
    injection Hrun as <- <-. unfold count in *. simpl. lia.
Qed.

(** The constructors of the class over [unique_ptr].  A container
    constructed with a requested capacity [c] is empty and has capacity [c] itself, which is
    [max c 1] when [c >= 1] and 0 when [c = 0]; the default constructor
    requests 1.  The copy constructor gives the copy the capacity of its
    source, so a copy has capacity at least 1 when its source has. *)
Theorem construction_postcondition h :
  (∀ c, 0 ≤ c ≤ max_alloc →
     ∃ v h', SJCVector_sized dflt max_alloc c h = Ok (v, h')
             ∧ count v = 0 ∧ capacity v = c
             ∧ (1 ≤ c → capacity v = Z.max c 1)
             ∧ contents h' v = Some [] ∧ wf h' v)
  ∧ (∀ nm c, 0 ≤ c ≤ max_alloc →
     ∃ v h', SJCVector_named dflt max_alloc nm c h = Ok (v, h')
             ∧ count v = 0 ∧ capacity v = c ∧ name_ v = nm)
  ∧ (1 ≤ max_alloc →
     ∃ v h', SJCVector_default dflt max_alloc h = Ok (v, h')
             ∧ count v = 0 ∧ capacity v = 1)
  ∧ (∀ rhs, wf h rhs →
     ∃ v h', SJCVector_copy rhs h = Ok (v, h')
             ∧ count v = count rhs ∧ capacity v = capacity rhs).
Proof.
  split; [|split; [|split]].
  - intros c Hc. unfold SJCVector_sized.
    destruct (initSJCVector_spec h c EmptyString Hc) as (Hrun & Hwf & _ & Hcont).
    eexists _, _. split; [exact Hrun|]. unfold count, capacity. simpl.
    repeat split; try done. lia.
  - intros nm c Hc. unfold SJCVector_named.
    destruct (initSJCVector_spec h c nm Hc) as (Hrun & _).
    eexists _, _. split; [exact Hrun|]. done.
  - intros Hmax.
    destruct (SJCVector_default_spec h Hmax)
      as (v & h' & Hrun & _ & _ & _ & Hl & Hs).
    exists v, h'. unfold count, capacity. split; [done|]. lia.
  - intros rhs Hwf.
    destruct (SJCVector_copy_spec h rhs Hwf) as (Hrun & _).
    eexists _, _. split; [exact Hrun|]. done.
Qed.
End Facts.
End ManagedFacts.

(** ** The class over an owning raw pointer *)

Module RawFacts.
Import Raw.
Section Facts.
Context {T : Type}.
Variable dflt : T.
Variable add : T → T → T.
Variable of_int : Z → T.
Variable max_alloc : Z.
Hypothesis max_alloc_range : 0 ≤ max_alloc ≤ LLONG_MAX.

Implicit Types (h : heap T) (v this rhs : SJCVector) (cs blk : list (option T)).

Local Abbreviation wf := (Raw.wf (T:=T) max_alloc).
Local Abbreviation resize := (Raw.resize (T:=T) max_alloc).
Local Abbreviation push_back := (Raw.push_back of_int max_alloc).
Local Abbreviation SJCVector_copy := (Raw.SJCVector_copy (T:=T) max_alloc).

Lemma raw_wf_inv h v :
  wf h v →
  -1 ≤ last_ v ∧ last_ v + 1 ≤ size_ v ∧ size_ v ≤ max_alloc
  ∧ ((ptr_ v = None ∧ size_ v = 0)
     ∨ ∃ l blk, ptr_ v = Some l ∧ h !! l = Some blk
                ∧ Z.of_nat (length blk) = size_ v
                ∧ forallb is_init (take (Z.to_nat (count v)) blk) = true).
Proof.
  unfold Raw.wf, wfb. rewrite !andb_true_iff.
  intros [[[H1 H2] H3] H4].
  apply Z.leb_le in H1, H2, H3. repeat split; try done.
  destruct (ptr_ v) as [l|].
  - right. destruct (h !! l) as [blk|] eqn:Hl; [|done].
    apply andb_true_iff in H4 as [H4 H5]. apply Z.eqb_eq in H4.
    exists l, blk. auto.
  - left. apply Z.eqb_eq in H4. auto.
Qed.

Lemma raw_wf_intro h v l blk :
  -1 ≤ last_ v → last_ v + 1 ≤ size_ v → size_ v ≤ max_alloc →
  ptr_ v = Some l → h !! l = Some blk →
  Z.of_nat (length blk) = size_ v →
  forallb is_init (take (Z.to_nat (count v)) blk) = true →
  wf h v.
Proof.
  intros H1 H2 H3 Hp Hl Hlen Hinit. unfold Raw.wf, wfb.
  rewrite Hp, Hl, Hinit.
  rewrite !andb_true_iff, !Z.leb_le, Z.eqb_eq. done.
Qed.

Lemma raw_wf_cells h v :
  wf h v →
  Z.of_nat (length (cells h (ptr_ v))) = size_ v
  ∧ forallb is_init (take (Z.to_nat (count v)) (cells h (ptr_ v))) = true.
Proof.
  intros (H1 & H2 & H3 & [[Hp Hs]|(l & blk & Hp & Hl & Hlen & Hinit)])%raw_wf_inv;
    unfold cells; rewrite Hp.
  - simpl. split; [lia|]. by rewrite take_nil.
  - by rewrite Hl.
Qed.

Lemma raw_contents_wf h v :
  wf h v →
  contents h v = read_cells (take (Z.to_nat (count v)) (cells h (ptr_ v))).
Proof.
  intros Hwf. destruct (raw_wf_inv _ _ Hwf) as (H1 & H2 & H3 & _).
  destruct (raw_wf_cells _ _ Hwf) as [Hlen _].
  unfold contents, count in *.
  destruct (Z.leb_spec 0 (last_ v + 1)); [|lia].
  destruct (Z.leb_spec (last_ v + 1) (Z.of_nat (length (cells h (ptr_ v)))));
    [done|lia].
Qed.

Lemma raw_wf_contents h v : wf h v → ∃ vs : list T, contents h v = Some vs.
Proof.
  intros Hwf. destruct (raw_wf_cells _ _ Hwf) as [_ Hinit].
  apply all_init_values in Hinit as [vs Hvs]. exists vs.
  by rewrite raw_contents_wf, Hvs, read_cells_fmap.
Qed.

(** *** [resize] *)

(** [resize] to any capacity that can be allocated: a new array that starts
    with the occupied cells that fit, and the cursor clamped to the new
    capacity. *)
Lemma raw_resize_spec h this n :
  wf h this → 0 ≤ n →
  (if n =? 0 then 1 else n) ≤ max_alloc →
  ∃ l' blk',
    h !! l' = None
    ∧ resize n this h
      = Ok (mkSJCVector (Some l') (if n =? 0 then 1 else n) (first_ this)
              (Z.min (last_ this) ((if n =? 0 then 1 else n) - 1))
              (name_ this),
            release (ptr_ this) (<[l' := blk']> h))
    ∧ Z.of_nat (length blk') = (if n =? 0 then 1 else n)
    ∧ take (Z.to_nat (Z.min (count this) (if n =? 0 then 1 else n))) blk'
      = take (Z.to_nat (Z.min (count this) (if n =? 0 then 1 else n)))
          (cells h (ptr_ this)).
Proof.
  intros Hwf Hn0 Hmax.
  destruct (raw_wf_inv _ _ Hwf) as (H1 & H2 & H3 & Hbuf).
  set (n' := if n =? 0 then 1 else n) in *.
  assert (0 < n') as Hn' by (subst n'; destruct (Z.eqb_spec n 0); lia).
  set (l' := fresh (dom h)).
  assert (h !! l' = None) as Hfresh by apply fresh_unallocated.
  exists l'. unfold Raw.resize, bind, new_array. fold n'.
  rewrite alloc_array_ok by lia. fold l'. simpl.
  destruct (Z.leb_spec 0 (last_ this)) as [Hl|Hl].
  - (* there is data to copy *)
    destruct Hbuf as [[_ ?]|(l & blk & Hp & Hb & Hlen & Hinit)]; [lia|].
    assert (l ≠ l') as Hne by (intros ->; congruence).
    rewrite to_size_t_small by (unfold SIZE_MOD, LLONG_MAX in *; lia).
    set (this1 := if n' <=? last_ this
                  then set_last_ (to_ll (to_size_t (n' - 1))) this else this).
    assert (ptr_ this1 = Some l ∧ last_ this1 = Z.min (last_ this) (n' - 1)
            ∧ first_ this1 = first_ this ∧ name_ this1 = name_ this)
      as (Hp1 & Hl1 & Hf1 & Hn1).
    { subst this1. destruct (Z.leb_spec n' (last_ this)); simpl.
      - rewrite to_size_t_small by (unfold SIZE_MOD, LLONG_MAX in *; lia).
        rewrite to_ll_small by lia. repeat split; try done. lia.
      - repeat split; try done. lia. }
    destruct (Z.ltb_spec 0 n'); [|lia].
    rewrite ll_succ_ok by lia. simpl.
    rewrite Hp1, Hl1.
    rewrite (std_copy_ok _ l l' blk (replicate (Z.to_nat n') None)).
    + simpl. unfold delete_array. rewrite Hp1.
      rewrite insert_insert_eq, lookup_insert_ne, Hb by done. simpl.
      eexists. split; [done|]. split.
      { unfold set_size_, set_ptr_. simpl. rewrite Hp, Hf1, Hl1, Hn1. done. }
      assert (Z.min (count this) n' = Z.min (last_ this) (n' - 1) + 1) as ->
        by (unfold count; lia).
      split.
      * rewrite length_app, length_take, length_drop, length_replicate. lia.
      * assert (cells h (ptr_ this) = blk) as ->
          by (unfold cells; by rewrite Hp, Hb).
        rewrite take_app_le by (rewrite length_take; lia).
        rewrite take_take. f_equal. lia.
    + by rewrite lookup_insert_ne.
    + by rewrite lookup_insert_eq.
    + done.
    + lia.
    + lia.
    + rewrite length_replicate. lia.
    + eapply (all_init_take (Z.to_nat (Z.min (last_ this) (n' - 1) + 1)))
        in Hinit.
      rewrite take_take in Hinit.
      replace (Z.to_nat (Z.min (last_ this) (n' - 1) + 1)
                 `min` Z.to_nat (count this))%nat
        with (Z.to_nat (Z.min (last_ this) (n' - 1) + 1)) in Hinit
        by (unfold count; lia).
      done.
  - (* nothing to copy *)
    simpl. exists (replicate (Z.to_nat n') None).
    split; [done|]. split.
    + unfold delete_array, release, set_size_, set_ptr_. simpl.
      replace (Z.min (last_ this) (n' - 1)) with (last_ this) by lia.
      destruct Hbuf as [[-> _]|(l & blk & -> & Hb & _)]; [done|].
      assert (l ≠ l') as Hne by (intros ->; congruence).
      by rewrite lookup_insert_ne, Hb.
    + rewrite length_replicate. split; [lia|].
      assert (Z.min (count this) n' = 0) as -> by (unfold count; lia). done.
Qed.

(** The container has given up its array for one not allocated before. *)
Lemma raw_wf_moved h this l' blk' n' last' fst' nm' :
  wf h this → h !! l' = None →
  Z.of_nat (length blk') = n' →
  forallb is_init (take (Z.to_nat (last' + 1)) blk') = true →
  n' ≤ max_alloc → -1 ≤ last' → last' + 1 ≤ n' →
  let this' := mkSJCVector (Some l') n' fst' last' nm' in
  let h' := release (ptr_ this) (<[l' := blk']> h) in
  h' !! l' = Some blk' ∧ wf h' this' ∧ frame h this h' this'.
Proof.
  intros Hwf Hfresh Hlen Hinit Hmax Hl1 Hl2 this' h'.
  assert (h' !! l' = Some blk') as Hl'.
  { subst h'. unfold release.
    destruct (raw_wf_inv _ _ Hwf) as (_ & _ & _ & [[-> _]|(l & blk & -> & Hb & _)]).
    - by rewrite lookup_insert_eq.
    - assert (l ≠ l') by (intros ->; congruence).
      by rewrite lookup_delete_ne, lookup_insert_eq. }
  split; [done|]. split.
  - eapply raw_wf_intro; eauto.
  - split.
    + intros l Hne [blk Hb]. subst h'. unfold release.
      assert (l ≠ l') by (intros ->; congruence).
      destruct (ptr_ this) as [l0|].
      * assert (l0 ≠ l) by congruence.
        by rewrite lookup_delete_ne, lookup_insert_ne.
      * by rewrite lookup_insert_ne.
    + intros l [= <-]. by right.
Qed.

(** The raw class copies [last_ + 1] elements after clamping [last_]:
    resized to [n] below its occupied count, the container holds its first
    [n] elements, in order, in capacity [n], with the last index at
    [n - 1]. *)
Lemma raw_resize_shrink h this n (vs : list T) :
  wf h this → contents h this = Some vs → 0 < n < count this →
  ∃ this' h',
    resize n this h = Ok (this', h')
    ∧ count this' = n ∧ last_ this' = n - 1 ∧ capacity this' = n
    ∧ contents h' this' = Some (take (Z.to_nat n) vs)
    ∧ wf h' this'.
Proof.
  intros Hwf Hvs Hn. destruct (raw_wf_inv _ _ Hwf) as (H1 & H2 & H3 & _).
  destruct (raw_resize_spec h this n Hwf) as (l' & blk' & Hfresh & Hrun & Hlen & Htake);
    [lia| |].
  { destruct (Z.eqb_spec n 0); unfold count in *; lia. }
  destruct (Z.eqb_spec n 0) as [?|_]; [lia|].
  replace (Z.min (last_ this) (n - 1)) with (n - 1) in Hrun
    by (unfold count in *; lia).
  replace (Z.min (count this) n) with n in Htake by lia.
  destruct (contents_cells h this vs Hvs) as [Hlenvs Hcells].
  assert (take (Z.to_nat n) blk' = Some <$> take (Z.to_nat n) vs) as Hblk.
  { rewrite Htake, fmap_take, <- Hcells, take_take. f_equal. lia. }
  destruct (raw_wf_moved h this l' blk' n (n - 1) (first_ this) (name_ this))
    as (Hl' & Hwf' & _);
    [done|done|done| |unfold count in *; lia|lia|lia|].
  { replace (n - 1 + 1) with n by lia. rewrite Hblk.
    apply all_init_values. by eexists. }
  eexists _, _. split; [exact Hrun|].
  unfold count, capacity. simpl. split; [lia|]. split; [done|]. split; [done|].
  split; [|done].
  eapply contents_intro; [done|exact Hl'| |].
  - rewrite length_take. unfold count in *. simpl. lia.
  - rewrite length_take.
    replace (Z.to_nat n `min` length vs)%nat with (Z.to_nat n) by lia. done.
Qed.

(** *** Copy construction *)

(** The copy has the occupied count of its source as its capacity: it is
    full, and of capacity 0 when the source is empty. *)
Lemma raw_copy_spec h rhs :
  wf h rhs →
  ∃ v h',
    SJCVector_copy rhs h = Ok (v, h')
    ∧ capacity v = count rhs ∧ count v = count rhs
    ∧ contents h' v = contents h rhs
    ∧ wf h' v ∧ frame h (mkSJCVector None 0 None 0 EmptyString) h' v.
Proof.
  intros Hwf. destruct (raw_wf_inv _ _ Hwf) as (H1 & H2 & H3 & Hbuf).
  destruct (raw_wf_cells _ _ Hwf) as [Hlen Hinit].
  set (l' := fresh (dom h)).
  assert (h !! l' = None) as Hfresh by apply fresh_unallocated.
  set (n := last_ rhs + 1).
  set (blk' := take (Z.to_nat n) (cells h (ptr_ rhs))).
  assert (Z.of_nat (length blk') = n) as Hlen'.
  { subst blk'. rewrite length_take. unfold count in *. lia. }
  assert (SJCVector_copy rhs h
          = Ok (mkSJCVector (Some l') n None (last_ rhs) "copy",
                <[l' := blk']> h)) as Hrun.
  { unfold Raw.SJCVector_copy, bind, new_array.
    rewrite ll_succ_ok by lia. fold n.
    destruct (Z.ltb_spec n 0); [lia|].
    rewrite to_size_t_small by (unfold SIZE_MOD, LLONG_MAX in *; lia).
    rewrite alloc_array_ok by lia. fold l'. simpl.
    destruct (Z.eq_dec n 0) as [Hz|Hnz].
    - unfold std_copy. destruct (Z.eqb_spec n 0); [|lia].
      subst blk'. rewrite Hz. done.
    - destruct Hbuf as [[_ ?]|(l & blk & Hp & Hb & Hlenb & Hinitb)]; [lia|].
      assert (l ≠ l') by (intros ->; congruence).
      rewrite Hp.
      rewrite (std_copy_ok _ l l' blk (replicate (Z.to_nat n) None)).
      + simpl. rewrite insert_insert_eq. unfold ret. do 3 f_equal.
        subst blk'. unfold cells. rewrite Hp, Hb. simpl.
        rewrite drop_ge by (rewrite length_replicate; lia).
        by rewrite app_nil_r.
      + by rewrite lookup_insert_ne.
      + by rewrite lookup_insert_eq.
      + done.
      + lia.
      + lia.
      + rewrite length_replicate. lia.
      + done. }
  assert ((<[l' := blk']> h) !! l' = Some blk') as Hl'
    by (by rewrite lookup_insert_eq).
  eexists _, _. split; [exact Hrun|].
  unfold capacity, count. simpl. split; [done|]. split; [done|].
  assert (wf (<[l':=blk']> h) (mkSJCVector (Some l') n None (last_ rhs) "copy"))
    as Hwf'.
  { eapply raw_wf_intro; simpl; try done; try lia.
    unfold count. simpl. subst blk'. rewrite take_take.
    replace (Z.to_nat (last_ rhs + 1) `min` Z.to_nat n)%nat
      with (Z.to_nat (count rhs)) by (unfold count; lia). done. }
  split.
  { rewrite !raw_contents_wf by done. unfold count at 1. simpl.
    rewrite Hl'. simpl. subst blk'. rewrite take_take.
    f_equal. f_equal. unfold count. lia. }
  split; [done|]. split.
  - intros l _ [blk Hb].
    assert (l' ≠ l) by (intros ->; congruence).
    by rewrite lookup_insert_ne.
  - intros l [= <-]. by right.
Qed.

(** *** [push_back] *)

Lemma raw_must_grow_full h this :
  wf h this →
  must_grow this h = Ok (bool_decide (size_ this = count this), h).
Proof.
  intros (H1 & H2 & H3 & _)%raw_wf_inv. unfold must_grow, bind.
  rewrite ll_succ_ok by lia. unfold ret. do 2 f_equal.
  rewrite to_size_t_small by (unfold SIZE_MOD, LLONG_MAX in *; lia).
  unfold count. case_bool_decide as Hd.
  - rewrite Hd, Z.eqb_refl. done.
  - destruct (Z.eqb_spec (size_ this) (last_ this + 1)); [done|].
    destruct (Z.eqb_spec (size_ this) 0); [lia|done].
Qed.

Lemma raw_has_room_free h this :
  wf h this →
  has_room this h = Ok (bool_decide (count this < size_ this), h).
Proof.
  intros (H1 & H2 & H3 & _)%raw_wf_inv. unfold has_room, bind.
  rewrite ll_succ_ok by lia. unfold ret. do 2 f_equal.
  rewrite to_size_t_small by (unfold SIZE_MOD, LLONG_MAX in *; lia).
  unfold count.
  case_bool_decide; destruct (Z.ltb_spec (last_ this + 1) (size_ this));
    lia || done.
Qed.

(** On the raw class too [push_back] stores the value behind the occupied
    elements, after growing to [2 * size_ + 1] when the container was
    full. *)
Lemma raw_push_back_spec h this x (vs : list T) :
  wf h this → contents h this = Some vs →
  count this < size_ this ∨ 2 * size_ this + 1 ≤ max_alloc →
  ∃ this' h',
    push_back x this h = Ok (this', h')
    ∧ wf h' this'
    ∧ contents h' this' = Some (vs ++ [of_int x])
    ∧ last_ this' = last_ this + 1
    ∧ size_ this' = (if bool_decide (size_ this = count this)
                     then 2 * size_ this + 1 else size_ this).
Proof.
  intros Hwf Hvs Hcase. destruct (raw_wf_inv _ _ Hwf) as (H1 & H2 & H3 & Hbuf).
  destruct (contents_cells _ _ _ Hvs) as [Hlen Htake].
  assert (Z.to_nat (last_ this + 1) = length vs) as Hn
    by (unfold count in *; lia).
  unfold Raw.push_back, bind. rewrite raw_must_grow_full by done.
  case_bool_decide as Hfull.
  - (* full: grow, then store *)
    destruct Hcase as [?|Hmax]; [lia|].
    unfold resize_geometric.
    rewrite to_size_t_small by (unfold SIZE_MOD, LLONG_MAX in *; lia).
    destruct (raw_resize_spec h this (size_ this * 2 + 1))
      as (l' & blk' & Hfresh & -> & Hlen' & Htake'); [done|lia| |].
    { destruct (Z.eqb_spec (size_ this * 2 + 1) 0); lia. }
    destruct (Z.eqb_spec (size_ this * 2 + 1) 0) as [?|_]; [lia|].
    replace (Z.min (last_ this) (size_ this * 2 + 1 - 1)) with (last_ this)
      by lia.
    replace (Z.min (count this) (size_ this * 2 + 1)) with (count this)
      in Htake' by (unfold count; lia).
    set (this1 := mkSJCVector (Some l') (size_ this * 2 + 1) (first_ this)
                    (last_ this) (name_ this)).
    destruct (raw_wf_moved h this l' blk' (size_ this * 2 + 1) (last_ this)
                (first_ this) (name_ this)) as (Hl' & Hwf1 & _);
      [done|done|done| |lia|lia|lia|].
    { fold (count this). rewrite Htake', Htake.
      apply all_init_values. by eexists. }
    fold this1 in Hwf1.
    rewrite raw_has_room_free by done.
    rewrite bool_decide_eq_true_2 by (unfold count; simpl; lia).
    rewrite ll_succ_ok by (simpl; lia). simpl.
    rewrite (store_ok _ l' blk') by (done || lia). simpl.
    eexists _, _. split; [done|].
    assert (<[l':=<[Z.to_nat (last_ this + 1):=Some (of_int x)]> blk']>
              (release (ptr_ this) (<[l':=blk']> h))
            = release (ptr_ this)
                (<[l':=<[Z.to_nat (last_ this + 1):=Some (of_int x)]> blk']> h))
      as ->.
    { unfold release. destruct (ptr_ this) as [l|] eqn:Hp.
      - destruct Hbuf as [[? _]|(l0 & blk & ? & Hb & _)]; [congruence|].
        simplify_eq. assert (l0 ≠ l') by (intros ->; congruence).
        rewrite <- delete_insert_ne by done. by rewrite insert_insert_eq.
      - by rewrite insert_insert_eq. }
    assert (take (S (length vs))
              (<[Z.to_nat (last_ this + 1):=Some (of_int x)]> blk')
            = Some <$> (vs ++ [of_int x])) as Hpush.
    { rewrite Hn. apply take_push; [|lia].
      rewrite <- Hn. fold (count this). by rewrite Htake', Htake. }
    destruct (raw_wf_moved h this l'
                (<[Z.to_nat (last_ this + 1):=Some (of_int x)]> blk')
                (size_ this * 2 + 1) (last_ this + 1)
                (first_ this) (name_ this)) as (Hl2 & Hwf2 & _);
      [done|done| | |lia|lia|lia|].
    { by rewrite length_insert. }
    { replace (Z.to_nat (last_ this + 1 + 1)) with (S (length vs)) by lia.
      rewrite Hpush. apply all_init_values. by eexists. }
    split; [done|]. split; [|simpl; lia].
    eapply contents_intro; [done|exact Hl2| |].
    + rewrite length_app. simpl. unfold count in *. simpl. lia.
    + rewrite length_app. simpl. by rewrite Nat.add_1_r.
  - (* room left: store in place *)
    assert (count this < size_ this) as Hroom by (unfold count in *; lia).
    change (ret this h) with (Ok (this, h)). cbv beta iota.
    rewrite raw_has_room_free by done.
    rewrite bool_decide_eq_true_2 by done.
    rewrite ll_succ_ok by lia. simpl.
    destruct Hbuf as [[_ ?]|(l & blk & Hp & Hb & Hlenb & Hinit)];
      [unfold count in *; lia|].
    rewrite Hp. rewrite (store_ok _ l blk) by (done || unfold count in *; lia).
    simpl. eexists _, _. split; [done|].
    assert (take (S (length vs))
              (<[Z.to_nat (last_ this + 1):=Some (of_int x)]> blk)
            = Some <$> (vs ++ [of_int x])) as Hpush.
    { rewrite Hn. apply take_push; [|unfold count in *; lia].
      rewrite <- Hn. fold (count this).
      unfold cells in Htake. by rewrite Hp, Hb in Htake. }
    split.
    { eapply (raw_wf_intro _ _ l
                (<[Z.to_nat (last_ this + 1):=Some (of_int x)]> blk));
        simpl; try done; try (unfold count in *; lia).
      - by rewrite lookup_insert_eq.
      - by rewrite length_insert.
      - unfold count. simpl.
        replace (Z.to_nat (last_ this + 1 + 1)) with (S (length vs)) by lia.
        rewrite Hpush. apply all_init_values. by eexists. }
    split; [|done].
    eapply contents_intro; [by simpl|by rewrite lookup_insert_eq| |].
    + rewrite length_app. simpl. unfold count in *. simpl. lia.
    + rewrite length_app. simpl. by rewrite Nat.add_1_r.
Qed.
End Facts.
End RawFacts.

(** ** The demonstration program *)

Module DemoFacts.
Import Managed Demo.

Lemma LLONG_MAX_range : 0 ≤ LLONG_MAX ≤ LLONG_MAX.
Proof. unfold LLONG_MAX. lia. Qed.

Lemma three_state : three = Ok (three_v, three_h).
Proof. vm_compute. reflexivity. Qed.

(** The two values the demonstration pushes, on a container of
    capacity 1. *)
Lemma push_back_growth_witness :
  ∃ v0 h0 v h',
    SJCVector_sized 0 LLONG_MAX 1 ∅ = Ok (v0, h0)
    ∧ push_all 0 LLONG_MAX [3; 56] v0 h0 = Ok (v, h')
    ∧ count v = 2 ∧ 2 ≤ capacity v ∧ contents h' v = Some [3; 56].
Proof.
  pose proof (ManagedFacts.push_back_growth (T:=Z) 0 LLONG_MAX LLONG_MAX_range)
    as (_ & Hok & Htot).
  destruct (Htot ∅ 1 [3; 56]) as (v0 & h0 & v & h' & Hc & Hp).
  { unfold LLONG_MAX. lia. }
  { simpl. unfold LLONG_MAX. lia. }
  exists v0, h0, v, h'. split; [exact Hc|]. split; [exact Hp|].
  apply (Hok ∅ 1 [3; 56] v0 h0 v h'); [lia|exact Hc|exact Hp].
Defined.

Lemma three_wf : Managed.wf LLONG_MAX two_h three_v.
Proof. vm_compute. reflexivity. Qed.

Lemma two_wf : Managed.wf LLONG_MAX two_h two_v.
Proof. vm_compute. reflexivity. Qed.

Lemma three_two_separate : separate three_v two_v.
Proof. intros l H1 H2. simpl in *. congruence. Qed.

Lemma two_three_separate : separate two_v three_v.
Proof. intros l H1 H2. simpl in *. congruence. Qed.

(** The sum of a container with itself, and a pair of different last
    indices. *)
Lemma operator_plus_spec_witness :
  (∃ R h', operator_plus 0 Z.add LLONG_MAX three_v three_v two_h = Ok (R, h')
           ∧ last_ R = 2 ∧ capacity R = 3)
  ∧ (∃ R h', operator_plus 0 Z.add LLONG_MAX three_v two_v two_h = Ok (R, h')
             ∧ count R = 0 ∧ capacity R = 1).
Proof.
  split.
  - destruct (ManagedFacts.operator_plus_spec 0 Z.add LLONG_MAX LLONG_MAX_range
                two_h three_v three_v three_wf three_wf) as (Hsum & _ & _).
    destruct Hsum as (R & h' & Hrun & Hl & Hc & _).
    { vm_compute. discriminate. }
    { vm_compute. discriminate. }
    { reflexivity. }
    { vm_compute. reflexivity. }
    exists R, h'. split; [exact Hrun|]. split; [exact Hl|exact Hc].
  - destruct (ManagedFacts.operator_plus_spec 0 Z.add LLONG_MAX LLONG_MAX_range
                two_h three_v two_v three_wf two_wf) as (_ & Hdef & _).
    destruct Hdef as (R & h' & Hrun & _ & Hc & Hs & _).
    { right. right. vm_compute. discriminate. }
    { vm_compute. discriminate. }
    exists R, h'. split; [exact Hrun|]. split; [exact Hc|exact Hs].
Defined.

Lemma n_state : run 0 Z.add LLONG_MAX n_ops ∅ ∅ = Ok (n_objs, n_h).
Proof. vm_compute. reflexivity. Qed.

Lemma n_world : wf_world LLONG_MAX n_objs n_h.
Proof.
  eapply (ManagedFacts.run_preserves 0 Z.add LLONG_MAX LLONG_MAX_range);
    [apply ManagedFacts.wf_world_empty|exact n_state].
Qed.

(** The demonstration runs to its end. *)
Lemma main_returns : returned (run 0 Z.add LLONG_MAX main_ops ∅ ∅) = true.
Proof. vm_compute. reflexivity. Qed.

(** A copy [m] of the container [n] that holds [3; 56]. *)
Lemma copy_independence_witness :
  ∃ objs1 h1 B,
    step 0 Z.add LLONG_MAX (CopyConstruct "m" "n") n_objs n_h = Ok (objs1, h1)
    ∧ objs1 !! "m" = Some B ∧ objs1 !! "n" = Some n_v
    ∧ count B = count n_v ∧ contents h1 B = contents n_h n_v
    ∧ contents h1 n_v = contents n_h n_v.
Proof.
  destruct (ManagedFacts.copy_independence 0 Z.add LLONG_MAX LLONG_MAX_range
              n_objs n_h "n" "m" n_v (CopyConstruct "m" "n") n_world)
    as (objs1 & h1 & B & Hstep & Hb & Ha & Hn & HcB & HcA & _).
  { vm_compute. reflexivity. }
  { discriminate. }
  { left. split; [reflexivity|]. vm_compute. reflexivity. }
  exists objs1, h1, B.
  split; [exact Hstep|]. split; [exact Hb|]. split; [exact Ha|].
  split; [exact Hn|]. split; [exact HcB|exact HcA].
Defined.

(** The container of three elements moved from, into a new container and
    into the empty one beside it. *)
Lemma move_correctness_witness :
  (∀ B A', SJCVector_move three_v = (B, A') →
           contents two_h B = Some [1; 2; 3] ∧ count A' = 0 ∧ capacity A' = 0)
  ∧ (∃ B A' h', move_assign two_v three_v two_h = Ok ((B, A'), h')
                ∧ contents h' B = Some [1; 2; 3]
                ∧ count A' = 0 ∧ capacity A' = 0).
Proof.
  destruct (ManagedFacts.move_correctness LLONG_MAX LLONG_MAX_range
              two_h three_v three_wf) as [Hctor Hassign].
  split.
  - intros B A' Hm.
    destruct (Hctor B A' Hm) as (Hc & _ & _ & _ & Hn & Hs & _).
    split; [exact Hc|]. split; [exact Hn|exact Hs].
  - destruct (Hassign two_v two_wf two_three_separate)
      as (B & A' & h' & Hrun & _ & Hc & _ & _ & _ & Hn & Hs & _).
    exists B, A', h'. split; [exact Hrun|]. split; [exact Hc|].
    split; [exact Hn|exact Hs].
Defined.

(** The container of three elements assigned to itself. *)
Lemma self_assignment_witness :
  ∃ A' h', copy_assign 0 LLONG_MAX three_v three_v two_h = Ok (A', h')
           ∧ contents h' A' = Some [1; 2; 3] ∧ count A' = 3.
Proof.
  destruct (ManagedFacts.self_assignment 0 LLONG_MAX LLONG_MAX_range
              two_h three_v three_wf) as (A' & h' & Hrun & Hc & Hn & _).
  exists A', h'. split; [exact Hrun|]. split; [exact Hc|exact Hn].
Defined.

(** The container [n] after its two appends. *)
Lemma state_invariant_witness : 0 ≤ last_ n_v + 1 ≤ size_ n_v.
Proof.
  apply (ManagedFacts.state_invariant 0 Z.add LLONG_MAX LLONG_MAX_range
           n_ops n_objs n_h "n" n_v).
  - vm_compute. reflexivity.
  - vm_compute. reflexivity.
Defined.

(** A requested capacity of 5, and a copy of the container of three
    elements. *)
Lemma construction_postcondition_witness :
  (∃ v h', SJCVector_sized 0 LLONG_MAX 5 two_h = Ok (v, h')
           ∧ count v = 0 ∧ capacity v = 5)
  ∧ (∃ v h', SJCVector_copy 0 LLONG_MAX three_v two_h = Ok (v, h')
             ∧ capacity v = 3).
Proof.
  destruct (ManagedFacts.construction_postcondition 0 LLONG_MAX
              LLONG_MAX_range two_h) as (Hsized & _ & _ & Hcopy).
  split.
  - destruct (Hsized 5) as (v & h' & Hrun & Hn & Hc & _).
    { vm_compute. split; discriminate. }
    exists v, h'. split; [exact Hrun|]. split; [exact Hn|exact Hc].
  - destruct (Hcopy three_v three_wf) as (v & h' & Hrun & _ & Hc).
    exists v, h'. split; [exact Hrun|exact Hc].
Defined.

(** A full container: the value is stored after the growth. *)
Lemma push_back_inserts_witness :
  ∃ this' h', push_back 0 LLONG_MAX 4 three_v two_h = Ok (this', h')
              ∧ last_ this' = 3 ∧ slot h' this' (last_ this') = Some 4.
Proof.
  destruct (ManagedFacts.push_back_inserts 0 LLONG_MAX LLONG_MAX_range
              two_h three_v 4 three_wf) as (_ & Hins & Htot).
  destruct Htot as (this' & h' & Hrun).
  { right. vm_compute. discriminate. }
  destruct (Hins this' h' Hrun) as (Hl & Hslot & _).
  exists this', h'. split; [exact Hrun|]. split; [exact Hl|exact Hslot].
Defined.

(** C9 (as the code has it).  The container starts empty with capacity 1;
    the first append fills the one slot and does not grow it; the second
    finds it full and grows it from 1 to [2 * 1 + 1 = 3]: two elements,
    [3; 56], capacity 3. *)
Theorem main_trace :
  ∃ n0 h0 n1 h1 n2 h2,
    nigel0 = Ok (n0, h0) ∧ count n0 = 0 ∧ capacity n0 = 1
    ∧ nigel1 = Ok (n1, h1) ∧ count n1 = 1 ∧ capacity n1 = 1
    ∧ contents h1 n1 = Some [3]
    ∧ nigel2 = Ok (n2, h2) ∧ count n2 = 2 ∧ capacity n2 = 3
    ∧ contents h2 n2 = Some [3; 56]
    ∧ capacity n2 = 2 * capacity n1 + 1.
Proof.
  eexists _, _, _, _, _, _.
  repeat (split; [vm_compute; reflexivity|]). vm_compute. reflexivity.
Qed.

(** The first append does not grow the container of capacity 1 with nothing
    occupied. *)
Lemma first_append_grows_counterexample :
  ¬ (∀ n0 h0 n1 h1,
       nigel0 = Ok (n0, h0) → nigel1 = Ok (n1, h1) →
       count n0 = 0 ∧ capacity n0 = 1 ∧ capacity n0 < capacity n1).
Proof.
  intros Hgrow.
  destruct (Hgrow (mkSJCVector (Some 1%positive) 1 (Some 0) (-1) "nigel")
              {[ 1%positive := [Some 0] ]}
              (mkSJCVector (Some 1%positive) 1 (Some 0) 0 "nigel")
              {[ 1%positive := [Some 3] ]}) as (_ & _ & Hlt).
  - vm_compute. reflexivity.
  - vm_compute. reflexivity.
  - vm_compute in Hlt. discriminate.
Qed.

(** C3 on the managed class: a container of the three elements
    [1; 2; 3] in capacity 3 is resized to 2; the copy of [size_ = 3]
    elements runs past the end of the new array of 2. *)
Theorem resize_shrink_overflows :
  (∃ v h, three = Ok (v, h)
          ∧ count v = 3 ∧ capacity v = 3 ∧ contents h v = Some [1; 2; 3]
          ∧ resize 0 LLONG_MAX 2 v h = UB)
  ∧ three_resized = UB.
Proof.
  split; [|vm_compute; reflexivity].
  exists three_v, three_h. split; [exact three_state|].
  repeat (split; [vm_compute; reflexivity|]). vm_compute. reflexivity.
Qed.

(** The constructor asked for capacity 0 delivers capacity 0, not 1; and on
    the raw class the copy of an empty container of capacity 1 has
    capacity 0. *)
Lemma capacity_zero_counterexample :
  (∃ v h', SJCVector_sized 0 LLONG_MAX 0 (∅ : heap Z) = Ok (v, h')
           ∧ count v = 0 ∧ capacity v = 0 ∧ capacity v ≠ Z.max 0 1)
  ∧ (∃ e he v h', raw_empty = Ok (e, he) ∧ capacity e = 1 ∧ count e = 0
                  ∧ raw_empty_copy = Ok (v, h')
                  ∧ capacity v = 0 ∧ ¬ 1 ≤ capacity v).
Proof.
  split.
  - eexists _, _. split; [vm_compute; reflexivity|].
    repeat (split; [vm_compute; reflexivity|]). vm_compute. discriminate.
  - eexists _, _, _, _. split; [vm_compute; reflexivity|].
    repeat (split; [vm_compute; reflexivity|]). vm_compute. intros H. by apply H.
Qed.

(** Two empty containers of capacity 2: both are empty, yet the result is
    not the default-constructed container, which has capacity 1, but an
    empty copy of the left operand with capacity 2. *)
Lemma both_empty_counterexample :
  ∃ R h' D hD,
    count two_v = 0
    ∧ operator_plus 0 Z.add LLONG_MAX two_v two_v two_h = Ok (R, h')
    ∧ SJCVector_default 0 LLONG_MAX two_h = Ok (D, hD)
    ∧ capacity D = 1 ∧ capacity R = 2 ∧ capacity R ≠ capacity D.
Proof.
  eexists _, _, _, _. split; [vm_compute; reflexivity|].
  split; [vm_compute; reflexivity|].
  split; [vm_compute; reflexivity|].
  split; [vm_compute; reflexivity|].
  split; [vm_compute; reflexivity|]. vm_compute. discriminate.
Qed.

(** The raw class shrinks the same container to its first two elements. *)
Lemma raw_resize_shrinks :
  ∃ v h v' h',
    raw_three = Ok (v, h) ∧ contents h v = Some [1; 2; 3]
    ∧ Raw.resize LLONG_MAX 2 v h = Ok (v', h')
    ∧ count v' = 2 ∧ last_ v' = 1 ∧ contents h' v' = Some [1; 2].
Proof.
  eexists _, _, _, _. split; [vm_compute; reflexivity|].
  repeat (split; [vm_compute; reflexivity|]). vm_compute. reflexivity.
Qed.

(** The two classes add in opposite orders: the managed class copies the
    left operand and adds the right one to it, the raw class copies the
    right operand and adds the left one to it. *)
Lemma operator_plus_order :
  (∃ R h', operator_plus EmptyString String.append LLONG_MAX ab_v cd_v strings_h
           = Ok (R, h') ∧ contents h' R = Some ["abcd"])
  ∧ (∃ R h', Raw.operator_plus String.append LLONG_MAX ab_v cd_v strings_h
             = Ok (R, h') ∧ contents h' R = Some ["cdab"]).
Proof.
  split; eexists _, _; (split; vm_compute; reflexivity).
Qed.
End DemoFacts.

(** ** More on the class over [std::unique_ptr<T[]>] *)

Module ManagedMore.
Import Managed ManagedFacts.
Section Facts.
Context {T : Type}.
Variable dflt : T.
Variable add : T → T → T.
Variable max_alloc : Z.
Hypothesis max_alloc_range : 0 ≤ max_alloc ≤ LLONG_MAX.

Implicit Types (h : heap T) (v this rhs : SJCVector) (cs blk : list (option T)).

Local Abbreviation wf := (Managed.wf (T:=T) max_alloc).
Local Abbreviation resize := (Managed.resize dflt max_alloc).
Local Abbreviation push_back := (Managed.push_back dflt max_alloc).
Local Abbreviation SJCVector_copy := (Managed.SJCVector_copy dflt max_alloc).

(** *** [resize] *)

(** X1.  What [resize(n)] does to a well-formed container is decided by the
    capacity asked for, [n] or 1 for [n = 0]: it throws when that cannot be
    allocated; it is undefined when the container holds an element and the
    new capacity is below the old one, also when no element would have to
    go; in every other case, an empty container or a capacity not below the
    old one, it returns. *)
Theorem resize_outcome h this n :
  wf h this → 0 ≤ n →
  (max_alloc < (if n =? 0 then 1 else n) → resize n this h = Throw)
  ∧ ((if n =? 0 then 1 else n) ≤ max_alloc → 0 < count this →
     (if n =? 0 then 1 else n) < capacity this → resize n this h = UB)
  ∧ ((if n =? 0 then 1 else n) ≤ max_alloc →
     count this = 0 ∨ capacity this ≤ (if n =? 0 then 1 else n) →
     ∃ this' h', resize n this h = Ok (this', h')).
Proof.
  intros Hwf Hn. unfold count, capacity. split; [|split].
  - intros Hmax. by apply resize_throw.
  - intros Hmax Hc Hlt. apply resize_shrink_undefined; done || lia.
  - intros Hmax Hcase.
    destruct (resize_grow dflt max_alloc max_alloc_range h this n Hwf Hn Hmax)
      as (l' & blk' & _ & Hrun & _); [lia|].
    by eexists _, _.
Qed.

(** X2.  A [resize] that returns has moved the container to an array that
    was not allocated before and released the one it had; the elements and
    the occupied count are the same, the capacity is the one asked for (1
    when 0 was asked for), and the other arrays are as they were.  So a
    resize to the capacity the container has changes the buffer and nothing
    else. *)
Theorem resize_keeps h this n this' h' :
  wf h this → 0 ≤ n → resize n this h = Ok (this', h') →
  contents h' this' = contents h this
  ∧ count this' = count this
  ∧ capacity this' = (if n =? 0 then 1 else n)
  ∧ name_ this' = name_ this
  ∧ wf h' this'
  ∧ (∃ l', ptr_ this' = Some l' ∧ h !! l' = None)
  ∧ (∀ l, ptr_ this = Some l → h' !! l = None)
  ∧ (∀ l, ptr_ this ≠ Some l → is_Some (h !! l) → h' !! l = h !! l).
Proof.
  intros Hwf Hn Hrun.
  destruct (resize_Ok dflt max_alloc max_alloc_range _ _ _ _ _ Hwf Hn Hrun)
    as (Hwf' & [Hkeep _] & Hc & Hl & Hs).
  destruct (wf_inv max_alloc _ _ Hwf) as (H1 & H2 & H3 & Hbuf).
  destruct (Z.le_gt_cases (if n =? 0 then 1 else n) max_alloc) as [Hmax|Hmax];
    [|by rewrite resize_throw in Hrun by lia].
  destruct (decide (last_ this = -1 ∨ size_ this ≤ (if n =? 0 then 1 else n)))
    as [Hcase|Hcase];
    [|by rewrite resize_shrink_undefined in Hrun by (done || lia)].
  destruct (resize_grow dflt max_alloc max_alloc_range h this n Hwf Hn Hmax Hcase)
    as (l' & blk' & Hfresh & Hrun' & _).
  rewrite Hrun' in Hrun. injection Hrun as <- <-.
  split; [done|]. split; [unfold count; by rewrite Hl|]. split; [done|].
  split; [done|]. split; [done|]. split; [by exists l'|]. split; [|done].
  intros l Hp. rewrite Hp. simpl. apply lookup_delete_eq.
Qed.

(** *** Which arrays are allocated *)

Lemma reown_moved h this l' blk' v' :
  wf h this → h !! l' = None → ptr_ v' = Some l' →
  reown h this (release (ptr_ this) (<[l' := blk']> h)) v'.
Proof.
  intros Hwf Hfresh Hp' l. rewrite Hp'. unfold release.
  destruct (wf_inv max_alloc _ _ Hwf)
    as (_ & _ & _ & [[Hp _]|(l0 & blk & Hp & Hb & _)]); rewrite Hp.
  - rewrite lookup_insert_is_Some. split.
    + intros [->|[? ?]]; [by right|left; split; [done|congruence]].
    + intros [[? _]|[= ->]]; [|by left].
      destruct (decide (l' = l)); [by left|by right].
  - assert (l0 ≠ l') by (intros ->; congruence).
    rewrite lookup_delete_is_Some, lookup_insert_is_Some. split.
    + intros [Hne [->|[? ?]]]; [by right|left; split; [done|congruence]].
    + intros [[? Hne]|[= ->]].
      * split; [congruence|]. destruct (decide (l' = l)); [by left|by right].
      * split; [done|by left].
Qed.

Lemma reown_updated h this l blk blk' v' :
  ptr_ this = Some l → h !! l = Some blk → ptr_ v' = Some l →
  reown h this (<[l := blk']> h) v'.
Proof.
  intros Hp Hb Hp' l0. rewrite Hp, Hp', lookup_insert_is_Some. split.
  - intros [->|[? ?]]; [by right|left; split; [done|congruence]].
  - intros [[? Hne]|[= ->]]; [|by left].
    right. split; [congruence|done].
Qed.

Lemma reown_new h nm l' blk' v' :
  h !! l' = None → ptr_ v' = Some l' →
  reown h (blank nm) (<[l' := blk']> h) v'.
Proof.
  intros Hfresh Hp' l. rewrite Hp', lookup_insert_is_Some. simpl. split.
  - intros [->|[? ?]]; [by right|by left].
  - intros [[? _]|[= ->]]; [|by left].
    destruct (decide (l' = l)); [by left|by right].
Qed.

Lemma resize_reown h this n this' h' :
  wf h this → 0 ≤ n → resize n this h = Ok (this', h') →
  reown h this h' this'.
Proof.
  intros Hwf Hn Hrun.
  destruct (Z.le_gt_cases (if n =? 0 then 1 else n) max_alloc) as [Hmax|Hmax];
    [|by rewrite resize_throw in Hrun by lia].
  destruct (decide (last_ this = -1 ∨ size_ this ≤ (if n =? 0 then 1 else n)))
    as [Hcase|Hcase].
  - destruct (resize_grow dflt max_alloc max_alloc_range h this n Hwf Hn Hmax Hcase)
      as (l' & blk' & Hfresh & Hrun' & _).
    rewrite Hrun' in Hrun. injection Hrun as <- <-.
    by apply reown_moved.
  - destruct (wf_inv max_alloc _ _ Hwf) as (H1 & H2 & H3 & _).
    by rewrite resize_shrink_undefined in Hrun by (done || lia).
Qed.

Lemma push_back_reown h this x this' h' :
  wf h this → push_back x this h = Ok (this', h') →
  reown h this h' this'.
Proof.
  intros Hwf Hrun. destruct (wf_inv max_alloc _ _ Hwf) as (H1 & H2 & H3 & Hbuf).
  revert Hrun. unfold Managed.push_back, bind.
  rewrite (must_grow_full max_alloc) by done.
  case_bool_decide as Hfull.
  - (* full *)
    unfold resize_geometric.
    rewrite to_size_t_small by (unfold SIZE_MOD, LLONG_MAX in *; lia).
    destruct (Z.le_gt_cases (size_ this * 2 + 1) max_alloc) as [Hmax|Hmax].
    + destruct (resize_grow dflt max_alloc max_alloc_range h this
                  (size_ this * 2 + 1))
        as (l' & blk' & Hfresh & -> & Hlen' & Hinit' & _); [done|lia| | |].
      { destruct (Z.eqb_spec (size_ this * 2 + 1) 0); lia. }
      { destruct (Z.eqb_spec (size_ this * 2 + 1) 0); lia. }
      destruct (Z.eqb_spec (size_ this * 2 + 1) 0) as [?|_]; [lia|].
      destruct (wf_moved max_alloc h this l' blk' (size_ this * 2 + 1)
                  (last_ this) (first_ this) (name_ this)) as (Hl' & Hwf1 & _);
        [done|done|done|done|lia|lia|lia|].
      rewrite (has_room_free max_alloc) by done.
      rewrite bool_decide_eq_true_2 by (unfold count in *; simpl; lia).
      rewrite ll_succ_ok by (simpl; lia). simpl.
      rewrite (store_ok _ l' blk') by (done || unfold count in *; lia). simpl.
      intros [= <- <-].
      assert (<[l':=<[Z.to_nat (last_ this + 1):=Some x]> blk']>
                (release (ptr_ this) (<[l':=blk']> h))
              = release (ptr_ this)
                  (<[l':=<[Z.to_nat (last_ this + 1):=Some x]> blk']> h)) as ->.
      { unfold release. destruct (ptr_ this) as [l|] eqn:Hp.
        - destruct Hbuf as [[? _]|(l0 & blk & ? & Hb & _)]; [congruence|].
          simplify_eq. assert (l0 ≠ l') by (intros ->; congruence).
          rewrite <- delete_insert_ne by done. by rewrite insert_insert_eq.
        - by rewrite insert_insert_eq. }
      by apply reown_moved.
    + rewrite resize_throw; [done|].
      destruct (Z.eqb_spec (size_ this * 2 + 1) 0); lia.
  - (* room left *)
    assert (count this < size_ this) as Hroom by (unfold count in *; lia).
    change (ret this h) with (Ok (this, h)). cbv beta iota.
    rewrite (has_room_free max_alloc) by done.
    rewrite bool_decide_eq_true_2 by done.
    rewrite ll_succ_ok by lia. simpl.
    destruct Hbuf as [[_ ?]|(l & blk & Hp & Hb & Hlenb & Hinit)];
      [unfold count in *; lia|].
    rewrite Hp. rewrite (store_ok _ l blk) by (done || unfold count in *; lia).
    simpl. intros [= <- <-]. by eapply reown_updated.
Qed.

Lemma initSJCVector_reown h c nm this' h' :
  0 ≤ c → initSJCVector dflt max_alloc c (blank nm) h = Ok (this', h') →
  reown h (blank nm) h' this'.
Proof.
  intros Hc Hrun.
  destruct (Z.le_gt_cases c max_alloc) as [Hmax|Hmax];
    [|by rewrite initSJCVector_throw in Hrun].
  destruct (initSJCVector_spec dflt max_alloc h c nm)
    as (Hrun' & _); [lia|].
  rewrite Hrun' in Hrun. injection Hrun as <- <-.
  apply reown_new; [apply fresh_unallocated|done].
Qed.

Lemma SJCVector_copy_reown h rhs this' h' :
  wf h rhs → SJCVector_copy rhs h = Ok (this', h') →
  reown h (blank EmptyString) h' this'.
Proof.
  intros Hwf Hrun.
  destruct (SJCVector_copy_spec dflt max_alloc max_alloc_range h rhs Hwf)
    as (Hrun' & _).
  rewrite Hrun' in Hrun. injection Hrun as <- <-.
  apply reown_new; [apply fresh_unallocated|done].
Qed.

Lemma copy_assign_reown h this rhs this' h' :
  wf h this → wf h rhs →
  copy_assign dflt max_alloc this rhs h = Ok (this', h') →
  reown h this h' this'.
Proof.
  intros Hwf Hwfr Hrun.
  destruct (copy_assign_spec dflt max_alloc max_alloc_range h this rhs Hwf Hwfr)
    as (v & h1 & Hrun' & _ & _ & _ & _ & _ & -> & Hp).
  rewrite Hrun' in Hrun. injection Hrun as <- <-.
  apply reown_moved; [done|apply fresh_unallocated|done].
Qed.

Lemma operator_plus_reown h this rhs R h' :
  wf h this → wf h rhs →
  operator_plus dflt add max_alloc this rhs h = Ok (R, h') →
  reown h (blank EmptyString) h' R.
Proof.
  intros Hwf Hwfr. unfold operator_plus.
  destruct (_ || _ || _).
  - intros Hrun. unfold SJCVector_default in Hrun.
    by apply initSJCVector_reown in Hrun.
  - unfold bind.
    destruct (SJCVector_copy_spec dflt max_alloc max_alloc_range h this Hwf)
      as (-> & Hwfc & _ & _).
    set (l' := fresh (dom h)) in *.
    assert (h !! l' = None) as Hfresh by apply fresh_unallocated.
    destruct (wf_inv max_alloc _ _ Hwfc) as (H1 & H2 & H3 & [[? _]|Hbuf]); [done|].
    destruct Hbuf as (l0 & blk & [= <-] & Hb & Hlen & Hinit).
    simpl in *.
    destruct (add_loop _ _ _ _ _ _) as [[[] h1]| |] eqn:Hloop; [|done|done].
    intros [= <- <-].
    apply (add_loop_Ok add _ _ _ _ _ blk _ Hb Hinit) in Hloop
      as (bd' & -> & _).
    rewrite insert_insert_eq. by apply reown_new.
Qed.

Lemma wf_allocated h v l :
  wf h v → ptr_ v = Some l → is_Some (h !! l).
Proof.
  intros Hwf Hp.
  destruct (wf_inv max_alloc _ _ Hwf)
    as (_ & _ & _ & [[? _]|(l0 & blk & ? & Hb & _)]); [congruence|].
  simplify_eq. by eexists.
Qed.

(** The operation was on the container of [x], or made a new one for [x]. *)
Lemma owned_update objs h x this v' h' :
  wf_world max_alloc objs h → owned_exactly objs h →
  objs !! x = Some this ∨ (objs !! x = None ∧ ptr_ this = None) →
  reown h this h' v' →
  owned_exactly (<[x := v']> objs) h'.
Proof.
  intros [Hwf Hsep] Hown Hx Hre l. rewrite (Hre l). split.
  - intros [[Hl Hne]|Hp'].
    + apply Hown in Hl as (y & vy & Hy & Hpy).
      assert (x ≠ y).
      { intros <-. destruct Hx as [Hx|[Hx _]]; congruence. }
      exists y, vy. by rewrite lookup_insert_ne.
    + exists x, v'. by rewrite lookup_insert_eq.
  - intros (y & vy & [[<- <-]|[Hne Hy]]%lookup_insert_Some & Hpy);
      [by right|].
    left. split; [apply Hown; by exists y, vy|].
    destruct Hx as [Hx|[_ Hnull]]; [|congruence].
    intros Hp. by apply (Hsep y x vy this (not_eq_sym Hne) Hy Hx l).
Qed.

Lemma step_owned o objs h objs' h' :
  wf_world max_alloc objs h → owned_exactly objs h →
  (∀ x, x ∈ uses o → is_Some (objs !! x)) →
  step dflt add max_alloc o objs h = Ok (objs', h') →
  owned_exactly objs' h'.
Proof.
  intros Hw Hown Huses. pose proof Hw as [Hwf Hsep].
  destruct o as [x size|x y|x y|x y|x y|x newValue|x newSize|x y|x y z];
    simpl; unfold declare.
  - (* Construct *)
    destruct (objs !! x) as [vx|] eqn:Hx; [by intros [= <- <-]|].
    unfold bind, SJCVector_named.
    destruct (initSJCVector _ _ _ _ _) as [[v h1]| |] eqn:Hrun; [|done|done].
    intros [= <- <-].
    apply initSJCVector_reown in Hrun; [|apply to_size_t_nonneg].
    eapply owned_update; [done|done| |done]. by right.
  - (* CopyConstruct *)
    destruct (objs !! x) as [vx|] eqn:Hx; [by intros [= <- <-]|].
    destruct (objs !! y) as [vy|] eqn:Hy; [|by intros [= <- <-]].
    unfold bind.
    destruct (Managed.SJCVector_copy _ _ _ _) as [[v h1]| |] eqn:Hrun;
      [|done|done].
    intros [= <- <-].
    apply SJCVector_copy_reown in Hrun; [|by eapply Hwf].
    eapply owned_update; [done|done| |done]. by right.
  - (* MoveConstruct *)
    destruct (objs !! x) as [vx|] eqn:Hx; [by intros [= <- <-]|].
    destruct (objs !! y) as [vy|] eqn:Hy; [|by intros [= <- <-]].
    simpl. intros [= <- <-].
    assert (x ≠ y) as Hxy by (intros ->; congruence).
    intros l. rewrite (Hown l). split.
    + intros (z & vz & Hz & Hpz). destruct (decide (z = y)) as [->|Hzy].
      * simplify_eq. eexists x, _. by rewrite lookup_insert_eq.
      * exists z, vz. rewrite !lookup_insert_ne; [done|done|congruence].
    + intros (z & vz & Hz & Hpz).
      apply lookup_insert_Some in Hz as [[<- <-]|[Hzx Hz]]; [by exists y, vy|].
      apply lookup_insert_Some in Hz as [[<- <-]|[Hzy Hz]]; [done|].
      by exists z, vz.
  - (* Assign *)
    destruct (objs !! x) as [vx|] eqn:Hx; [|by intros [= <- <-]].
    destruct (objs !! y) as [vy|] eqn:Hy; [|by intros [= <- <-]].
    unfold bind.
    destruct (copy_assign _ _ _ _ _) as [[v h1]| |] eqn:Hrun; [|done|done].
    intros [= <- <-].
    apply copy_assign_reown in Hrun; [|by eapply Hwf..].
    eapply owned_update; [done|done| |done]. by left.
  - (* MoveAssign *)
    destruct (objs !! y) as [vy|] eqn:Hy; [|by intros [= <- <-]].
    simpl. destruct (decide (x = y)) as [->|Hxy].
    + rewrite lookup_insert_eq. unfold bind.
      rewrite (operator_assign_spec max_alloc) by (by apply wf_intro_null). simpl.
      intros [= <- <-]. rewrite insert_insert_eq.
      intros l. rewrite (Hown l). split.
      * intros (z & vz & Hz & Hpz). destruct (decide (z = y)) as [->|Hzy].
        -- simplify_eq. eexists y, _. by rewrite lookup_insert_eq.
        -- exists z, vz. by rewrite lookup_insert_ne.
      * intros (z & vz & [[<- <-]|[Hzy Hz]]%lookup_insert_Some & Hpz);
          [by exists y, vy|by exists z, vz].
    + rewrite lookup_insert_ne by done.
      destruct (objs !! x) as [vx|] eqn:Hx.
      * unfold bind. rewrite (operator_assign_spec max_alloc) by (by eapply Hwf). simpl.
        intros [= <- <-].
        assert (separate vx vy) as Hsxy by (by apply (Hsep x y)).
        intros l. unfold release. split.
        -- intros Hl.
           assert (is_Some (h !! l) ∧ ptr_ vx ≠ Some l) as [Hl0 Hne].
           { destruct (ptr_ vx) as [lx|]; [|done].
             apply lookup_delete_is_Some in Hl as [? ?].
             split; [done|congruence]. }
           apply Hown in Hl0 as (z & vz & Hz & Hpz).
           destruct (decide (z = y)) as [->|Hzy].
           ++ simplify_eq. eexists x, _. by rewrite lookup_insert_eq.
           ++ assert (z ≠ x) by (intros ->; congruence).
              exists z, vz. by rewrite !lookup_insert_ne.
        -- intros (z & vz & Hz & Hpz).
           assert (is_Some (h !! l) ∧ ptr_ vx ≠ Some l) as [Hl0 Hne].
           { apply lookup_insert_Some in Hz as [[<- <-]|[Hzx Hz]].
             - simpl in Hpz. split; [apply Hown; by exists y, vy|].
               intros Hpx. by apply (Hsxy l).
             - apply lookup_insert_Some in Hz as [[<- <-]|[Hzy Hz]]; [done|].
               split; [apply Hown; by exists z, vz|].
               intros Hpx. by apply (Hsep z x vz vx (not_eq_sym Hzx) Hz Hx l). }
           destruct (ptr_ vx) as [lx|]; [|done].
           apply lookup_delete_is_Some. split; [congruence|done].
      * destruct (Huses x) as [? ?]; [apply elem_of_cons; by left|congruence].
  - (* PushBack *)
    destruct (objs !! x) as [vx|] eqn:Hx; [|by intros [= <- <-]].
    unfold bind.
    destruct (Managed.push_back _ _ _ _ _) as [[v h1]| |] eqn:Hrun;
      [|done|done].
    intros [= <- <-].
    apply push_back_reown in Hrun; [|by eapply Hwf].
    eapply owned_update; [done|done| |done]. by left.
  - (* Resize *)
    destruct (objs !! x) as [vx|] eqn:Hx; [|by intros [= <- <-]].
    unfold bind.
    destruct (Managed.resize _ _ _ _ _) as [[v h1]| |] eqn:Hrun;
      [|done|done].
    intros [= <- <-].
    apply resize_reown in Hrun; [|by eapply Hwf|apply to_size_t_nonneg].
    eapply owned_update; [done|done| |done]. by left.
  - (* Swap *)
    destruct (objs !! x) as [vx|] eqn:Hx; [|by intros [= <- <-]].
    destruct (objs !! y) as [vy|] eqn:Hy; [|by intros [= <- <-]].
    simpl. intros [= <- <-].
    intros l. rewrite (Hown l). split.
    + intros (z & vz & Hz & Hpz).
      destruct (decide (z = x)) as [->|Hzx]; [|destruct (decide (z = y)) as [->|Hzy]].
      * simplify_eq. destruct (decide (x = y)) as [->|Hxy].
        -- simplify_eq. eexists y, _. by rewrite lookup_insert_eq.
        -- eexists y, _. by rewrite lookup_insert_eq.
      * simplify_eq. eexists x, _. rewrite lookup_insert_ne by done.
        by rewrite lookup_insert_eq.
      * exists z, vz. by rewrite !lookup_insert_ne.
    + intros (z & vz & Hz & Hpz).
      apply lookup_insert_Some in Hz as [[<- <-]|[Hzy Hz]]; [by exists x, vx|].
      apply lookup_insert_Some in Hz as [[<- <-]|[Hzx Hz]]; [by exists y, vy|].
      by exists z, vz.
  - (* Plus *)
    destruct (objs !! x) as [vx|] eqn:Hx; [by intros [= <- <-]|].
    destruct (objs !! y) as [vy|] eqn:Hy; [|by intros [= <- <-]].
    destruct (objs !! z) as [vz|] eqn:Hz; [|by intros [= <- <-]].
    unfold bind.
    destruct (Managed.operator_plus _ _ _ _ _ _) as [[v h1]| |] eqn:Hrun;
      [|done|done].
    intros [= <- <-].
    apply operator_plus_reown in Hrun; [|by eapply Hwf..].
    eapply owned_update; [done|done| |done]. by right.
Qed.


Lemma bind_insert (m : M (T:=T) SJCVector) (a : string)
    (objs objs' : gmap string SJCVector) h h' :
  (let! v := m in ret (<[a := v]> objs)) h = Ok (objs', h') →
  ∃ v, objs' = <[a := v]> objs.
Proof.
  unfold bind. destruct (m h) as [[v h1]| |]; [|done..].
  intros [= <- <-]. by exists v.
Qed.

Lemma step_scope o (objs objs' : gmap string SJCVector) h h' (x : string) :
  (∀ y, y ∈ uses o → is_Some (objs !! y)) →
  step dflt add max_alloc o objs h = Ok (objs', h') →
  is_Some (objs !! x) ∨ declares o = Some x → is_Some (objs' !! x).
Proof.
  intros Huses Hrun Hx.
  assert (∀ y v (m : gmap string SJCVector),
            is_Some (m !! x) ∨ y = x → is_Some (<[y := v]> m !! x)) as Hins.
  { intros y v m Hy. apply lookup_insert_is_Some.
    destruct (decide (y = x)); [by left|right]. by destruct Hy. }
  assert (∀ a, objs' = objs → is_Some (objs !! a) →
               is_Some (objs !! x) ∨ Some a = Some x →
               is_Some (objs' !! x)) as Hsame.
  { intros a -> Ha [?|[= <-]]; done. }
  assert (∀ y, objs !! y = None → y ∈ uses o → False) as Hno.
  { intros y Hy [? ?]%Huses. congruence. }
  destruct o as [a size|a b|a b|a b|a b|a newValue|a newSize|a b|a b c];
    simpl in Hrun, Hx, Hno; unfold declare in Hrun.
  - destruct (objs !! a) eqn:Ha.
    + injection Hrun as <- <-. eapply Hsame; [done| |done]. by rewrite Ha.
    + apply bind_insert in Hrun as [v ->]. apply Hins.
      destruct Hx as [?|[= <-]]; [by left|by right].
  - destruct (objs !! a) eqn:Ha.
    + injection Hrun as <- <-. eapply Hsame; [done| |done]. by rewrite Ha.
    + destruct (objs !! b) eqn:Hb.
      * apply bind_insert in Hrun as [v ->]. apply Hins.
        destruct Hx as [?|[= <-]]; [by left|by right].
      * destruct (Hno b Hb). apply list_elem_of_singleton. done.
  - destruct (objs !! a) eqn:Ha.
    + injection Hrun as <- <-. eapply Hsame; [done| |done]. by rewrite Ha.
    + destruct (objs !! b) eqn:Hb.
      * simpl in Hrun. injection Hrun as <- <-. apply Hins.
        destruct Hx as [?|[= <-]]; [left|by right]. apply Hins. by left.
      * destruct (Hno b Hb). apply list_elem_of_singleton. done.
  - destruct Hx as [Hx|?]; [|done].
    destruct (objs !! a) eqn:Ha; [|by injection Hrun as <- <-].
    destruct (objs !! b) eqn:Hb; [|by injection Hrun as <- <-].
    apply bind_insert in Hrun as [v ->]. apply Hins. by left.
  - destruct Hx as [Hx|?]; [|done].
    destruct (objs !! b) eqn:Hb; [|by injection Hrun as <- <-].
    simpl in Hrun.
    destruct (<[b:=_]> objs !! a) eqn:Ha.
    + apply bind_insert in Hrun as [v ->]. apply Hins. left.
      apply Hins. by left.
    + injection Hrun as <- <-. apply Hins. by left.
  - destruct Hx as [Hx|?]; [|done].
    destruct (objs !! a) eqn:Ha; [|by injection Hrun as <- <-].
    apply bind_insert in Hrun as [v ->]. apply Hins. by left.
  - destruct Hx as [Hx|?]; [|done].
    destruct (objs !! a) eqn:Ha; [|by injection Hrun as <- <-].
    apply bind_insert in Hrun as [v ->]. apply Hins. by left.
  - destruct Hx as [Hx|?]; [|done].
    destruct (objs !! a) eqn:Ha; [|by injection Hrun as <- <-].
    destruct (objs !! b) eqn:Hb; [|by injection Hrun as <- <-].
    simpl in Hrun. injection Hrun as <- <-. apply Hins. left.
    apply Hins. by left.
  - destruct (objs !! a) eqn:Ha.
    + injection Hrun as <- <-. eapply Hsame; [done| |done]. by rewrite Ha.
    + destruct (objs !! b) eqn:Hb;
        [|destruct (Hno b Hb); apply elem_of_cons; by left].
      destruct (objs !! c) eqn:Hc;
        [|destruct (Hno c Hc); apply elem_of_cons; right;
          by apply list_elem_of_singleton].
      apply bind_insert in Hrun as [v ->]. apply Hins.
      destruct Hx as [?|[= <-]]; [by left|by right].
Qed.

(** Running a well-scoped program keeps the scope well formed and the arrays
    owned. *)
Lemma run_owned os : ∀ names (objs objs' : gmap string SJCVector) h h',
  scoped names os = true →
  (∀ x, x ∈ names → is_Some (objs !! x)) →
  wf_world max_alloc objs h → owned_exactly objs h →
  run dflt add max_alloc os objs h = Ok (objs', h') →
  owned_exactly objs' h'.
Proof.
  induction os as [|o os IH]; intros names objs objs' h h' Hsc Hnames Hw Hown;
    simpl.
  - by intros [= <- <-].
  - simpl in Hsc. apply andb_true_iff in Hsc as [Huses Hsc].
    assert (∀ y, y ∈ uses o → is_Some (objs !! y)) as Hu.
    { intros y Hy. apply Hnames.
      rewrite forallb_forall in Huses.
      apply list_elem_of_In, Huses in Hy. by apply bool_decide_eq_true in Hy. }
    unfold bind.
    destruct (step dflt add max_alloc o objs h) as [[objs1 h1]| |] eqn:Hstep;
      [|done|done].
    apply (IH _ objs1 objs' h1 h' Hsc).
    + intros x Hx. eapply step_scope; [done|done|].
      destruct (declares o) as [d|]; [|left; by apply Hnames].
      apply elem_of_cons in Hx as [->|Hx]; [by right|left; by apply Hnames].
    + by eapply step_preserves.
    + by eapply step_owned.
Qed.

(** X3.  No array is leaked and none is held after its release: after a
    program whose statements refer to declared variables only has run from
    the empty scope without throwing, the allocated arrays are exactly the
    buffers of the containers in scope, one array for each container that
    has a buffer. *)
Theorem no_leak os (objs : gmap string SJCVector) h :
  scoped [] os = true →
  run dflt add max_alloc os ∅ ∅ = Ok (objs, h) →
  owned_exactly objs h
  ∧ (∀ x y vx vy l, objs !! x = Some vx → objs !! y = Some vy →
       ptr_ vx = Some l → ptr_ vy = Some l → x = y).
Proof.
  intros Hsc Hrun. split.
  - eapply (run_owned os [] ∅ objs ∅ h); [done| | | |done].
    + by intros x ?%elem_of_nil.
    + apply wf_world_empty.
    + intros l. rewrite lookup_empty. split; [by intros [? ?]|].
      intros (x & v & Hx & _). by rewrite lookup_empty in Hx.
  - intros x y vx vy l Hx Hy Hpx Hpy.
    destruct (decide (x = y)) as [|Hne]; [done|].
    apply (run_preserves dflt add max_alloc max_alloc_range) in Hrun
      as [_ Hsep]; [|apply wf_world_empty].
    by destruct (Hsep x y vx vy Hne Hx Hy l).
Qed.




(** *** Where undefined behaviour can come from *)

Lemma step_undefined o objs h :
  wf_world max_alloc objs h →
  step dflt add max_alloc o objs h = UB →
  (∃ x n vx, o = Resize x n ∧ objs !! x = Some vx ∧ 0 < count vx
             ∧ (if to_size_t n =? 0 then 1 else to_size_t n) < capacity vx)
  ∨ (∃ x y z vy vz, o = Plus x y z ∧ objs !! x = None
                    ∧ objs !! y = Some vy ∧ objs !! z = Some vz
                    ∧ last_ vz = last_ vy ∧ INT_MAX ≤ last_ vy).
Proof.
  intros [Hwf Hsep].
  destruct o as [x size|x y|x y|x y|x y|x newValue|x newSize|x y|x y z];
    simpl; unfold declare.
  - (* Construct *)
    destruct (objs !! x) as [vx|] eqn:Hx; [done|].
    unfold bind, SJCVector_named.
    destruct (Z.le_gt_cases (to_size_t size) max_alloc) as [Hc|Hc].
    + destruct (initSJCVector_spec dflt max_alloc h (to_size_t size) x)
        as (-> & _); [|done].
      split; [apply to_size_t_nonneg|done].
    + by rewrite initSJCVector_throw.
  - (* CopyConstruct *)
    destruct (objs !! x) as [vx|] eqn:Hx; [done|].
    destruct (objs !! y) as [vy|] eqn:Hy; [|done].
    unfold bind.
    by destruct (SJCVector_copy_spec dflt max_alloc max_alloc_range h vy
                   (Hwf _ _ Hy)) as (-> & _).
  - (* MoveConstruct *)
    destruct (objs !! x) as [vx|] eqn:Hx; [done|].
    by destruct (objs !! y) as [vy|] eqn:Hy.
  - (* Assign *)
    destruct (objs !! x) as [vx|] eqn:Hx; [|done].
    destruct (objs !! y) as [vy|] eqn:Hy; [|done].
    unfold bind.
    by destruct (copy_assign_spec dflt max_alloc max_alloc_range h vx vy
                   (Hwf _ _ Hx) (Hwf _ _ Hy)) as (? & ? & -> & _).
  - (* MoveAssign *)
    destruct (objs !! y) as [vy|] eqn:Hy; [|done].
    simpl. destruct (_ !! x) as [vx|] eqn:Hx; [|done].
    unfold bind. rewrite (operator_assign_spec max_alloc); [done|].
    apply lookup_insert_Some in Hx as [[_ <-]|[_ Hx]];
      [by apply wf_intro_null|by eapply Hwf].
  - (* PushBack *)
    destruct (objs !! x) as [vx|] eqn:Hx; [|done].
    unfold bind.
    destruct (wf_contents max_alloc _ _ (Hwf _ _ Hx)) as [vs Hvs].
    destruct (decide (count vx < size_ vx ∨ 2 * size_ vx + 1 ≤ max_alloc))
      as [Hcase|Hcase].
    + by destruct (push_back_spec dflt max_alloc max_alloc_range h vx newValue
                     vs (Hwf _ _ Hx) Hvs Hcase) as (? & ? & -> & _).
    + destruct (wf_cursor max_alloc _ _ (Hwf _ _ Hx)).
      rewrite (push_back_throw dflt max_alloc max_alloc_range);
        [done|by eapply Hwf|unfold count in *; lia|lia].
  - (* Resize *)
    destruct (objs !! x) as [vx|] eqn:Hx; [|done].
    unfold bind. intros Hrun. left. exists x, newSize, vx.
    split; [done|]. split; [done|].
    set (n := to_size_t newSize) in *.
    assert (0 ≤ n) as Hn by apply to_size_t_nonneg.
    destruct (wf_cursor max_alloc _ _ (Hwf _ _ Hx)).
    destruct (Z.le_gt_cases (if n =? 0 then 1 else n) max_alloc) as [Hmax|Hmax];
      [|by rewrite resize_throw in Hrun].
    destruct (decide (last_ vx = -1 ∨ size_ vx ≤ (if n =? 0 then 1 else n)))
      as [Hcase|Hcase]; [|unfold count, capacity; lia].
    by destruct (resize_grow dflt max_alloc max_alloc_range h vx n
                   (Hwf _ _ Hx) Hn Hmax Hcase) as (? & ? & _ & Hrun' & _);
      rewrite Hrun' in Hrun.
  - (* Swap *)
    destruct (objs !! x) as [vx|] eqn:Hx; [|done].
    by destruct (objs !! y) as [vy|] eqn:Hy.
  - (* Plus *)
    destruct (objs !! x) as [vx|] eqn:Hx; [done|].
    destruct (objs !! y) as [vy|] eqn:Hy; [|done].
    destruct (objs !! z) as [vz|] eqn:Hz; [|done].
    unfold bind. intros Hrun. right. exists x, y, z, vy, vz.
    do 4 (split; [done|]).
    destruct (operator_plus dflt add max_alloc vy vz h) as [[R h1]| |] eqn:Hplus;
      [done|done|clear Hrun].
    unfold operator_plus in Hplus.
    destruct (Z.eqb_spec (size_ vz) 0) as [Hb|Hb];
      [|destruct (Z.eqb_spec (size_ vy) 0) as [Ha|Ha];
        [|destruct (Z.eqb_spec (last_ vz) (last_ vy)) as [Hl|Hl]]];
      simpl in Hplus.
    1,2,4: exfalso; unfold SJCVector_default in Hplus;
      destruct (Z.le_gt_cases 1 max_alloc) as [Hc|Hc];
      [destruct (initSJCVector_spec dflt max_alloc h 1 EmptyString)
         as (Hrun' & _); [lia|]; by rewrite Hrun' in Hplus
      |by rewrite initSJCVector_throw in Hplus].
    split; [done|].
    destruct (Z.le_gt_cases INT_MAX (last_ vy)) as [|Hint]; [done|].
    exfalso.
    destruct (operator_plus_sum dflt add max_alloc max_alloc_range h vy vz
                (Hwf _ _ Hy) (Hwf _ _ Hz) Hb Ha Hl Hint)
      as (R & h' & Hrun' & _).
    unfold operator_plus in Hrun'.
    destruct (Z.eqb_spec (size_ vz) 0); [done|].
    destruct (Z.eqb_spec (size_ vy) 0); [done|].
    destruct (Z.eqb_spec (last_ vz) (last_ vy)); [|done].
    simpl in Hrun'. by rewrite Hrun' in Hplus.
Qed.

(** X4.  In this model, where the addition of the element type is a total
    function and the copy of a first index that was never written is not
    counted, a program run from the empty scope has undefined behaviour
    only at a [resize] that asks a container that holds an element for less
    than its capacity, or at an addition of two containers whose common
    last index does not fit the [int] loop counter: the statements before
    it ran to a state in which that statement met one of the two.  An
    element type whose [+=] can itself be undefined, as [int] on overflow,
    adds that as a further source, of which the model knows nothing. *)
Theorem undefined_cause os :
  run dflt add max_alloc os ∅ ∅ = UB →
  ∃ os1 o os2 objs h,
    os = os1 ++ o :: os2
    ∧ run dflt add max_alloc os1 ∅ ∅ = Ok (objs, h)
    ∧ step dflt add max_alloc o objs h = UB
    ∧ ((∃ x n vx, o = Resize x n ∧ objs !! x = Some vx ∧ 0 < count vx
                  ∧ (if to_size_t n =? 0 then 1 else to_size_t n)
                    < capacity vx)
       ∨ (∃ x y z vy vz, o = Plus x y z ∧ objs !! x = None
                         ∧ objs !! y = Some vy ∧ objs !! z = Some vz
                         ∧ last_ vz = last_ vy ∧ INT_MAX ≤ last_ vy)).
Proof.
  assert (∀ os objs0 h0,
            wf_world max_alloc objs0 h0 →
            run dflt add max_alloc os objs0 h0 = UB →
            ∃ os1 o os2 objs h,
              os = os1 ++ o :: os2
              ∧ run dflt add max_alloc os1 objs0 h0 = Ok (objs, h)
              ∧ wf_world max_alloc objs h
              ∧ step dflt add max_alloc o objs h = UB) as Hfirst.
  { clear os. induction os as [|o os IH]; intros objs0 h0 Hw; simpl; [done|].
    unfold bind.
    destruct (step dflt add max_alloc o objs0 h0) as [[objs1 h1]| |] eqn:Hstep;
      [|done|].
    - intros Hrun.
      destruct (IH objs1 h1) as (os1 & o' & os2 & objs & h & -> & Hr & Hw' & Hs);
        [by eapply step_preserves|done|].
      exists (o :: os1), o', os2, objs, h. split; [done|].
      split; [|done]. simpl. unfold bind. by rewrite Hstep.
    - intros _. by exists [], o, os, objs0, h0. }
  intros Hrun.
  destruct (Hfirst os ∅ ∅ (wf_world_empty max_alloc) Hrun)
    as (os1 & o & os2 & objs & h & -> & Hr & Hw & Hs).
  exists os1, o, os2, objs, h. split; [done|]. split; [done|].
  split; [done|]. exact (step_undefined o objs h Hw Hs).
Qed.

(** *** Moved-from containers, swap and the destructor *)

(** X5.  A container that was moved from can be used again: the next
    [push_back] gives it an array of one cell that holds the value pushed,
    and leaves the container that took its buffer as it is. *)
Theorem moved_from_reusable h A B A' x :
  wf h A → 1 ≤ max_alloc → SJCVector_move A = (B, A') →
  ∃ A2 h',
    push_back x A' h = Ok (A2, h')
    ∧ contents h' A2 = Some [x] ∧ count A2 = 1 ∧ capacity A2 = 1
    ∧ wf h' A2 ∧ separate A2 B
    ∧ contents h' B = contents h A ∧ count B = count A ∧ wf h' B.
Proof.
  intros Hwf Hmax [= <- <-].
  set (A' := mkSJCVector None 0 (first_ A) emptyVec (name_ A)).
  set (B := mkSJCVector (ptr_ A) (size_ A) None (last_ A) EmptyString).
  assert (wf h A') as HA' by (by apply wf_intro_null).
  assert (wf h B) as HB by (eapply wf_fields; [| | |exact Hwf]; done).
  destruct (push_back_spec dflt max_alloc max_alloc_range h A' x [] HA')
    as (A2 & h' & Hrun & HA2 & Hfr & Hc & Hl & Hs); [done|right; simpl; lia|].
  destruct (frame_other max_alloc _ _ _ _ B Hfr HB) as (HB' & HcB & Hsep);
    [by apply separate_null|].
  exists A2, h'. split; [done|]. split; [done|].
  split; [unfold count; rewrite Hl; done|].
  split; [unfold capacity; rewrite Hs; done|]. split; [done|].
  split; [by apply separate_sym|]. split; [|done]. by rewrite HcB.
Qed.

(** X6.  [swap] exchanges the buffers, the capacities and the cursors of two
    containers and leaves each its name; nothing is allocated or released,
    both stay well formed, and a second [swap] undoes the first. *)
Theorem swap_exchanges h a b a' b' :
  wf h a → wf h b → swap a b = (a', b') →
  contents h a' = contents h b ∧ contents h b' = contents h a
  ∧ count a' = count b ∧ count b' = count a
  ∧ capacity a' = capacity b ∧ capacity b' = capacity a
  ∧ name_ a' = name_ a ∧ name_ b' = name_ b
  ∧ wf h a' ∧ wf h b'
  ∧ swap a' b' = (a, b).
Proof.
  intros Ha Hb [= <- <-]. do 8 (split; [done|]).
  split; [eapply wf_fields; [| | |exact Hb]; done|].
  split; [eapply wf_fields; [| | |exact Ha]; done|].
  by destruct a, b.
Qed.

(** X7.  The destructor releases the array of its container and no other:
    destroying a container of a scope in which every array is owned leaves
    the scope, without that container, well formed and owning every array
    that is left, and the other containers keep their elements. *)
Theorem dtor_releases objs h x v :
  wf_world max_alloc objs h → owned_exactly objs h → objs !! x = Some v →
  ∃ h',
    SJCVector_dtor v h = Ok (tt, h')
    ∧ wf_world max_alloc (delete x objs) h'
    ∧ owned_exactly (delete x objs) h'
    ∧ (∀ y w, y ≠ x → objs !! y = Some w → contents h' w = contents h w).
Proof.
  intros [Hwf Hsep] Hown Hx. exists (release (ptr_ v) h).
  assert (∀ y w, y ≠ x → objs !! y = Some w → separate w v) as Hsv.
  { intros y w Hne Hy. by apply (Hsep y x). }
  split; [|split; [|split]].
  - unfold SJCVector_dtor, delete_array, release.
    destruct (ptr_ v) as [l|] eqn:Hp; [|done].
    by destruct (wf_allocated h v l (Hwf _ _ Hx) Hp) as [blk ->].
  - split.
    + intros y w [Hne Hy]%lookup_delete_Some.
      apply wf_release_other; [by eapply Hwf|by eapply Hsv].
    + intros y z vy vz Hne [_ Hy]%lookup_delete_Some [_ Hz]%lookup_delete_Some.
      by apply (Hsep y z).
  - intros l. split.
    + intros Hl.
      assert (is_Some (h !! l) ∧ ptr_ v ≠ Some l) as [Hl0 Hne].
      { unfold release in Hl. destruct (ptr_ v) as [lv|]; [|done].
        apply lookup_delete_is_Some in Hl as [? ?]. split; [done|congruence]. }
      apply Hown in Hl0 as (y & w & Hy & Hpy). exists y, w. split; [|done].
      apply lookup_delete_Some. split; [|done]. intros <-. congruence.
    + intros (y & w & [Hne Hy]%lookup_delete_Some & Hpy).
      unfold release. destruct (ptr_ v) as [lv|] eqn:Hp.
      * apply lookup_delete_is_Some. split.
        -- intros ->. by apply (Hsv y w (not_eq_sym Hne) Hy l).
        -- apply Hown. by exists y, w.
      * apply Hown. by exists y, w.
  - intros y w Hne Hy. apply contents_release_other. by eapply Hsv.
Qed.

(** X8.  Move assignment of a container to itself, [x = std::move(x)]: the
    parameter takes the buffer, the swap hands it back, and the parameter
    is destroyed empty.  The container keeps its buffer, its elements, its
    cursor, its capacity and its name, and no array is released. *)
Theorem self_move_assignment objs h x A :
  objs !! x = Some A →
  ∃ A',
    step dflt add max_alloc (MoveAssign x x) objs h = Ok (<[x := A']> objs, h)
    ∧ ptr_ A' = ptr_ A ∧ contents h A' = contents h A
    ∧ count A' = count A ∧ capacity A' = capacity A ∧ name_ A' = name_ A.
Proof.
  intros Hx. eexists. split.
  - simpl. rewrite Hx. simpl. rewrite lookup_insert_eq.
    unfold bind, operator_assign, SJCVector_dtor, delete_array. simpl.
    unfold ret. by rewrite insert_insert_eq.
  - done.
Qed.

(** *** Geometric growth *)

Lemma push_back_capacity h this x this' h' :
  wf h this → push_back x this h = Ok (this', h') →
  wf h' this' ∧ count this' = count this + 1
  ∧ (capacity this' = capacity this
     ∨ (capacity this = count this
        ∧ capacity this' = 2 * count this' - 1)).
Proof.
  intros Hwf Hrun. destruct (wf_contents max_alloc _ _ Hwf) as [ws Hws].
  destruct (push_back_Ok dflt max_alloc max_alloc_range _ _ _ _ _ _
              Hwf Hws Hrun) as (Hwf' & _ & _ & Hl & Hs).
  split; [done|]. unfold count, capacity in *. split; [lia|].
  case_bool_decide; [right|left]; lia.
Qed.

(** X9.  Appending never shrinks a container and never leaves it more than
    half empty: after any number of calls of [push_back] the capacity is
    the one before, or at most [2 * count - 1]; and when the capacity
    started as a power of two less one, as 0 and 1 are, it still is one. *)
Theorem geometric_growth (vs : list T) h this this' h' :
  wf h this →
  push_all dflt max_alloc vs this h = Ok (this', h') →
  count this' = count this + Z.of_nat (length vs)
  ∧ capacity this ≤ capacity this'
  ∧ (capacity this' = capacity this
     ∨ capacity this' ≤ 2 * count this' - 1)
  ∧ (∀ j, 0 ≤ j → capacity this + 1 = 2 ^ j →
          ∃ j', j ≤ j' ∧ capacity this' + 1 = 2 ^ j').
Proof.
  unfold push_all. revert h this.
  induction vs as [|x vs IH]; intros h this Hwf; csimpl.
  - intros [= <- <-]. split; [lia|]. split; [lia|]. split; [by left|].
    intros j Hj Hp. exists j. split; [lia|done].
  - unfold bind.
    destruct (Managed.push_back _ _ _ _ _) as [[this1 h1]| |] eqn:Hrun;
      [|done|done].
    intros Hrest.
    destruct (push_back_capacity _ _ _ _ _ Hwf Hrun) as (Hwf1 & Hc1 & Hcap1).
    destruct (IH _ _ Hwf1 Hrest) as (Hc & Hle & Hcap & Hpow).
    destruct (wf_cursor max_alloc _ _ Hwf) as [Hlo Hhi].
    unfold count, capacity in *.
    split; [lia|]. split; [lia|]. split; [lia|].
    intros j Hj Hp.
    destruct Hcap1 as [Hsame|[Hfull Hgrow]].
    + apply (Hpow j Hj). lia.
    + destruct (Hpow (j + 1)) as (j' & Hj' & Hp'); [lia| |].
      * rewrite Z.pow_add_r by lia. lia.
      * exists j'. split; [lia|done].
Qed.

(** *** The invariant along a run *)


End Facts.
End ManagedMore.

(** ** More on the class over a raw pointer *)

Module RawMore.
Import Raw RawFacts.
Section Facts.
Context {T : Type}.
Variable dflt : T.
Variable add : T → T → T.
Variable of_int : Z → T.
Variable max_alloc : Z.
Hypothesis max_alloc_range : 0 ≤ max_alloc ≤ LLONG_MAX.

Implicit Types (h : heap T) (v this rhs : SJCVector) (cs blk : list (option T)).

Local Abbreviation wf := (Raw.wf (T:=T) max_alloc).
Local Abbreviation resize := (Raw.resize (T:=T) max_alloc).
Local Abbreviation push_back := (Raw.push_back of_int max_alloc).
Local Abbreviation SJCVector_copy := (Raw.SJCVector_copy (T:=T) max_alloc).

(** *** [resize] *)

(** X10.  The raw class copies the occupied elements that fit and no more,
    so its [resize] is defined for every capacity that can be allocated: the
    container keeps its first [n] elements when it held more than the new
    capacity [n] (1 for 0), and all of them otherwise; the array it had is
    released and the others are as they were. *)
Theorem raw_resize_truncates h this n (vs : list T) :
  wf h this → contents h this = Some vs → 0 ≤ n →
  (if n =? 0 then 1 else n) ≤ max_alloc →
  ∃ this' h',
    resize n this h = Ok (this', h')
    ∧ capacity this' = (if n =? 0 then 1 else n)
    ∧ count this' = Z.min (count this) (if n =? 0 then 1 else n)
    ∧ contents h' this' = Some (take (Z.to_nat (if n =? 0 then 1 else n)) vs)
    ∧ name_ this' = name_ this
    ∧ wf h' this'
    ∧ (∀ l, ptr_ this = Some l → h' !! l = None)
    ∧ (∀ l, ptr_ this ≠ Some l → is_Some (h !! l) → h' !! l = h !! l).
Proof.
  intros Hwf Hvs Hn Hmax.
  destruct (raw_wf_inv max_alloc _ _ Hwf) as (H1 & H2 & H3 & Hbuf).
  destruct (raw_resize_spec max_alloc max_alloc_range h this n Hwf Hn Hmax)
    as (l' & blk' & Hfresh & Hrun & Hlen & Htake).
  set (n' := if n =? 0 then 1 else n) in *.
  assert (0 < n') as Hn' by (subst n'; destruct (Z.eqb_spec n 0); lia).
  set (m := Z.min (count this) n') in *.
  destruct (contents_cells h this vs Hvs) as [Hlenvs Hcells].
  assert (take (Z.to_nat m) blk' = Some <$> take (Z.to_nat m) vs) as Hblk.
  { rewrite Htake, fmap_take, <- Hcells, take_take. f_equal.
    subst m. unfold count in *. lia. }
  assert (take (Z.to_nat n') vs = take (Z.to_nat m) vs) as Hvs'.
  { subst m. destruct (Z.le_gt_cases (count this) n').
    - rewrite !take_ge; [done|lia..].
    - f_equal. lia. }
  destruct (raw_wf_moved max_alloc h this l' blk' n'
              (Z.min (last_ this) (n' - 1)) (first_ this) (name_ this))
    as (Hl' & Hwf' & [Hkeep _]);
    [done|done|done| |done|lia|lia|].
  { replace (Z.min (last_ this) (n' - 1) + 1) with m
      by (subst m; unfold count; lia).
    rewrite Hblk. apply all_init_values. by eexists. }
  eexists _, _. split; [exact Hrun|].
  unfold count, capacity. simpl. split; [done|].
  split; [subst m; unfold count; lia|]. split; [|split; [done|]].
  - rewrite Hvs'. eapply contents_intro; [done|exact Hl'| |].
    + rewrite length_take. subst m. unfold count in *. simpl. lia.
    + rewrite length_take.
      replace (Z.to_nat m `min` length vs)%nat with (Z.to_nat m)
        by (subst m; unfold count in *; lia).
      done.
  - split; [done|]. split; [|done].
    intros l Hp. rewrite Hp. simpl. apply lookup_delete_eq.
Qed.


(** *** Copy construction *)

Lemma raw_wf_heap_irrel h h' v :
  (∀ l, ptr_ v = Some l → h' !! l = h !! l) → wf h v → wf h' v.
Proof.
  intros Hh. unfold Raw.wf, wfb.
  destruct (ptr_ v) as [l|]; [|done]. by rewrite (Hh l).
Qed.

Lemma raw_wf_allocated h v l :
  wf h v → ptr_ v = Some l → is_Some (h !! l).
Proof.
  intros Hwf Hp.
  destruct (raw_wf_inv max_alloc _ _ Hwf)
    as (_ & _ & _ & [[? _]|(l0 & blk & ? & Hb & _)]); [congruence|].
  simplify_eq. by eexists.
Qed.

Lemma raw_frame_other h this h' this' v :
  frame h this h' this' → wf h v → separate v this →
  wf h' v ∧ contents h' v = contents h v ∧ separate v this'.
Proof.
  intros [Hkeep Hnew] Hwf Hsep.
  assert (∀ l, ptr_ v = Some l → h' !! l = h !! l) as Hsame.
  { intros l Hp. apply Hkeep; [by apply Hsep|]. by eapply raw_wf_allocated. }
  split; [by eapply raw_wf_heap_irrel|].
  split; [by apply contents_heap_irrel|].
  intros l Hp Hp'. destruct (Hnew l Hp') as [?|Hfresh]; [by eapply Hsep|].
  destruct (raw_wf_allocated h v l Hwf Hp) as [? ?]. congruence.
Qed.

(** X11.  The raw copy constructor allocates exactly as many cells as its
    source has elements: the copy has the elements of the source, is full
    whatever capacity the source has, and lives in an array of its own; the
    source is as it was.  So the first [push_back] on a copy always grows
    it, to twice its count plus one. *)
Theorem raw_copy_shrinks_to_fit h rhs (vs : list T) x :
  wf h rhs → contents h rhs = Some vs →
  ∃ v h',
    SJCVector_copy rhs h = Ok (v, h')
    ∧ capacity v = count rhs ∧ count v = count rhs
    ∧ contents h' v = Some vs ∧ wf h' v
    ∧ separate rhs v ∧ wf h' rhs ∧ contents h' rhs = Some vs
    ∧ (2 * count rhs + 1 ≤ max_alloc →
       ∃ v2 h2,
         push_back x v h' = Ok (v2, h2)
         ∧ capacity v2 = 2 * count rhs + 1
         ∧ count v2 = count rhs + 1
         ∧ contents h2 v2 = Some (vs ++ [of_int x])).
Proof.
  intros Hwf Hvs.
  destruct (raw_copy_spec max_alloc max_alloc_range h rhs Hwf)
    as (v & h' & Hrun & Hcap & Hc & Hcont & Hwfv & Hfr).
  destruct (raw_frame_other _ _ _ _ rhs Hfr Hwf) as (Hwfr & Hcr & Hsep);
    [by intros l _ [=]|].
  exists v, h'. split; [done|]. split; [done|]. split; [done|].
  split; [congruence|]. split; [done|]. split; [done|]. split; [done|].
  split; [congruence|].
  intros Hmax. unfold capacity in *.
  destruct (raw_push_back_spec of_int max_alloc max_alloc_range h' v x vs Hwfv)
    as (v2 & h2 & Hrun2 & _ & Hc2 & Hl2 & Hs2); [congruence|right; lia|].
  exists v2, h2. split; [done|].
  rewrite bool_decide_eq_true_2 in Hs2 by lia.
  unfold count in *. split; [lia|]. split; [lia|done].
Qed.

(** *** Construction *)

Lemma raw_wf_null h v :
  last_ v = -1 → size_ v = 0 → ptr_ v = None → wf h v.
Proof.
  intros H1 H2 Hp. unfold Raw.wf, wfb. rewrite Hp, H1, H2.
  rewrite !andb_true_iff, !Z.leb_le, Z.eqb_eq. lia.
Qed.

Lemma raw_sized_spec h c :
  0 ≤ c ≤ max_alloc →
  ∃ v h', SJCVector_sized dflt max_alloc c h = Ok (v, h')
          ∧ count v = 0 ∧ capacity v = c
          ∧ (ptr_ v = None ↔ c = 0)
          ∧ cells h' (ptr_ v) = replicate (Z.to_nat c) (Some dflt)
          ∧ contents h' v = Some [] ∧ wf h' v.
Proof.
  intros Hc. unfold SJCVector_sized, bind.
  destruct (Z.eqb_spec c 0) as [->|Hc0].
  - eexists _, _. split; [done|]. unfold count, capacity. simpl.
    split; [done|]. split; [done|]. split; [done|]. split; [done|].
    split; [done|]. by apply raw_wf_null.
  - unfold make_unique. rewrite alloc_array_ok by done.
    eexists _, _. split; [done|]. unfold count, capacity. simpl.
    split; [done|]. split; [done|]. split; [split; [done|lia]|].
    rewrite lookup_insert_eq. simpl. split; [done|].
    split.
    + unfold contents, cells, count. simpl. rewrite lookup_insert_eq.
      simpl.
      match goal with
      | |- context [?a <=? ?b] => destruct (Z.leb_spec a b)
      end; [done|lia].
    + eapply raw_wf_intro; simpl; [lia|lia|lia|done| | |].
      * apply lookup_insert_eq.
      * rewrite length_replicate. lia.
      * done.
Qed.

Lemma raw_named_spec h nm c :
  0 ≤ c → Z.max c 1 ≤ max_alloc →
  ∃ v h', SJCVector_named max_alloc nm c h = Ok (v, h')
          ∧ count v = 0 ∧ capacity v = Z.max c 1 ∧ name_ v = nm
          ∧ (∃ l, ptr_ v = Some l ∧ h !! l = None)
          ∧ contents h' v = Some [] ∧ wf h' v.
Proof.
  intros Hc Hmax. unfold SJCVector_named.
  set (v0 := initSJCVector (mkSJCVector None 0 None 0 nm)).
  assert (wf h v0) as Hwf0 by (by apply raw_wf_null).
  assert ((if c =? 0 then 1 else c) = Z.max c 1) as Hc'
    by (destruct (Z.eqb_spec c 0); lia).
  destruct (raw_resize_spec max_alloc max_alloc_range h v0 c Hwf0 Hc)
    as (l' & blk' & Hfresh & Hrun & Hlen & _); [lia|].
  rewrite Hc' in *.
  eexists _, _. split; [exact Hrun|]. unfold count, capacity. simpl.
  split; [lia|]. split; [done|]. split; [done|].
  split; [by exists l'|].
  replace (Z.min (-1) (Z.max c 1 - 1)) with (-1) by lia.
  split.
  - unfold contents, cells, count. simpl. rewrite lookup_insert_eq.
    simpl.
    match goal with
    | |- context [?a <=? ?b] => destruct (Z.leb_spec a b)
    end; [done|lia].
  - eapply raw_wf_intro; simpl; [lia|lia|lia|done| | |].
    + apply lookup_insert_eq.
    + done.
    + done.
Qed.

(** X12.  The constructors of the raw class: the default constructor
    allocates nothing and leaves capacity 0; the constructor with a size
    allocates that many value-initialised cells, and none for size 0; the
    constructor with a name goes through [resize], so it always allocates,
    one cell when asked for none.  Each leaves an empty, well-formed
    container. *)
Theorem raw_construction h :
  (wf h SJCVector_default ∧ count SJCVector_default = 0
   ∧ capacity SJCVector_default = 0 ∧ ptr_ SJCVector_default = None
   ∧ contents h SJCVector_default = Some [])
  ∧ (∀ c, 0 ≤ c ≤ max_alloc →
       ∃ v h', SJCVector_sized dflt max_alloc c h = Ok (v, h')
               ∧ count v = 0 ∧ capacity v = c
               ∧ (ptr_ v = None ↔ c = 0)
               ∧ cells h' (ptr_ v) = replicate (Z.to_nat c) (Some dflt)
               ∧ contents h' v = Some [] ∧ wf h' v)
  ∧ (∀ nm c, 0 ≤ c → Z.max c 1 ≤ max_alloc →
       ∃ v h', SJCVector_named max_alloc nm c h = Ok (v, h')
               ∧ count v = 0 ∧ capacity v = Z.max c 1 ∧ name_ v = nm
               ∧ (∃ l, ptr_ v = Some l ∧ h !! l = None)
               ∧ contents h' v = Some [] ∧ wf h' v).
Proof.
  split; [|split].
  - split; [by apply raw_wf_null|]. done.
  - intros c Hc. by apply raw_sized_spec.
  - intros nm c Hc Hmax. by apply raw_named_spec.
Qed.

(** *** Move construction and move assignment *)

(** X13.  On the raw class too a move hands the buffer over: the new
    container has the elements, the count and the capacity of the source,
    and here its first index is written, by the delegation to the default
    constructor; the source is left null and empty, so that its destructor
    releases nothing.  Move assignment also releases the array the target
    had and keeps the target's name. *)
Theorem raw_move_correctness h A B A' :
  wf h A → SJCVector_move A = (B, A') →
  contents h B = contents h A ∧ count B = count A
  ∧ capacity B = capacity A ∧ first_ B = Some 0 ∧ wf h B
  ∧ count A' = 0 ∧ capacity A' = 0 ∧ ptr_ A' = None ∧ wf h A'
  ∧ SJCVector_dtor A' h = Ok (tt, h)
  ∧ (∀ B0, wf h B0 → separate B0 A →
       ∃ B1, operator_assign B B0 h = Ok (B1, release (ptr_ B0) h)
             ∧ contents (release (ptr_ B0) h) B1 = contents h A
             ∧ count B1 = count A ∧ capacity B1 = capacity A
             ∧ name_ B1 = name_ B0
             ∧ wf (release (ptr_ B0) h) B1
             ∧ (∀ l, ptr_ B0 = Some l → release (ptr_ B0) h !! l = None)).
Proof.
  intros Hwf [= <- <-].
  assert (∀ v, ptr_ v = ptr_ A → size_ v = size_ A → last_ v = last_ A →
               wf h v) as Hfields.
  { intros v Hp Hs Hl. revert Hwf. unfold Raw.wf, wfb, count.
    by rewrite Hp, Hs, Hl. }
  split; [done|]. split; [done|]. split; [done|]. split; [done|].
  split; [by apply Hfields|]. split; [done|]. split; [done|].
  split; [done|]. split; [by apply raw_wf_null|]. split; [done|].
  intros B0 HB0 Hsep.
  eexists. split; [|split; [|split; [|split; [|split; [|split]]]]].
  - unfold operator_assign, bind, SJCVector_dtor, delete_array, release. simpl.
    destruct (ptr_ B0) as [l0|] eqn:Hp0; [|done].
    by destruct (raw_wf_allocated h B0 l0 HB0 Hp0) as [blk ->].
  - rewrite (contents_heap_irrel h (release (ptr_ B0) h)); [done|].
    simpl. intros l Hl. unfold release.
    destruct (ptr_ B0) as [l0|] eqn:Hp0; [|done].
    apply lookup_delete_ne. intros ->. by apply (Hsep l).
  - done.
  - done.
  - done.
  - apply (raw_wf_heap_irrel h); [|by apply Hfields].
    simpl. intros l Hl. unfold release.
    destruct (ptr_ B0) as [l0|] eqn:Hp0; [|done].
    apply lookup_delete_ne. intros ->. by apply (Hsep l).
  - intros l ->. simpl. apply lookup_delete_eq.
Qed.

(** *** [operator+] *)

Lemma raw_copy_eq h rhs :
  wf h rhs →
  SJCVector_copy rhs h
  = Ok (mkSJCVector (Some (fresh (dom h))) (count rhs) None (last_ rhs) "copy",
        <[fresh (dom h) := take (Z.to_nat (count rhs)) (cells h (ptr_ rhs))]> h).
Proof.
  intros Hwf. destruct (raw_wf_inv max_alloc _ _ Hwf) as (H1 & H2 & H3 & Hbuf).
  destruct (raw_wf_cells max_alloc _ _ Hwf) as [Hlen Hinit].
  set (l' := fresh (dom h)).
  assert (h !! l' = None) as Hfresh by apply fresh_unallocated.
  unfold count in *. set (n := last_ rhs + 1) in *.
  unfold Raw.SJCVector_copy, bind, new_array.
  rewrite ll_succ_ok by lia. fold n.
  destruct (Z.ltb_spec n 0); [lia|].
  rewrite to_size_t_small by (unfold SIZE_MOD, LLONG_MAX in *; lia).
  rewrite alloc_array_ok by lia. fold l'. simpl.
  destruct (Z.eq_dec n 0) as [Hz|Hnz].
  - unfold std_copy. destruct (Z.eqb_spec n 0); [|lia].
    rewrite Hz. done.
  - destruct Hbuf as [[_ ?]|(l & blk & Hp & Hb & Hlenb & Hinitb)]; [lia|].
    assert (l ≠ l') by (intros ->; congruence).
    rewrite Hp.
    rewrite (std_copy_ok _ l l' blk (replicate (Z.to_nat n) None)).
    + simpl. rewrite insert_insert_eq. unfold ret. do 3 f_equal.
      unfold cells. rewrite Hb. simpl.
      rewrite drop_ge by (rewrite length_replicate; lia).
      by rewrite app_nil_r.
    + by rewrite lookup_insert_ne.
    + by rewrite lookup_insert_eq.
    + done.
    + lia.
    + lia.
    + rewrite length_replicate. lia.
    + done.
Qed.

(** The loop on a destination whose cells all hold a value and a source
    whose cells hold one as far as the loop reads. *)
Lemma raw_add_loop_spec ld ls bs (n : nat) :
  ls ≠ ld →
  ∀ (i : nat) h bd,
    h !! ld = Some bd → h !! ls = Some bs → forallb is_init bd = true →
    forallb is_init (take (i + n) bs) = true →
    (i + n ≤ length bd)%nat → (i + n ≤ length bs)%nat →
    Z.of_nat (i + n) ≤ INT_MAX →
    ∃ bd',
      add_loop add n (Z.of_nat i) (Some ld) (Some ls) h
      = Ok (tt, <[ld := bd']> h)
      ∧ length bd' = length bd ∧ forallb is_init bd' = true
      ∧ (∀ k, (i ≤ k < i + n)%nat →
              ∃ a b, bd !! k = Some (Some a) ∧ bs !! k = Some (Some b)
                     ∧ bd' !! k = Some (Some (add a b)))
      ∧ (∀ k, (k < i ∨ i + n ≤ k)%nat → bd' !! k = bd !! k).
Proof.
  intros Hne. induction n as [|n IH];
    intros i h bd Hd Hs Hinitd Hinits Hnd Hns Hmax.
  - exists bd. simpl. unfold ret. rewrite insert_id by done.
    repeat split; try done. intros k ?. lia.
  - simpl. unfold bind.
    destruct (all_init_lookup bd i Hinitd) as [a Ha]; [lia|].
    destruct (all_init_lookup _ i Hinits) as [b Hb];
      [rewrite length_take; lia|].
    rewrite lookup_take_lt in Hb by lia.
    rewrite (load_ok h ld bd _ a) by (done || lia || by rewrite Nat2Z.id).
    rewrite (load_ok h ls bs _ b) by (done || lia || by rewrite Nat2Z.id).
    rewrite (store_ok h ld bd) by (done || lia).
    rewrite int_succ_ok by lia. rewrite Nat2Z.id.
    replace (Z.of_nat i + 1) with (Z.of_nat (S i)) by lia.
    destruct (IH (S i) (<[ld := <[i := Some (add a b)]> bd]> h)
                (<[i := Some (add a b)]> bd))
      as (bd' & -> & Hlen & Hinit & Hin & Hout).
    + by rewrite lookup_insert_eq.
    + by rewrite lookup_insert_ne.
    + by apply all_init_insert.
    + by replace (S i + n)%nat with (i + S n)%nat by lia.
    + rewrite length_insert. lia.
    + lia.
    + lia.
    + exists bd'. rewrite insert_insert_eq. split; [done|].
      rewrite length_insert in Hlen. split; [done|]. split; [done|]. split.
      * intros k Hk. destruct (decide (k = i)) as [->|Hki].
        -- exists a, b. split; [done|]. split; [done|].
           rewrite Hout by lia. apply list_lookup_insert_eq. lia.
        -- destruct (Hin k) as (a' & b' & Ha' & Hb' & Hr); [lia|].
           exists a', b'. rewrite list_lookup_insert_ne in Ha' by done. done.
      * intros k Hk. rewrite Hout by lia.
        apply list_lookup_insert_ne. lia.
Qed.


Lemma raw_operator_plus_sum h A B :
  wf h A → wf h B →
  size_ A ≠ 0 → size_ B ≠ 0 → last_ B = last_ A → last_ A < INT_MAX →
  ∃ R h',
    operator_plus add max_alloc A B h = Ok (R, h')
    ∧ count R = count A ∧ capacity R = count A
    ∧ (∀ i, 0 ≤ i ≤ last_ A →
            ∃ a b, slot h A i = Some a ∧ slot h B i = Some b
                   ∧ slot h' R i = Some (add b a))
    ∧ wf h' R ∧ separate A R ∧ separate B R
    ∧ contents h' A = contents h A ∧ contents h' B = contents h B.
Proof.
  intros HA HB Hsa Hsb Hlast Hint.
  destruct (raw_wf_inv max_alloc _ _ HA)
    as (H1 & H2 & H3 & [[_ ?]|(la & ba & Hpa & Hba & Hlena & Hinita)]);
    [done|].
  destruct (raw_wf_inv max_alloc _ _ HB)
    as (H1b & H2b & H3b & [[_ ?]|(lb & bb & Hpb & Hbb & Hlenb & Hinitb)]);
    [done|].
  unfold operator_plus.
  destruct (Z.eqb_spec (size_ B) 0) as [?|_]; [done|].
  destruct (Z.eqb_spec (size_ A) 0) as [?|_]; [done|].
  destruct (Z.eqb_spec (last_ B) (last_ A)) as [_|?]; [|done]. simpl.
  unfold bind. rewrite (raw_copy_eq h B HB).
  set (l' := fresh (dom h)) in *.
  assert (h !! l' = None) as Hfresh by apply fresh_unallocated.
  assert (la ≠ l') as Hnea by (intros ->; congruence).
  assert (lb ≠ l') as Hneb by (intros ->; congruence).
  unfold cells at 1. rewrite Hpb, Hbb. simpl.
  unfold count in *. rewrite Hlast in *.
  set (n := Z.to_nat (last_ A + 1)) in *.
  set (blk' := take n bb).
  assert (length blk' = n) as Hlen'
    by (subst blk'; rewrite length_take; lia).
  rewrite Hpa.
  destruct (raw_add_loop_spec l' la ba n Hnea 0%nat (<[l' := blk']> h) blk')
    as (bd' & Hrun & Hlenbd & Hinit' & Hin & _).
  { by rewrite lookup_insert_eq. }
  { by rewrite lookup_insert_ne. }
  { done. }
  { done. }
  { lia. }
  { lia. }
  { lia. }
  change (Z.of_nat 0) with 0 in Hrun. rewrite Hrun. simpl.
  rewrite insert_insert_eq.
  eexists _, _. split; [done|]. simpl.
  split; [done|]. split; [done|]. split; [|split; [|split; [|split; [|split]]]].
  - intros i Hi.
    destruct (Hin (Z.to_nat i)) as (a & b & Ha & Hb & Hr); [lia|].
    exists b, a. unfold slot, load_cell, cells. simpl.
    rewrite Hpa, Hba, Hpb, Hbb, lookup_insert_eq. simpl.
    destruct (Z.ltb_spec i 0); [lia|].
    subst blk'. rewrite lookup_take_lt in Ha by lia.
    by rewrite Ha, Hb, Hr.
  - eapply (raw_wf_intro max_alloc _ _ l' bd'); simpl; try done; try lia.
    + by rewrite lookup_insert_eq.
    + by apply all_init_take.
  - intros l Hl [= <-]. congruence.
  - intros l Hl [= <-]. congruence.
  - apply contents_heap_irrel. intros l Hl.
    apply lookup_insert_ne. congruence.
  - apply contents_heap_irrel. intros l Hl.
    apply lookup_insert_ne. congruence.
Qed.

Lemma raw_operator_plus_guard h A B :
  size_ A = 0 ∨ size_ B = 0 ∨ last_ B ≠ last_ A →
  operator_plus add max_alloc A B h = Ok (SJCVector_default, h).
Proof.
  intros Hguard. unfold operator_plus.
  destruct (Z.eqb_spec (size_ B) 0); [done|].
  destruct (Z.eqb_spec (size_ A) 0); [done|].
  destruct (Z.eqb_spec (last_ B) (last_ A)); [|done].
  exfalso. destruct Hguard as [?|[?|?]]; done.
Qed.

(** X14.  [operator+] of the raw class copies the right operand and adds the
    elements of the left one to it: slot [i] of the result holds
    [rhs[i] + this[i]], in an array of exactly as many cells as there are
    elements, and the operands are as they were.  When a capacity is 0 or
    the last indices differ the result is a default-constructed container,
    for which nothing is allocated. *)
Theorem raw_operator_plus_spec h A B :
  wf h A → wf h B →
  (capacity A ≠ 0 → capacity B ≠ 0 → last_ B = last_ A →
   last_ A < INT_MAX →
   ∃ R h',
     operator_plus add max_alloc A B h = Ok (R, h')
     ∧ count R = count A ∧ capacity R = count A
     ∧ (∀ i, 0 ≤ i ≤ last_ A →
             ∃ a b, slot h A i = Some a ∧ slot h B i = Some b
                    ∧ slot h' R i = Some (add b a))
     ∧ wf h' R ∧ separate A R ∧ separate B R
     ∧ contents h' A = contents h A ∧ contents h' B = contents h B)
  ∧ (capacity A = 0 ∨ capacity B = 0 ∨ last_ B ≠ last_ A →
     operator_plus add max_alloc A B h = Ok (SJCVector_default, h)).
Proof.
  intros HA HB. unfold capacity. split.
  - intros Hsa Hsb Hlast Hint.
    destruct (raw_operator_plus_sum h A B HA HB Hsa Hsb Hlast Hint)
      as (R & h' & Hrun & Hrest).
    by exists R, h'.
  - intros Hguard. by apply raw_operator_plus_guard.
Qed.

(** *** [push_back] *)

Lemma raw_push_back_throw h this x :
  wf h this → size_ this = count this → max_alloc < 2 * size_ this + 1 →
  push_back x this h = Throw.
Proof.
  intros Hwf Hfull Hmax.
  destruct (raw_wf_inv max_alloc _ _ Hwf) as (H1 & H2 & H3 & _).
  unfold Raw.push_back, bind.
  rewrite (raw_must_grow_full max_alloc) by done.
  rewrite bool_decide_eq_true_2 by done. unfold resize_geometric.
  rewrite to_size_t_small by (unfold SIZE_MOD, LLONG_MAX in *; lia).
  unfold Raw.resize, bind, new_array.
  rewrite alloc_array_throw; [done|].
  destruct (Z.eqb_spec (size_ this * 2 + 1) 0); lia.
Qed.

(** X15.  [push_back(int)] of the raw class stores the value converted to
    the element type behind the occupied elements; a full container, which
    includes one of capacity 0, is first moved to an array of
    [2 * capacity + 1] cells, and the call throws, before anything is
    stored, exactly when that array cannot be allocated. *)
Theorem raw_push_back_outcome h this x (vs : list T) :
  wf h this → contents h this = Some vs →
  (count this < capacity this ∨ 2 * capacity this + 1 ≤ max_alloc →
   ∃ this' h',
     push_back x this h = Ok (this', h')
     ∧ contents h' this' = Some (vs ++ [of_int x])
     ∧ count this' = count this + 1
     ∧ capacity this'
       = (if bool_decide (capacity this = count this)
          then 2 * capacity this + 1 else capacity this)
     ∧ wf h' this')
  ∧ (capacity this = count this → max_alloc < 2 * capacity this + 1 →
     push_back x this h = Throw).
Proof.
  intros Hwf Hvs. unfold capacity. split.
  - intros Hcase.
    destruct (raw_push_back_spec of_int max_alloc max_alloc_range h this x vs
                Hwf Hvs Hcase) as (this' & h' & Hrun & Hwf' & Hc & Hl & Hs).
    exists this', h'. split; [done|]. split; [done|].
    split; [unfold count; lia|]. done.
  - intros Hfull Hmax. by apply raw_push_back_throw.
Qed.

(** *** Copy assignment *)

Lemma raw_copy_assign_spec h this rhs :
  wf h this → wf h rhs →
  ∃ this' h',
    RawAssign.copy_assign max_alloc this rhs h = Ok (this', h')
    ∧ contents h' this' = contents h rhs
    ∧ count this' = count rhs ∧ capacity this' = count rhs
    ∧ name_ this' = name_ this
    ∧ wf h' this'
    ∧ (∀ l, ptr_ this = Some l → h' !! l = None)
    ∧ (separate rhs this →
       wf h' rhs ∧ contents h' rhs = contents h rhs ∧ separate rhs this').
Proof.
  intros Hwf Hwfr.
  destruct (raw_wf_inv max_alloc _ _ Hwfr) as (H1 & H2 & H3 & _).
  destruct (raw_wf_cells max_alloc _ _ Hwfr) as [Hlen Hinit].
  set (l' := fresh (dom h)).
  assert (h !! l' = None) as Hfresh by apply fresh_unallocated.
  set (blk' := take (Z.to_nat (count rhs)) (cells h (ptr_ rhs))).
  set (h1 := <[l' := blk']> h).
  assert (∀ l, ptr_ this = Some l → l ≠ l' ∧ is_Some (h !! l)) as Hold.
  { intros l Hp. destruct (raw_wf_allocated h this l Hwf Hp) as [blk Hb].
    split; [|by eexists]. intros ->. congruence. }
  assert (release (ptr_ this) h1 !! l' = Some blk') as Hl'.
  { unfold release, h1. destruct (ptr_ this) as [l|] eqn:Hp.
    - destruct (Hold l eq_refl) as [? _].
      by rewrite lookup_delete_ne, lookup_insert_eq.
    - by rewrite lookup_insert_eq. }
  assert (Z.of_nat (length blk') = count rhs) as Hlen'
    by (subst blk'; rewrite length_take; unfold count in *; lia).
  eexists _, (release (ptr_ this) h1).
  split; [|split; [|split; [|split; [|split; [|split; [|split]]]]]].
  - unfold RawAssign.copy_assign, bind. rewrite (raw_copy_eq h rhs Hwfr).
    fold l' blk' h1.
    unfold operator_assign, bind, SJCVector_dtor, delete_array, release. simpl.
    destruct (ptr_ this) as [l|] eqn:Hp; [|done].
    destruct (Hold l eq_refl) as [Hne [blk Hb]].
    unfold h1. by rewrite lookup_insert_ne, Hb.
  - rewrite (raw_contents_wf max_alloc h rhs Hwfr).
    unfold contents, cells at 1 2, count at 1 2 3. simpl. rewrite Hl'. simpl.
    unfold count in *.
    destruct (Z.leb_spec 0 (last_ rhs + 1)); [|lia].
    destruct (Z.leb_spec (last_ rhs + 1) (Z.of_nat (length blk'))); [|lia].
    simpl. subst blk'. by rewrite take_take, Nat.min_id.
  - done.
  - done.
  - done.
  - eapply (raw_wf_intro max_alloc _ _ l' blk'); simpl; try done; try lia.
    + unfold count in *. lia.
    + unfold count at 1. simpl. subst blk'.
      rewrite take_take, Nat.min_id. done.
  - intros l Hp. rewrite Hp. simpl. apply lookup_delete_eq.
  - intros Hsep.
    assert (∀ l, ptr_ rhs = Some l → release (ptr_ this) h1 !! l = h !! l)
      as Hsame.
    { intros l Hp. destruct (raw_wf_allocated h rhs l Hwfr Hp) as [blk Hb].
      assert (l ≠ l') by (intros ->; congruence).
      unfold release, h1. destruct (ptr_ this) as [lt|] eqn:Hpt.
      - rewrite lookup_delete_ne, lookup_insert_ne; [done|done|].
        intros ->. by apply (Hsep l).
      - by rewrite lookup_insert_ne. }
    split; [by eapply raw_wf_heap_irrel|].
    split; [by apply contents_heap_irrel|].
    intros l Hp [= <-].
    destruct (raw_wf_allocated h rhs _ Hwfr Hp) as [? ?]. congruence.
Qed.

(** X18.  Copy assignment on the raw class, [a = b]: the parameter is a copy
    of [b] in an array of exactly [b]'s count, the swap hands that array to
    [a], and the array [a] had is released with the parameter.  So [a] ends
    with the elements of [b], full, under its own name; this holds for
    [a = a] as well, and a [b] other than [a] is as it was. *)
Theorem raw_copy_assignment h this rhs :
  wf h this → wf h rhs →
  ∃ this' h',
    RawAssign.copy_assign max_alloc this rhs h = Ok (this', h')
    ∧ contents h' this' = contents h rhs
    ∧ count this' = count rhs ∧ capacity this' = count rhs
    ∧ name_ this' = name_ this
    ∧ wf h' this'
    ∧ (∀ l, ptr_ this = Some l → h' !! l = None)
    ∧ (separate rhs this →
       wf h' rhs ∧ contents h' rhs = contents h rhs ∧ separate rhs this').
Proof.
  intros Hwf Hwfr.
  destruct (raw_copy_assign_spec h this rhs Hwf Hwfr)
    as (this' & h' & Hrun & Hrest).
  by exists this', h'.
Qed.

(** *** The two classes side by side *)

Lemma managed_wf_raw h v : Managed.wf max_alloc h v → wf h v.
Proof.
  unfold Managed.wf, Raw.wf, wfb.
  destruct (ptr_ v) as [l|]; [|done].
  destruct (h !! l) as [blk|]; [|done].
  rewrite !andb_true_iff. intros [? [? Hinit]].
  split; [done|]. split; [done|]. by apply all_init_take.
Qed.

(** X19.  On a container in the state the managed class keeps,
    [push_back(n)] of the raw class, whose parameter is an [int], does what
    [push_back] of the class over [unique_ptr] does for the value [n]
    converted to the element type: both throw, when the container is full
    and the larger array cannot be allocated, or both return, with the same
    elements, the same count and the same capacity.  Nothing is said of a
    value of the element type that is not the image of an [int]. *)
Theorem push_back_classes_agree h this x :
  Managed.wf max_alloc h this →
  (Managed.push_back dflt max_alloc (of_int x) this h = Throw
   ∧ push_back x this h = Throw)
  ∨ (∃ m hm r hr,
       Managed.push_back dflt max_alloc (of_int x) this h = Ok (m, hm)
       ∧ push_back x this h = Ok (r, hr)
       ∧ contents hr r = contents hm m
       ∧ count r = count m ∧ capacity r = capacity m).
Proof.
  intros Hwf. pose proof (managed_wf_raw _ _ Hwf) as Hraw.
  destruct (ManagedFacts.wf_contents max_alloc _ _ Hwf) as [vs Hvs].
  destruct (ManagedFacts.wf_cursor max_alloc _ _ Hwf) as [Hlo Hhi].
  destruct (decide (count this < size_ this ∨ 2 * size_ this + 1 ≤ max_alloc))
    as [Hcase|Hcase].
  - right.
    destruct (ManagedFacts.push_back_spec dflt max_alloc max_alloc_range
                h this (of_int x) vs Hwf Hvs Hcase)
      as (m & hm & Hm & _ & _ & Hcm & Hlm & Hsm).
    destruct (raw_push_back_spec of_int max_alloc max_alloc_range
                h this x vs Hraw Hvs Hcase)
      as (r & hr & Hr & _ & Hcr & Hlr & Hsr).
    exists m, hm, r, hr. split; [done|]. split; [done|].
    split; [congruence|]. unfold count, capacity. split; [lia|congruence].
  - left. unfold count in *. split.
    + apply (ManagedFacts.push_back_throw dflt max_alloc max_alloc_range);
        [done|unfold count; lia|lia].
    + apply raw_push_back_throw; [done|unfold count; lia|lia].
Qed.

(** *** What a returning operation of the raw class leaves behind *)



Lemma raw_resize_throw h this n :
  max_alloc < (if n =? 0 then 1 else n) → resize n this h = Throw.
Proof.
  intros Hn. unfold Raw.resize, bind, new_array.
  by rewrite alloc_array_throw.
Qed.

Lemma raw_resize_Ok h this n this' h' :
  wf h this → 0 ≤ n → resize n this h = Ok (this', h') →
  wf h' this' ∧ frame h this h' this'
  ∧ last_ this' = Z.min (last_ this) ((if n =? 0 then 1 else n) - 1)
  ∧ size_ this' = (if n =? 0 then 1 else n).
Proof.
  intros Hwf Hn Hrun.
  destruct (raw_wf_inv max_alloc _ _ Hwf) as (H1 & H2 & H3 & _).
  destruct (raw_wf_cells max_alloc _ _ Hwf) as [_ Hinit].
  destruct (Z.le_gt_cases (if n =? 0 then 1 else n) max_alloc) as [Hmax|Hmax];
    [|by rewrite raw_resize_throw in Hrun].
  destruct (raw_resize_spec max_alloc max_alloc_range h this n Hwf Hn Hmax)
    as (l' & blk' & Hfresh & Hrun' & Hlen & Htake).
  rewrite Hrun' in Hrun. injection Hrun as <- <-.
  set (n' := if n =? 0 then 1 else n) in *.
  assert (0 < n') as Hn' by (subst n'; destruct (Z.eqb_spec n 0); lia).
  destruct (raw_wf_moved max_alloc h this l' blk' n'
              (Z.min (last_ this) (n' - 1)) (first_ this) (name_ this))
    as (_ & Hwf' & Hfr); [done|done|done| |done|lia|lia|].
  { replace (Z.min (last_ this) (n' - 1) + 1) with (Z.min (count this) n')
      by (unfold count; lia).
    rewrite Htake.
    apply (all_init_take (Z.to_nat (Z.min (count this) n'))) in Hinit.
    rewrite take_take in Hinit.
    by replace (Z.to_nat (Z.min (count this) n') `min` Z.to_nat (count this))%nat
      with (Z.to_nat (Z.min (count this) n')) in Hinit by lia. }
  done.
Qed.


Lemma raw_push_back_Ok h this x this' h' (vs : list T) :
  wf h this → contents h this = Some vs →
  push_back x this h = Ok (this', h') →
  contents h' this' = Some (vs ++ [of_int x])
  ∧ last_ this' = last_ this + 1
  ∧ size_ this' = (if bool_decide (size_ this = count this)
                   then 2 * size_ this + 1 else size_ this).
Proof.
  intros Hwf Hvs Hrun.
  destruct (raw_wf_inv max_alloc _ _ Hwf) as (H1 & H2 & H3 & _).
  destruct (decide (count this < size_ this ∨ 2 * size_ this + 1 ≤ max_alloc))
    as [Hcase|Hcase].
  - destruct (raw_push_back_spec of_int max_alloc max_alloc_range
                h this x vs Hwf Hvs Hcase)
      as (this1 & h1 & Hrun1 & _ & Hspec).
    rewrite Hrun1 in Hrun. by injection Hrun as <- <-.
  - rewrite raw_push_back_throw in Hrun; [done|done| |];
      unfold count in *; lia.
Qed.




End Facts.
End RawMore.

(** ** The two classes side by side *)

Module TwoClasses.
Import Managed ManagedFacts RawFacts RawMore.
Section Facts.
Context {T : Type}.
Variable dflt : T.
Variable add : T → T → T.
Variable of_int : Z → T.
Variable max_alloc : Z.
Hypothesis max_alloc_range : 0 ≤ max_alloc ≤ LLONG_MAX.

Implicit Types (h : heap T) (v this rhs A B : SJCVector).

Local Abbreviation mwf := (Managed.wf (T:=T) max_alloc).
Local Abbreviation rwf := (Raw.wf (T:=T) max_alloc).


(** C8 (as the code has it).  What the constructors leave, in both classes.
    In the class over [unique_ptr] a container constructed with a requested
    capacity [c] is empty and has capacity [c] itself, which is [max c 1]
    for [c >= 1] and 0 for [c = 0]; the default constructor requests 1; the
    copy constructor gives the copy the capacity of its source.  In the raw
    class the constructor with a name has capacity [max c 1], the one with
    a size capacity [c], the default constructor capacity 0, and the copy
    constructor gives the copy the count of its source as capacity, which
    is 0 for an empty source. *)
Theorem construction_two_classes h :
  ((∀ c, 0 ≤ c ≤ max_alloc →
      ∃ v h', Managed.SJCVector_sized dflt max_alloc c h = Ok (v, h')
              ∧ count v = 0 ∧ capacity v = c
              ∧ (1 ≤ c → capacity v = Z.max c 1)
              ∧ contents h' v = Some [] ∧ mwf h' v)
   ∧ (∀ nm c, 0 ≤ c ≤ max_alloc →
      ∃ v h', Managed.SJCVector_named dflt max_alloc nm c h = Ok (v, h')
              ∧ count v = 0 ∧ capacity v = c ∧ name_ v = nm)
   ∧ (1 ≤ max_alloc →
      ∃ v h', Managed.SJCVector_default dflt max_alloc h = Ok (v, h')
              ∧ count v = 0 ∧ capacity v = 1)
   ∧ (∀ rhs, mwf h rhs →
      ∃ v h', Managed.SJCVector_copy dflt max_alloc rhs h = Ok (v, h')
              ∧ count v = count rhs ∧ capacity v = capacity rhs))
  ∧ ((∀ c, 0 ≤ c ≤ max_alloc →
        ∃ v h', Raw.SJCVector_sized dflt max_alloc c h = Ok (v, h')
                ∧ count v = 0 ∧ capacity v = c
                ∧ contents h' v = Some [] ∧ rwf h' v)
     ∧ (∀ nm c, 0 ≤ c → Z.max c 1 ≤ max_alloc →
        ∃ v h', Raw.SJCVector_named max_alloc nm c h = Ok (v, h')
                ∧ count v = 0 ∧ capacity v = Z.max c 1 ∧ name_ v = nm
                ∧ contents h' v = Some [] ∧ rwf h' v)
     ∧ (count Raw.SJCVector_default = 0
        ∧ capacity Raw.SJCVector_default = 0
        ∧ rwf h Raw.SJCVector_default)
     ∧ (∀ rhs, rwf h rhs →
        ∃ v h', Raw.SJCVector_copy max_alloc rhs h = Ok (v, h')
                ∧ count v = count rhs ∧ capacity v = count rhs
                ∧ (count rhs = 0 → capacity v = 0)
                ∧ contents h' v = contents h rhs ∧ rwf h' v)).
Proof.
  split.
  - exact (construction_postcondition dflt max_alloc max_alloc_range h).
  - split; [|split; [|split]].
    + intros c Hc.
      destruct (raw_sized_spec dflt max_alloc max_alloc_range h c Hc)
        as (v & h' & Hrun & Hn & Hcap & _ & _ & Hcont & Hwf).
      by exists v, h'.
    + intros nm c Hc Hmax.
      destruct (raw_named_spec max_alloc max_alloc_range h nm c Hc Hmax)
        as (v & h' & Hrun & Hn & Hcap & Hnm & _ & Hcont & Hwf).
      by exists v, h'.
    + split; [done|]. split; [done|]. by apply raw_wf_null.
    + intros rhs Hwf.
      destruct (raw_copy_spec max_alloc max_alloc_range h rhs Hwf)
        as (v & h' & Hrun & Hcap & Hn & Hcont & Hwfv & _).
      exists v, h'. split; [done|]. split; [done|]. split; [done|].
      split; [intros Hz; by rewrite Hcap|]. done.
Qed.

(** C10.  In both classes, on a well-formed container: whatever [push_back]
    does first, grow or not, the test [size_ > last_ + 1] that guards the
    insertion then holds, so the branch that reports a full container is
    never taken: a [push_back] that returns has stored its argument, which
    the raw class first converts from [int], in the slot after the last
    occupied one, and it returns whenever the larger array can be
    allocated. *)
Theorem push_back_inserts_two_classes h this (x : T) (n : Z) :
  (mwf h this →
   (∀ g this1 h1 r h2,
      Managed.must_grow this h = Ok (g, h) →
      (if g then Managed.resize_geometric dflt max_alloc this else ret this) h
      = Ok (this1, h1) →
      Managed.has_room this1 h1 = Ok (r, h2) →
      r = true ∧ count this1 < capacity this1)
   ∧ (∀ this' h',
        Managed.push_back dflt max_alloc x this h = Ok (this', h') →
        last_ this' = last_ this + 1
        ∧ slot h' this' (last_ this') = Some x
        ∧ ∀ vs, contents h this = Some vs →
                contents h' this' = Some (vs ++ [x]))
   ∧ (count this < capacity this ∨ 2 * capacity this + 1 ≤ max_alloc →
      ∃ this' h', Managed.push_back dflt max_alloc x this h = Ok (this', h')))
  ∧ (rwf h this →
     (∀ g this1 h1 r h2,
        Raw.must_grow this h = Ok (g, h) →
        (if g then Raw.resize_geometric max_alloc this else ret this) h
        = Ok (this1, h1) →
        Raw.has_room this1 h1 = Ok (r, h2) →
        r = true ∧ count this1 < capacity this1)
     ∧ (∀ this' h',
          Raw.push_back of_int max_alloc n this h = Ok (this', h') →
          last_ this' = last_ this + 1
          ∧ slot h' this' (last_ this') = Some (of_int n)
          ∧ ∀ vs, contents h this = Some vs →
                  contents h' this' = Some (vs ++ [of_int n]))
     ∧ (count this < capacity this ∨ 2 * capacity this + 1 ≤ max_alloc →
        ∃ this' h',
          Raw.push_back of_int max_alloc n this h = Ok (this', h'))).
Proof.
  split.
  - intros Hwf.
    exact (push_back_inserts dflt max_alloc max_alloc_range h this x Hwf).
  - intros Hwf.
    destruct (raw_wf_inv max_alloc _ _ Hwf) as (H1 & H2 & H3 & _).
    split; [|split].
    + intros g this1 h1 r h2 Hg Hgrow Hroom.
      rewrite (raw_must_grow_full max_alloc) in Hg by done.
      injection Hg as <-.
      assert (rwf h1 this1 ∧ count this1 < capacity this1) as [Hwf1 Hlt].
      { destruct (bool_decide (size_ this = count this)) eqn:Hfull.
        - apply bool_decide_eq_true in Hfull.
          unfold Raw.resize_geometric in Hgrow.
          apply (raw_resize_Ok max_alloc max_alloc_range) in Hgrow
            as (? & _ & Hl & Hs); [|done|apply to_size_t_nonneg].
          split; [done|]. unfold count, capacity in *. rewrite Hs, Hl.
          rewrite to_size_t_small by (unfold SIZE_MOD, LLONG_MAX in *; lia).
          destruct (Z.eqb_spec (size_ this * 2 + 1) 0); lia.
        - apply bool_decide_eq_false in Hfull.
          injection Hgrow as <- <-. split; [done|].
          unfold count, capacity in *. lia. }
      rewrite (raw_has_room_free max_alloc) in Hroom by done.
      rewrite bool_decide_eq_true_2 in Hroom by done.
      by injection Hroom as <- <-.
    + intros this' h' Hrun.
      destruct (raw_wf_contents max_alloc _ _ Hwf) as [ws Hws].
      destruct (raw_push_back_Ok of_int max_alloc max_alloc_range
                  _ _ _ _ _ _ Hwf Hws Hrun) as (Hc' & Hl & _).
      split; [done|]. split.
      * destruct (contents_inv _ _ _ Hc') as [Hlen Htake].
        unfold slot, load_cell.
        destruct (Z.ltb_spec (last_ this') 0); [lia|].
        rewrite length_app in Hlen, Htake. simpl in Hlen, Htake.
        assert (Z.to_nat (last_ this') = length ws) as ->
          by (unfold count in *; lia).
        rewrite <- (lookup_take_lt _ (length ws + 1)) by lia.
        rewrite Htake, list_lookup_fmap, lookup_app_r by lia.
        by rewrite Nat.sub_diag.
      * intros vs Hvs. by simplify_eq.
    + intros Hcase. destruct (raw_wf_contents max_alloc _ _ Hwf) as [ws Hws].
      destruct (raw_push_back_spec of_int max_alloc max_alloc_range
                  h this n ws Hwf Hws Hcase) as (? & ? & ? & _).
      by eexists _, _.
Qed.



End Facts.
End TwoClasses.

(** ** What the display functions write *)

Module DisplayFacts.
Import Display.
Section Facts.
Context {T : Type}.

Implicit Types (h : heap T) (this : SJCVector) (vs : list T).

Lemma load_contents h this vs (k : nat) x :
  contents h this = Some vs → vs !! k = Some x →
  load (ptr_ this) (Z.of_nat k) h = Ok (x, h).
Proof.
  intros [Hlen Htake]%contents_inv Hk.
  assert (cells h (ptr_ this) !! k = Some (Some x)) as Hcell.
  { rewrite <- (lookup_take_lt _ (length vs)) by (by eapply lookup_lt_Some).
    by rewrite Htake, list_lookup_fmap, Hk. }
  unfold cells in Hcell. destruct (ptr_ this) as [l|]; [|done].
  destruct (h !! l) as [blk|] eqn:Hl; [|done].
  apply (load_ok h l blk); [done|lia|by rewrite Nat2Z.id].
Qed.

Lemma separated_cons x vs :
  separated (x :: vs)
  = Item x :: (if bool_decide (vs = []) then [] else [Str ", "])
      ++ separated vs.
Proof. by destruct vs. Qed.

Lemma print_loop_spec h this vs (n : nat) :
  contents h this = Some vs → last_ this < INT_MAX →
  ∀ i : nat, (i + n = length vs)%nat →
    print_loop n (Z.of_nat i) this h = Ok (separated (drop i vs), h).
Proof.
  intros Hvs Hint. destruct (contents_inv _ _ _ Hvs) as [Hlen _].
  unfold count in Hlen.
  induction n as [|n IH]; intros i Hi; simpl.
  - by rewrite drop_ge by lia.
  - destruct (lookup_lt_is_Some_2 vs i) as [x Hx]; [lia|].
    unfold bind. rewrite (load_contents h this vs i x Hvs Hx).
    rewrite int_succ_ok by lia.
    replace (Z.of_nat i + 1) with (Z.of_nat (S i)) by lia.
    rewrite IH by lia. unfold ret.
    rewrite (drop_S vs x i Hx), separated_cons. do 3 f_equal.
    destruct (Z.eqb_spec (Z.of_nat i) (last_ this)) as [He|He]; simpl.
    + rewrite bool_decide_eq_true_2; [done|]. apply drop_ge. lia.
    + rewrite bool_decide_eq_false_2; [done|].
      intros Hnil%(f_equal length). rewrite length_drop in Hnil.
      simpl in Hnil. lia.
Qed.

Lemma items_of_separated vs : items_of (separated vs) = vs.
Proof.
  induction vs as [|x vs IH]; [done|].
  rewrite separated_cons. unfold items_of in *. simpl.
  rewrite omap_app, IH. by case_bool_decide.
Qed.

Lemma printItems_run h this vs :
  contents h this = Some vs →
  count this ≤ capacity this → capacity this ≤ LLONG_MAX →
  last_ this < INT_MAX →
  printItems this h
  = Ok (if bool_decide (vs = []) then []
        else separated vs ++ [Str " "]
             ++ (if bool_decide (count this = capacity this)
                 then [Str "(full) "]
                 else [Str "("; Num (capacity this - count this);
                       Str " slots left) "]),
        h).
Proof.
  intros Hvs Hcap Hmax Hint. destruct (contents_inv _ _ _ Hvs) as [Hlen _].
  unfold count, capacity in *. unfold printItems.
  destruct (Z.ltb_spec (last_ this) 0) as [Hneg|Hpos]; simpl.
  { rewrite bool_decide_eq_true_2; [done|].
    apply length_zero_iff_nil. lia. }
  destruct (Z.eqb_spec (size_ this) 0) as [?|Hs]; [lia|].
  rewrite bool_decide_eq_false_2
    by (intros ->; simpl in Hlen; lia).
  unfold bind.
  rewrite (print_loop_spec h this vs _ Hvs Hint 0%nat) by lia.
  rewrite drop_0, ll_succ_ok by lia. unfold ret. do 3 f_equal.
  assert (0 ≤ last_ this + 1 < SIZE_MOD) as Hr
    by (unfold SIZE_MOD, LLONG_MAX in *; lia).
  rewrite (to_size_t_small (last_ this + 1)) by done.
  destruct (Z.eqb_spec (size_ this) (last_ this + 1)) as [He|He].
  - rewrite bool_decide_eq_true_2; done.
  - rewrite bool_decide_eq_false_2 by done.
    rewrite to_size_t_small; [done|].
    unfold SIZE_MOD, LLONG_MAX in *; lia.
Qed.

Lemma items_of_app (a b : list (token T)) :
  items_of (a ++ b) = items_of a ++ items_of b.
Proof. apply omap_app. Qed.

Lemma items_of_shown vs (status : list (token T)) :
  items_of status = [] →
  items_of (if bool_decide (vs = []) then []
            else separated vs ++ [Str " "] ++ status) = vs.
Proof.
  intros Hst. case_bool_decide as Hnil; [by subst|].
  unfold items_of in *. rewrite !omap_app, Hst.
  fold (items_of (separated vs)). rewrite items_of_separated. simpl.
  by rewrite app_nil_r.
Qed.

(** X16.  [printItems] writes the occupied elements, first to last, with
    [", "] between them, then whether the container is full or how many
    slots are left, which is the capacity less the count; it writes nothing
    at all for a container without elements.  It reads no slot past the
    last index and changes nothing. *)
Theorem printItems_spec h this vs :
  contents h this = Some vs →
  count this ≤ capacity this → capacity this ≤ LLONG_MAX →
  last_ this < INT_MAX →
  ∃ out,
    printItems this h = Ok (out, h)
    ∧ out = (if bool_decide (vs = []) then []
             else separated vs ++ [Str " "]
                  ++ (if bool_decide (count this = capacity this)
                      then [Str "(full) "]
                      else [Str "("; Num (capacity this - count this);
                            Str " slots left) "]))
    ∧ items_of out = vs.
Proof.
  intros Hvs Hcap Hmax Hint. eexists. split; [by apply printItems_run|].
  split; [done|]. apply items_of_shown. by case_bool_decide.
Qed.

(** X17.  [print] writes the name, or that there is none, then the capacity,
    then the number of elements unless the capacity is 0, then what
    [printItems] writes, and ends the line.  The elements it writes are the
    elements of the container, in order. *)
Theorem print_spec h this vs :
  contents h this = Some vs →
  count this ≤ capacity this → capacity this ≤ LLONG_MAX →
  last_ this < INT_MAX →
  ∃ items out,
    printItems this h = Ok (items, h)
    ∧ print this h = Ok (out, h)
    ∧ out = (if bool_decide (name_ this = EmptyString)
             then [Str "Unnamed SJCVector "]
             else [Str (name_ this); Str " "])
            ++ [Str "Size:"; Num (capacity this)]
            ++ (if bool_decide (capacity this = 0) then [Str " empty "]
                else [Str " has "; Num (count this); Str " items: "])
            ++ items ++ [Endl]
    ∧ items_of out = vs.
Proof.
  intros Hvs Hcap Hmax Hint.
  pose proof (printItems_run h this vs Hvs Hcap Hmax Hint) as Hitems.
  destruct (contents_inv _ _ _ Hvs) as [Hlen _].
  assert (∃ size,
            printSize this h = Ok (size, h)
            ∧ size = [Str "Size:"; Num (capacity this)]
                     ++ (if bool_decide (capacity this = 0)
                         then [Str " empty "]
                         else [Str " has "; Num (count this);
                               Str " items: "])) as (size & Hsize & Hsz).
  { unfold printSize, capacity, count in *.
    destruct (Z.eqb_spec (size_ this) 0) as [He|He].
    - rewrite bool_decide_eq_true_2 by done. eexists. split; [done|].
      by rewrite He.
    - rewrite bool_decide_eq_false_2 by done. unfold bind.
      rewrite ll_succ_ok by lia. by eexists. }
  assert (printName (T:=T) this
          = if bool_decide (name_ this = EmptyString)
            then [Str "Unnamed SJCVector "]
            else [Str (name_ this); Str " "]) as Hname.
  { unfold printName. destruct (name_ this) as [|c nm]; [done|].
    rewrite bool_decide_eq_false_2 by done.
    by destruct (Z.ltb_spec 0 (Z.of_nat (String.length (String c nm))));
      [|simpl in *; lia]. }
  eexists _, _. split; [exact Hitems|]. split.
  - unfold print, bind, printItemsLn, bind. rewrite Hsize, Hitems. done.
  - rewrite Hsz, <- Hname. split; [done|].
    rewrite !items_of_app.
    rewrite items_of_shown
      by (by destruct (bool_decide (count this = capacity this))).
    assert (items_of (printName (T:=T) this) = []) as ->
      by (unfold printName; by destruct (_ <? _)).
    simpl. destruct (bool_decide (capacity this = 0)); simpl;
      by rewrite app_nil_r.
Qed.
End Facts.
End DisplayFacts.

(** ** The further properties on the sample states *)

Module SampleFacts.
Import Managed Demo Samples DemoFacts.

Local Ltac calc :=
  vm_compute; first [reflexivity | discriminate | (intros ?; discriminate)].
Local Ltac calc' := vm_compute; split; discriminate.

(** The full container of three elements cannot be resized to 2. *)
Lemma resize_outcome_witness :
  Managed.resize 0 LLONG_MAX 2 three_v three_h = UB.
Proof.
  destruct (ManagedMore.resize_outcome 0 LLONG_MAX LLONG_MAX_range
              three_h three_v 2) as (_ & Hub & _); [calc|calc|].
  apply Hub; calc.
Defined.

(** The same container resized to 5. *)
Lemma resize_keeps_witness :
  ∃ this' h',
    Managed.resize 0 LLONG_MAX 5 three_v three_h = Ok (this', h')
    ∧ contents h' this' = Some [1; 2; 3]
    ∧ count this' = 3 ∧ capacity this' = 5.
Proof.
  destruct (Managed.resize 0 LLONG_MAX 5 three_v three_h)
    as [[this' h']| |] eqn:Hrun;
    [|exfalso; vm_compute in Hrun; discriminate..].
  destruct (ManagedMore.resize_keeps 0 LLONG_MAX LLONG_MAX_range
              three_h three_v 5 this' h') as (Hc & Hn & Hcap & _);
    [calc|calc|exact Hrun|].
  exists this', h'. split; [reflexivity|].
  split; [rewrite Hc; calc|]. split; [rewrite Hn; calc|exact Hcap].
Defined.

(** The demonstration program leaks nothing. *)
Lemma no_leak_witness :
  ∃ objs h,
    run 0 Z.add LLONG_MAX main_ops ∅ ∅ = Ok (objs, h)
    ∧ owned_exactly objs h.
Proof.
  destruct (run 0 Z.add LLONG_MAX main_ops ∅ ∅) as [[objs h]| |] eqn:Hrun.
  - exists objs, h. split; [reflexivity|].
    apply (ManagedMore.no_leak 0 Z.add LLONG_MAX LLONG_MAX_range
             main_ops objs h); [calc|exact Hrun].
  - exfalso. pose proof main_returns as H. rewrite Hrun in H. discriminate.
  - exfalso. pose proof main_returns as H. rewrite Hrun in H. discriminate.
Defined.

(** The program that shrinks a full container. *)
Lemma undefined_cause_witness :
  ∃ os1 o os2 objs h,
    shrink_ops = os1 ++ o :: os2
    ∧ run 0 Z.add LLONG_MAX os1 ∅ ∅ = Ok (objs, h)
    ∧ step 0 Z.add LLONG_MAX o objs h = UB
    ∧ ((∃ x n vx, o = Resize x n ∧ objs !! x = Some vx ∧ 0 < count vx
                  ∧ (if to_size_t n =? 0 then 1 else to_size_t n)
                    < capacity vx)
       ∨ (∃ x y z vy vz, o = Plus x y z ∧ objs !! x = None
                         ∧ objs !! y = Some vy ∧ objs !! z = Some vz
                         ∧ last_ vz = last_ vy ∧ INT_MAX ≤ last_ vy)).
Proof.
  apply (ManagedMore.undefined_cause 0 Z.add LLONG_MAX LLONG_MAX_range
           shrink_ops).
  calc.
Defined.

(** The container of three elements is moved from and then used again. *)
Lemma moved_from_reusable_witness :
  ∃ A2 h',
    Managed.push_back 0 LLONG_MAX 7 (SJCVector_move three_v).2 three_h
    = Ok (A2, h')
    ∧ contents h' A2 = Some [7] ∧ count A2 = 1 ∧ capacity A2 = 1
    ∧ Managed.wf LLONG_MAX h' A2 ∧ separate A2 (SJCVector_move three_v).1
    ∧ contents h' (SJCVector_move three_v).1 = contents three_h three_v
    ∧ count (SJCVector_move three_v).1 = count three_v
    ∧ Managed.wf LLONG_MAX h' (SJCVector_move three_v).1.
Proof.
  apply (ManagedMore.moved_from_reusable 0 LLONG_MAX LLONG_MAX_range
           three_h three_v); [calc|calc|reflexivity].
Defined.

(** The container of three elements swapped with an empty one. *)
Lemma swap_exchanges_witness :
  contents two_h (swap three_v two_v).1 = contents two_h two_v
  ∧ contents two_h (swap three_v two_v).2 = contents two_h three_v
  ∧ swap (swap three_v two_v).1 (swap three_v two_v).2 = (three_v, two_v).
Proof.
  destruct (ManagedMore.swap_exchanges LLONG_MAX two_h three_v two_v
              (swap three_v two_v).1 (swap three_v two_v).2)
    as (H1 & H2 & _ & _ & _ & _ & _ & _ & _ & _ & H3);
    [exact three_wf|exact two_wf|reflexivity|].
  split; [exact H1|]. split; [exact H2|exact H3].
Defined.

Lemma n_owned : owned_exactly n_objs n_h.
Proof.
  eapply (ManagedMore.run_owned 0 Z.add LLONG_MAX LLONG_MAX_range n_ops []);
    [calc| | | |exact n_state].
  - by intros x ?%elem_of_nil.
  - apply ManagedFacts.wf_world_empty.
  - intros l. rewrite lookup_empty. split; [by intros [? ?]|].
    intros (x & v & Hx & _). by rewrite lookup_empty in Hx.
Qed.

(** The one container of a scope is destroyed: no array is left. *)
Lemma dtor_releases_witness :
  ∃ h',
    SJCVector_dtor n_v n_h = Ok (tt, h')
    ∧ wf_world LLONG_MAX (delete "n" n_objs) h'
    ∧ owned_exactly (delete "n" n_objs) h'
    ∧ (∀ y w, y ≠ "n" → n_objs !! y = Some w →
              contents h' w = contents n_h w).
Proof.
  apply (ManagedMore.dtor_releases LLONG_MAX n_objs n_h "n" n_v);
    [exact n_world|exact n_owned|calc].
Defined.

(** [n = std::move(n)] in the scope of [n]. *)
Lemma self_move_assignment_witness :
  ∃ A',
    step 0 Z.add LLONG_MAX (MoveAssign "n" "n") n_objs n_h
    = Ok (<["n" := A']> n_objs, n_h)
    ∧ ptr_ A' = ptr_ n_v ∧ contents n_h A' = contents n_h n_v
    ∧ count A' = count n_v ∧ capacity A' = capacity n_v
    ∧ name_ A' = name_ n_v.
Proof.
  apply (ManagedMore.self_move_assignment 0 Z.add LLONG_MAX n_objs n_h "n" n_v).
  calc.
Defined.

(** Three values appended to an empty container of capacity 2. *)
Lemma geometric_growth_witness :
  ∃ this' h',
    push_all 0 LLONG_MAX [4; 5; 6] two_v two_h = Ok (this', h')
    ∧ count this' = count two_v + 3
    ∧ capacity two_v ≤ capacity this'
    ∧ (capacity this' = capacity two_v
       ∨ capacity this' ≤ 2 * count this' - 1).
Proof.
  destruct (push_all 0 LLONG_MAX [4; 5; 6] two_v two_h)
    as [[this' h']| |] eqn:Hrun;
    [|exfalso; vm_compute in Hrun; discriminate..].
  destruct (ManagedMore.geometric_growth 0 LLONG_MAX LLONG_MAX_range
              [4; 5; 6] two_h two_v this' h') as (Hc & Hle & Hcap & _);
    [exact two_wf|exact Hrun|].
  exists this', h'. split; [reflexivity|]. split; [exact Hc|].
  split; [exact Hle|exact Hcap].
Defined.

(** The raw container of three elements resized to 2. *)
Lemma raw_resize_truncates_witness :
  ∃ this' h',
    Raw.resize LLONG_MAX 2 three_v three_h = Ok (this', h')
    ∧ capacity this' = 2 ∧ count this' = Z.min (count three_v) 2
    ∧ contents h' this' = Some (take 2 [1; 2; 3])
    ∧ name_ this' = name_ three_v
    ∧ Raw.wf LLONG_MAX h' this'
    ∧ (∀ l, ptr_ three_v = Some l → h' !! l = None)
    ∧ (∀ l, ptr_ three_v ≠ Some l → is_Some (three_h !! l) →
            h' !! l = three_h !! l).
Proof.
  apply (RawMore.raw_resize_truncates LLONG_MAX LLONG_MAX_range
           three_h three_v 2 [1; 2; 3]); calc.
Defined.

(** The raw copy of a container of two elements in capacity 3. *)
Lemma raw_copy_shrinks_to_fit_witness :
  ∃ v h',
    Raw.SJCVector_copy LLONG_MAX n_v n_h = Ok (v, h')
    ∧ capacity v = count n_v ∧ count v = count n_v
    ∧ contents h' v = Some [3; 56] ∧ Raw.wf LLONG_MAX h' v
    ∧ separate n_v v ∧ Raw.wf LLONG_MAX h' n_v
    ∧ contents h' n_v = Some [3; 56]
    ∧ (2 * count n_v + 1 ≤ LLONG_MAX →
       ∃ v2 h2,
         Raw.push_back id LLONG_MAX 9 v h' = Ok (v2, h2)
         ∧ capacity v2 = 2 * count n_v + 1
         ∧ count v2 = count n_v + 1
         ∧ contents h2 v2 = Some ([3; 56] ++ [id 9])).
Proof.
  apply (RawMore.raw_copy_shrinks_to_fit id LLONG_MAX LLONG_MAX_range
           n_h n_v [3; 56] 9); calc.
Defined.

(** The raw constructor with a name, asked for no capacity. *)
Lemma raw_construction_witness :
  ∃ v h',
    Raw.SJCVector_named LLONG_MAX "e" 0 (∅ : heap Z) = Ok (v, h')
    ∧ count v = 0 ∧ capacity v = Z.max 0 1 ∧ name_ v = "e"
    ∧ (∃ l, ptr_ v = Some l ∧ (∅ : heap Z) !! l = None)
    ∧ contents h' v = Some [] ∧ Raw.wf LLONG_MAX h' v.
Proof.
  destruct (RawMore.raw_construction 0 LLONG_MAX LLONG_MAX_range
              (∅ : heap Z)) as (_ & _ & Hnamed).
  apply Hnamed; calc.
Defined.

(** The raw container of three elements moved into an empty one. *)
Lemma raw_move_correctness_witness :
  contents three_h (Raw.SJCVector_move three_v).1 = contents three_h three_v
  ∧ first_ (Raw.SJCVector_move three_v).1 = Some 0
  ∧ ptr_ (Raw.SJCVector_move three_v).2 = None
  ∧ Raw.SJCVector_dtor (Raw.SJCVector_move three_v).2 three_h
    = Ok (tt, three_h).
Proof.
  destruct (RawMore.raw_move_correctness LLONG_MAX LLONG_MAX_range
              three_h three_v (Raw.SJCVector_move three_v).1
              (Raw.SJCVector_move three_v).2)
    as (H1 & _ & _ & H2 & _ & _ & _ & H3 & _ & H4 & _);
    [calc|reflexivity|].
  split; [exact H1|]. split; [exact H2|]. split; [exact H3|exact H4].
Defined.

(** The raw class adds ["ab"] to a copy of ["cd"]. *)
Lemma raw_operator_plus_spec_witness :
  ∃ R h',
    Raw.operator_plus String.append LLONG_MAX ab_v cd_v strings_h
    = Ok (R, h')
    ∧ count R = count ab_v ∧ capacity R = count ab_v
    ∧ (∀ i, 0 ≤ i ≤ last_ ab_v →
            ∃ a b, slot strings_h ab_v i = Some a
                   ∧ slot strings_h cd_v i = Some b
                   ∧ slot h' R i = Some (String.append b a))
    ∧ Raw.wf LLONG_MAX h' R ∧ separate ab_v R ∧ separate cd_v R
    ∧ contents h' ab_v = contents strings_h ab_v
    ∧ contents h' cd_v = contents strings_h cd_v.
Proof.
  apply (RawMore.raw_operator_plus_spec String.append LLONG_MAX
           LLONG_MAX_range strings_h ab_v cd_v); calc.
Defined.

(** The raw [push_back] on a container of two elements in capacity 3. *)
Lemma raw_push_back_outcome_witness :
  ∃ this' h',
    Raw.push_back id LLONG_MAX 9 n_v n_h = Ok (this', h')
    ∧ contents h' this' = Some ([3; 56] ++ [id 9])
    ∧ count this' = count n_v + 1
    ∧ capacity this'
      = (if bool_decide (capacity n_v = count n_v)
         then 2 * capacity n_v + 1 else capacity n_v)
    ∧ Raw.wf LLONG_MAX h' this'.
Proof.
  apply (RawMore.raw_push_back_outcome id LLONG_MAX LLONG_MAX_range
           n_h n_v 9 [3; 56]); [calc|calc|left; calc].
Defined.

(** The empty raw container of capacity 2 is assigned the container of
    three elements. *)
Lemma raw_copy_assignment_witness :
  ∃ this' h',
    RawAssign.copy_assign LLONG_MAX two_v three_v two_h = Ok (this', h')
    ∧ contents h' this' = contents two_h three_v
    ∧ count this' = count three_v ∧ capacity this' = count three_v
    ∧ name_ this' = name_ two_v
    ∧ Raw.wf LLONG_MAX h' this'
    ∧ (∀ l, ptr_ two_v = Some l → h' !! l = None)
    ∧ (separate three_v two_v →
       Raw.wf LLONG_MAX h' three_v
       ∧ contents h' three_v = contents two_h three_v
       ∧ separate three_v this').
Proof.
  apply (RawMore.raw_copy_assignment LLONG_MAX LLONG_MAX_range
           two_h two_v three_v); calc.
Defined.

(** What is written for the container [n] that holds [3; 56] in capacity
    3. *)
Lemma printItems_spec_witness :
  ∃ out,
    Display.printItems n_v n_h = Ok (out, n_h)
    ∧ out = [Display.Item 3; Display.Str ", "; Display.Item 56;
             Display.Str " "; Display.Str "("; Display.Num 1;
             Display.Str " slots left) "]
    ∧ Display.items_of out = [3; 56].
Proof.
  apply (DisplayFacts.printItems_spec n_h n_v [3; 56]); calc.
Defined.

Lemma print_spec_witness :
  ∃ items out,
    Display.printItems n_v n_h = Ok (items, n_h)
    ∧ Display.print n_v n_h = Ok (out, n_h)
    ∧ out = [Display.Str "n"; Display.Str " "]
            ++ [Display.Str "Size:"; Display.Num 3]
            ++ [Display.Str " has "; Display.Num 2; Display.Str " items: "]
            ++ items ++ [Display.Endl]
    ∧ Display.items_of out = [3; 56].
Proof.
  apply (DisplayFacts.print_spec n_h n_v [3; 56]); calc.
Defined.

(** Both classes append 9 to the container of two elements in capacity
    3. *)
Lemma push_back_classes_agree_witness :
  ∃ m hm r hr,
    Managed.push_back 0 LLONG_MAX (id 9) n_v n_h = Ok (m, hm)
    ∧ Raw.push_back id LLONG_MAX 9 n_v n_h = Ok (r, hr)
    ∧ contents hr r = contents hm m
    ∧ count r = count m ∧ capacity r = capacity m.
Proof.
  destruct (RawMore.push_back_classes_agree 0 id LLONG_MAX LLONG_MAX_range
              n_h n_v 9) as [[Hthrow _]|Hok]; [calc| |exact Hok].
  exfalso. vm_compute in Hthrow. discriminate.
Defined.

(** *** The claims on both classes *)



(** A requested capacity of 5 and a copy of the container of three
    elements in the class over [unique_ptr]; a constructor with a name
    asked for no capacity and a copy of the same container in the raw
    class. *)
Lemma construction_two_classes_witness :
  (∃ v h', Managed.SJCVector_sized 0 LLONG_MAX 5 two_h = Ok (v, h')
           ∧ count v = 0 ∧ capacity v = 5)
  ∧ (∃ v h', Managed.SJCVector_copy 0 LLONG_MAX three_v two_h = Ok (v, h')
             ∧ capacity v = capacity three_v)
  ∧ (∃ v h', Raw.SJCVector_named LLONG_MAX "e" 0 two_h = Ok (v, h')
             ∧ count v = 0 ∧ capacity v = Z.max 0 1)
  ∧ (∃ v h', Raw.SJCVector_copy LLONG_MAX three_v two_h = Ok (v, h')
             ∧ capacity v = count three_v).
Proof.
  destruct (TwoClasses.construction_two_classes 0 LLONG_MAX LLONG_MAX_range
              two_h)
    as ((Hsized & _ & _ & Hcopy) & (_ & Hnamed & _ & Hrcopy)).
  split; [|split; [|split]].
  - destruct (Hsized 5) as (v & h' & Hrun & Hn & Hc & _); [calc'|].
    exists v, h'. split; [exact Hrun|]. split; [exact Hn|exact Hc].
  - destruct (Hcopy three_v three_wf) as (v & h' & Hrun & _ & Hc).
    exists v, h'. split; [exact Hrun|exact Hc].
  - destruct (Hnamed "e" 0) as (v & h' & Hrun & Hn & Hc & _); [calc|calc|].
    exists v, h'. split; [exact Hrun|]. split; [exact Hn|exact Hc].
  - destruct (Hrcopy three_v) as (v & h' & Hrun & _ & Hc & _); [calc|].
    exists v, h'. split; [exact Hrun|exact Hc].
Defined.

(** A full container: either class stores the value after the growth. *)
Lemma push_back_inserts_two_classes_witness :
  (∃ this' h', Managed.push_back 0 LLONG_MAX 4 three_v two_h = Ok (this', h')
               ∧ last_ this' = 3 ∧ slot h' this' (last_ this') = Some 4)
  ∧ (∃ this' h', Raw.push_back id LLONG_MAX 4 three_v two_h = Ok (this', h')
                 ∧ last_ this' = 3
                 ∧ slot h' this' (last_ this') = Some (id 4)).
Proof.
  destruct (TwoClasses.push_back_inserts_two_classes 0 id LLONG_MAX
              LLONG_MAX_range two_h three_v 4 4) as [Hm Hr].
  split.
  - destruct (Hm three_wf) as (_ & Hins & Htot).
    destruct Htot as (this' & h' & Hrun); [right; calc|].
    destruct (Hins this' h' Hrun) as (Hl & Hslot & _).
    exists this', h'. split; [exact Hrun|]. split; [exact Hl|exact Hslot].
  - destruct (Hr ltac:(calc)) as (_ & Hins & Htot).
    destruct Htot as (this' & h' & Hrun); [right; calc|].
    destruct (Hins this' h' Hrun) as (Hl & Hslot & _).
    exists this', h'. split; [exact Hrun|]. split; [exact Hl|exact Hslot].
Defined.




End SampleFacts.
